(** * Timeline controller and interaction directives: a shallow embedding

    The JavaScript sources embedded here are
    - [src/gametime/src/chat_ui/chat.js]   (the [TimelineCtrl] controller),
    - [src/gametime/src/timeline/js/directives/clip.js] (the [tlClip] directive),
    - the keyframe directive [tlKeyframe] and the transition directive
      [tlTransition] ([src/unnamed/part_001]).

    Number model.  JavaScript numbers are IEEE doubles.  A finite double is
    a rational, so every time, pixel and frame value is embedded in [Q].
    Where the result of a function depends on the rounding of its
    intermediate values ([getMissingTransitions], the keyframe directive,
    [Waveform.resampleWaveform]) every operation is rounded to binary64 with
    [Double.fl]; elsewhere the arithmetic is exact.  Values that the source
    guards with [isFinite]/[isNaN] are embedded as [option Q] or as [jsnum],
    where the missing case stands for NaN, an infinity or a non-numeric
    value.  [Qeq] ([==]) plays the role of numeric [===]. *)

From Stdlib Require Import QArith Qround Qabs Qpower ZArith List String Bool Lia
  Lqa Sorted.
Import ListNotations.
Open Scope Q_scope.

(* ================================================================== *)
(** * JavaScript arithmetic primitives *)
(* ================================================================== *)

Module JS.

  (** [a < b], [a > b], [a <= b], [a >= b] on finite numbers. *)
Definition ltb (a b : Q) : bool := negb (Qle_bool b a).
Definition gtb (a b : Q) : bool := ltb b a.
Definition leb (a b : Q) : bool := Qle_bool a b.
Definition geb (a b : Q) : bool := Qle_bool b a.
  (** [a === b] and [a !== b] on finite numbers. *)
Definition eqb (a b : Q) : bool := Qeq_bool a b.
Definition neqb (a b : Q) : bool := negb (Qeq_bool a b).

  (** [Math.floor], and [Math.round], which rounds halves towards +infinity. *)
Definition Math_floor (x : Q) : Z := Qfloor x.
Definition Math_round (x : Q) : Z := Qfloor (x + (1 # 2)).
Definition Math_abs (x : Q) : Q := Qabs x.
Definition Math_max (a b : Q) : Q := if ltb a b then b else a.
Definition Math_min (a b : Q) : Q := if ltb b a then b else a.

  (** A number that may fail [isFinite]. *)
Inductive jsnum : Type :=
  | Finite (q : Q)
  | NonFinite.

Definition isFinite (v : jsnum) : bool :=
    match v with Finite _ => true | NonFinite => false end.

  (** The [toNumber(value, fallback)] pattern: [parseFloat], and the fallback
      when the result is NaN.  [None] is a value that parses to NaN. *)
Definition toNumber (value : option Q) (fallback : Q) : Q :=
    match value with Some v => v | None => fallback end.

End JS.

(* ================================================================== *)
(** * Binary64 arithmetic *)
(* ================================================================== *)

(** IEEE 754 double precision, round to nearest, ties to even.  A finite
    double is [m * 2^e] with [|m| < 2^53] and [-1074 <= e]; [fl x] is the
    double nearest to the rational [x].  Overflow to an infinity (beyond
    [2^1024]) is not modelled, the sign of zero is not kept, and a division
    by zero, which JavaScript answers with an infinity or NaN, is the
    rational division of [Q]. *)
Module Double.

Definition pow2 (e : Z) : Q := Qpower 2 e.

(** The binade [k] of a positive rational in lowest terms:
    [2^k <= a < 2^(k+1)]. *)
Definition binade (a : Q) : Z :=
  let k := (Z.log2 (Qnum a) - Z.log2 (Z.pos (Qden a)))%Z in
  if Qle_bool (pow2 k) a then k else (k - 1)%Z.

(** The integer nearest to [x], the even one of the two at a tie. *)
Definition nearest_even (x : Q) : Z :=
  let n := Qfloor x in
  match Qcompare (x - inject_Z n) (1 # 2) with
  | Lt => n
  | Gt => (n + 1)%Z
  | Eq => if Z.even n then n else (n + 1)%Z
  end.

Definition fl (x : Q) : Q :=
  let x := Qred x in
  if Qeq_bool x 0 then 0
  else
    let a := Qabs x in
    let e := Z.max (binade a - 52) (-1074) in
    let m := inject_Z (nearest_even (a / pow2 e)) in
    Qred ((if Qle_bool 0 x then m else - m) * pow2 e).

(** A number read from the model (a JSON number, a DOM offset) or written
    as a literal is the double nearest to its decimal value. *)
Definition num (q : Q) : Q := fl q.

(** [a + b], [a - b], [a * b], [a / b] on doubles. *)
Definition add (a b : Q) : Q := fl (a + b).
Definition sub (a b : Q) : Q := fl (a - b).
Definition mul (a b : Q) : Q := fl (a * b).
Definition div (a b : Q) : Q := fl (a / b).

End Double.

(* ================================================================== *)
(** * Time math *)
(* ================================================================== *)

Module TimeMath.

  (** Modelled from the spec: [snapToFPSGridTime], a global helper that the
      controller and the directives call but whose definition is not among
      the sources.  Section 4.1:
      [snapToFPSGridTime(t) = round(t * num / den) * den / num]. *)
Definition snapToFPSGridTime (fps_num fps_den : Q) (t : Q) : Q :=
    inject_Z (JS.Math_round (t * fps_num / fps_den)) * fps_den / fps_num.

  (** Modelled from the spec: [pixelToTime], a global helper whose definition
      is not among the sources.  Section 4.1:
      [pixelToTime(px) = px / pixelsPerSecond]. *)
Definition pixelToTime (pixelsPerSecond : Q) (px : Q) : Q :=
    px / pixelsPerSecond.

End TimeMath.

(* ================================================================== *)
(** * Project data model *)
(* ================================================================== *)

(** One keyframe [{co: {X, Y}, interpolation}]. *)
Module Point.
Record t : Type := mk
    { X : Q;              (* co.X, the frame number *)
      Y : Q;              (* co.Y *)
      interpolation : Z }.
Definition set_X (x : Q) (p : t) : t := mk x (Y p) (interpolation p).
End Point.

(** An animatable property: an object that may carry [Points] and, for
    colours, the channels [red], [green], [blue], each with its [Points]. *)
Module Keyframed.
Record t : Type := mk
    { Points : option (list Point.t);
      red : option (list Point.t);
      green : option (list Point.t);
      blue : option (list Point.t) }.
End Keyframed.

(** An effect nested in a clip. *)
Module Effect.
Record t : Type := mk
    { id : string;
      type : string;
      selected : bool;
      props : list (string * Keyframed.t) }.
Definition set_selected (b : bool) (e : t) : t := mk (id e) (type e) b (props e).
Definition set_props (ps : list (string * Keyframed.t)) (e : t) : t :=
    mk (id e) (type e) (selected e) ps.
End Effect.

(** [ui.keyframe_preview]; numeric fields go through [toNumber] when read. *)
Module Preview.
Record t : Type := mk
    { active : bool;
      mode : string;
      originalStart : option Q;
      originalEnd : option Q;
      displayStart : option Q;
      displayEnd : option Q;
      projectedStart : option Q;
      projectedEnd : option Q;
      pixelsPerSecond : option Q }.
End Preview.

(** The [reader] descriptor of a clip. *)
Module Reader.
Record t : Type := mk
    { duration : option Q;
      video_length : option Q;
      fps_num : option Q;
      fps_den : option Q;
      has_single_image : bool;
      media_type : string }.
End Reader.

(** A clip or a transition.  As in the source the two are told apart by the
    presence of [file_id]; a transition has no [effects] array. *)
Module Item.
Record t : Type := mk
    { id : string;
      file_id : option string;
      layer : Z;
      position : Q;
      start : Q;
      end_ : Q;
      duration : option Q;
      selected : bool;
      has_single_image : bool;
      media_type : string;
      reader : Reader.t;
      props : list (string * Keyframed.t);
      effects : option (list Effect.t);
      keyframe_preview : option Preview.t;
      audio_data : option (list JS.jsnum) }.

Definition set_selected (b : bool) (i : t) : t :=
    mk (id i) (file_id i) (layer i) (position i) (start i) (end_ i) (duration i)
       b (has_single_image i) (media_type i) (reader i) (props i) (effects i)
       (keyframe_preview i) (audio_data i).
Definition set_effects (es : option (list Effect.t)) (i : t) : t :=
    mk (id i) (file_id i) (layer i) (position i) (start i) (end_ i) (duration i)
       (selected i) (has_single_image i) (media_type i) (reader i) (props i) es
       (keyframe_preview i) (audio_data i).
Definition set_props (ps : list (string * Keyframed.t)) (i : t) : t :=
    mk (id i) (file_id i) (layer i) (position i) (start i) (end_ i) (duration i)
       (selected i) (has_single_image i) (media_type i) (reader i) ps (effects i)
       (keyframe_preview i) (audio_data i).
Definition set_timing (p s e : Q) (i : t) : t :=
    mk (id i) (file_id i) (layer i) p s e (duration i)
       (selected i) (has_single_image i) (media_type i) (reader i) (props i)
       (effects i) (keyframe_preview i) (audio_data i).
Definition set_audio_data (a : option (list JS.jsnum)) (i : t) : t :=
    mk (id i) (file_id i) (layer i) (position i) (start i) (end_ i) (duration i)
       (selected i) (has_single_image i) (media_type i) (reader i) (props i)
       (effects i) (keyframe_preview i) a.
End Item.

Module Marker.
Record t : Type := mk { id : string; position : Q }.
End Marker.

Module Layer.
Record t : Type := mk { id : string; number : Z; y : Q; lock : bool }.
End Layer.

Module Project.
Record t : Type := mk
    { fps_num : Q;
      fps_den : Q;
      duration : Q;
      scale : Q;
      tick_pixels : Q;
      playhead_position : Q;
      clips : list Item.t;
      effects : list Item.t;      (* the transitions *)
      layers : list Layer.t;
      markers : list Marker.t }.
Definition set_playhead_position (p : Q) (j : t) : t :=
    mk (fps_num j) (fps_den j) (duration j) (scale j) (tick_pixels j) p
       (clips j) (effects j) (layers j) (markers j).
Definition set_items (cs ts : list Item.t) (j : t) : t :=
    mk (fps_num j) (fps_den j) (duration j) (scale j) (tick_pixels j)
       (playhead_position j) cs ts (layers j) (markers j).
End Project.

(** The three item kinds that [selectItem] dispatches on. *)
Inductive ItemType : Type := ty_clip | ty_transition | ty_effect.

Definition type_name (ty : ItemType) : string :=
  match ty with
  | ty_clip => "clip"
  | ty_transition => "transition"
  | ty_effect => "effect"
  end.

(** A missing-transition proposal [{position, layer, start, end}]. *)
Module Proposal.
Record t : Type := mk { position : Q; layer : Z; start : Q; end_ : Q }.
End Proposal.

(** Outbound calls to the host ([timeline.*]). *)
Inductive HostCall : Type :=
| qt_log (level msg : string)
| addSelection (id type : string) (force_clear_others : bool)
| removeSelection (id type : string)
| RazorSliceAtCursor (clip_id tran_id : string) (cursor_seconds : Q)
| add_missing_transition (json : Proposal.t)
| update_clip_data (json : Item.t)
    (allow_keyframes force_json_diff ignore_refresh : bool)
    (transactionId : option string)
| update_transition_data (json : Item.t)
    (force_json_diff ignore_refresh : bool) (transactionId : option string)
| StartKeyframeDrag (type id transactionId : string)
| FinalizeKeyframeDrag (type id : string)
| RetimeClip (id : string) (end_ position : Q).

(** How a handler or a scope function ends: it returns, or an exception
    leaves it. *)
Inductive Completion : Type :=
| Returned
| Threw.

(** One entry of the mapping returned by [getKeyframes] (the [icon] of an
    effect keyframe, a data URL, is not represented). *)
Module KeyframeEntry.
Record t : Type := mk
  { interpolation : string;
    selected : bool;
    type : string;
    owner : string;
    insidePreview : bool;
    baseSelected : bool }.
End KeyframeEntry.

(** [String.prototype.toLowerCase] on ASCII and [String.prototype.includes]. *)
Module Str.
Definition ascii_toLowerCase (c : Ascii.ascii) : Ascii.ascii :=
  let n := Ascii.nat_of_ascii c in
  if (65 <=? n)%nat && (n <=? 90)%nat then Ascii.ascii_of_nat (n + 32) else c.
Fixpoint toLowerCase (s : string) : string :=
  match s with
  | EmptyString => EmptyString
  | String c r => String (ascii_toLowerCase c) (toLowerCase r)
  end.
Definition includes (s sub : string) : bool :=
  match String.index 0 sub s with Some _ => true | None => false end.
(** [s.replace(pat, "")]: removes the first occurrence of [pat]. *)
Definition remove_first (s pat : string) : string :=
  match String.index 0 pat s with
  | Some i =>
      String.append (String.substring 0 i s)
        (String.substring (i + String.length pat)
           (String.length s - (i + String.length pat)) s)
  | None => s
  end.
End Str.

(* ================================================================== *)
(** * The timeline controller ([TimelineCtrl], chat.js) *)
(* ================================================================== *)

Module Scope.
Record t : Type := mk
  { project : Project.t;
    pixelsPerSecond : Q;
    Qt : bool;
    dragging : bool;
    enable_razor : bool;
    enable_timing : bool;
    keyframe_prop_filter : string;
    (* a reference to the last selected object: its kind and id *)
    lastSelectedItem : option (ItemType * string) }.
Definition set_project (p : Project.t) (s : t) : t :=
  mk p (pixelsPerSecond s) (Qt s) (dragging s) (enable_razor s)
     (enable_timing s) (keyframe_prop_filter s) (lastSelectedItem s).
Definition set_lastSelectedItem (l : option (ItemType * string)) (s : t) : t :=
  mk (project s) (pixelsPerSecond s) (Qt s) (dragging s) (enable_razor s)
     (enable_timing s) (keyframe_prop_filter s) l.
Definition set_dragging (b : bool) (s : t) : t :=
  mk (project s) (pixelsPerSecond s) (Qt s) b (enable_razor s)
     (enable_timing s) (keyframe_prop_filter s) (lastSelectedItem s).
End Scope.

Module Controller.

(** [snapToFPSGridTime(scope, t)]: the helper reads the project's fps. *)
Definition snapToFPSGridTime (scope : Scope.t) (t : Q) : Q :=
  TimeMath.snapToFPSGridTime
    (Project.fps_num (Scope.project scope)) (Project.fps_den (Scope.project scope)) t.

Definition pixelToTime (scope : Scope.t) (px : Q) : Q :=
  TimeMath.pixelToTime (Scope.pixelsPerSecond scope) px.

(** ** [$scope.movePlayhead] (chat.js 836-845)

    Only the write to [project.playhead_position] is kept; the ruler readout
    and the two DOM writes derive from it and do not feed back. *)
Definition movePlayhead (scope : Scope.t) (position_seconds : Q) : Scope.t :=
  Scope.set_project
    (Project.set_playhead_position
       (snapToFPSGridTime scope position_seconds) (Scope.project scope))
    scope.

(** ** [$scope.getMissingTransitions] (chat.js 2379-2447)

    The edges and the overlap are sums and differences of doubles, and the
    comparisons with [0.5] and with [TOLERANCE] are made on their rounded
    values: every field is read as a double and every operation is rounded. *)

(** Body of the first loop.  The result is the new value of
    [transition_size] and whether the loop breaks. *)
Definition overlap_step (original_clip : Item.t) (original_left original_right : Q)
    (transition_size : option Proposal.t) (clip : Item.t)
  : option Proposal.t * bool :=
  if negb (Z.eqb (Item.layer original_clip) (Item.layer clip)) then
    (transition_size, false)                                     (* continue *)
  else
    let clip_left := Double.num (Item.position clip) in
    let clip_right :=
      Double.add (Double.num (Item.position clip))
        (Double.sub (Double.num (Item.end_ clip)) (Double.num (Item.start clip))) in
    let transition_size :=
      if JS.ltb original_left clip_right && JS.gtb original_left clip_left then
        Some (Proposal.mk original_left (Item.layer clip) 0
                (Double.sub clip_right original_left))
      else if JS.gtb original_right clip_left && JS.ltb original_right clip_right then
        Some (Proposal.mk clip_left (Item.layer clip) 0
                (Double.sub original_right clip_left))
      else transition_size in
    match transition_size with
    | Some ts =>
        if JS.geb (Proposal.end_ ts) (1 # 2) then (Some ts, true)   (* break *)
        else if JS.ltb (Proposal.end_ ts) (1 # 2) then (None, false)
        else (Some ts, false)
    | None => (None, false)
    end.

Fixpoint overlap_loop (original_clip : Item.t) (original_left original_right : Q)
    (transition_size : option Proposal.t) (clips : list Item.t)
  : option Proposal.t :=
  match clips with
  | [] => transition_size
  | clip :: rest =>
      match overlap_step original_clip original_left original_right
              transition_size clip with
      | (ts, true) => ts
      | (ts, false) =>
          overlap_loop original_clip original_left original_right ts rest
      end
  end.

(** [var TOLERANCE = 0.01]. *)
Definition TOLERANCE : Q := Double.num (1 # 100).

(** The second loop: an existing transition on the proposal's layer whose
    left or right edge coincides with the proposal's clears it. *)
Fixpoint existing_loop (transition_size : Proposal.t) (effects : list Item.t)
  : option Proposal.t :=
  match effects with
  | [] => Some transition_size
  | tran :: rest =>
      if negb (Z.eqb (Item.layer tran) (Proposal.layer transition_size)) then
        existing_loop transition_size rest                        (* continue *)
      else
        let tran_left := Double.num (Item.position tran) in
        let tran_right :=
          Double.add (Double.num (Item.position tran))
            (Double.sub (Double.num (Item.end_ tran)) (Double.num (Item.start tran))) in
        let new_tran_left := Proposal.position transition_size in
        let new_tran_right :=
          Double.add (Proposal.position transition_size)
            (Double.sub (Proposal.end_ transition_size)
               (Proposal.start transition_size)) in
        if JS.ltb (JS.Math_abs (Double.sub tran_left new_tran_left)) TOLERANCE
           || JS.ltb (JS.Math_abs (Double.sub tran_right new_tran_right)) TOLERANCE
        then None                                                 (* break *)
        else existing_loop transition_size rest
  end.

Definition getMissingTransitions (scope : Scope.t) (original_clip : Item.t)
  : option Proposal.t :=
  let original_left := Double.num (Item.position original_clip) in
  let original_right :=
    Double.add (Double.num (Item.position original_clip))
      (Double.sub (Double.num (Item.end_ original_clip))
         (Double.num (Item.start original_clip))) in
  match overlap_loop original_clip original_left original_right None
          (Project.clips (Scope.project scope)) with
  | Some transition_size =>
      existing_loop transition_size (Project.effects (Scope.project scope))
  | None => None
  end.

(** The tail of [updateRecentItemJSON] (chat.js 2161-2165): after an item
    was dropped, the proposal is reported when exactly one item moved. *)
Definition report_missing_transition (scope : Scope.t) (item_object : Item.t)
    (item_ids_length : nat) : list HostCall :=
  match getMissingTransitions scope item_object with
  | Some missing_transition_details =>
      if Scope.Qt scope && Nat.eqb item_ids_length 1
      then [add_missing_transition missing_transition_details]
      else []
  | None => []
  end.

(** ** [$scope.lookupInterpolation] (chat.js 890-898) *)
Definition lookupInterpolation (interpolation_number : Z) : string :=
  if Z.eqb interpolation_number 0 then "bezier"
  else if Z.eqb interpolation_number 1 then "linear"
  else "constant".

(** ** [$scope.hasSelectedEffect] (chat.js 911-917) *)
Definition hasSelectedEffect (clip : Item.t) : bool :=
  match Item.effects clip with
  | Some effects => existsb Effect.selected effects
  | None => false
  end.

(** ** [$scope.getKeyframes] (chat.js 919-1157)

    The result is the mapping frame -> entry, kept as an association list in
    ascending frame order (the enumeration order of integer keys of a
    JavaScript object).  The memoisation through [keyframeCache] is left
    out: its key lists every stored frame, so a cache hit returns a mapping
    with the same frames. *)
Section GetKeyframes.

Variable scope : Scope.t.
Variable object : Item.t.

Definition frames_per_second : Q :=
  Project.fps_num (Scope.project scope) / Project.fps_den (Scope.project scope).

Definition clip_start_sec : Q := JS.toNumber (Some (Item.start object)) 0.
Definition clip_end_sec : Q :=
  let clip_end_sec := JS.toNumber (Some (Item.end_ object)) clip_start_sec in
  if JS.ltb clip_end_sec clip_start_sec then clip_start_sec else clip_end_sec.

Definition object_type : string :=
  match Item.file_id object with Some _ => "clip" | None => "transition" end.

Definition effect_selected : bool :=
  match Item.effects object with
  | Some effects => existsb Effect.selected effects
  | None => false
  end.

(** [preview] is the preview container when it exists and is active. *)
Definition preview : option Preview.t :=
  match Item.keyframe_preview object with
  | Some p => if Preview.active p then Some p else None
  | None => None
  end.

Definition is_retime : bool :=
  match preview with
  | Some p => String.eqb (Preview.mode p) "retime"
  | None => false
  end.

Definition EPSILON : Q := 1 # 1000000.

Definition frameTolerance : Q :=
  if JS.gtb frames_per_second 0
  then JS.Math_max EPSILON ((1 # 2) / frames_per_second)
  else EPSILON.

Definition rawDisplayStart : Q :=
  match preview with
  | Some p => JS.toNumber (Preview.displayStart p) clip_start_sec
  | None => clip_start_sec
  end.
Definition rawDisplayEnd : Q :=
  match preview with
  | Some p => JS.toNumber (Preview.displayEnd p) clip_end_sec
  | None => clip_end_sec
  end.
(** The two are swapped when they come in the wrong order. *)
Definition previewDisplayStart : Q :=
  if JS.ltb rawDisplayEnd rawDisplayStart then rawDisplayEnd else rawDisplayStart.
Definition previewDisplayEnd : Q :=
  if JS.ltb rawDisplayEnd rawDisplayStart then rawDisplayStart else rawDisplayEnd.

Definition previewProjectedStart : Q :=
  match preview with
  | Some p => JS.toNumber (Preview.projectedStart p) clip_start_sec
  | None => clip_start_sec
  end.
Definition previewProjectedEnd : Q :=
  let e := match preview with
           | Some p => JS.toNumber (Preview.projectedEnd p) clip_end_sec
           | None => clip_end_sec
           end in
  if JS.ltb e previewProjectedStart then previewProjectedStart else e.

Definition displayDuration : Q :=
  JS.Math_max (previewDisplayEnd - previewDisplayStart) 0.
Definition projectedDuration : Q :=
  JS.Math_max (previewProjectedEnd - previewProjectedStart) 0.

Definition mapSecondsToDisplay (seconds : Q) : Q :=
  if negb is_retime then seconds
  else if negb (JS.gtb projectedDuration 0) || negb (JS.gtb displayDuration 0)
  then previewDisplayStart
  else
    let normalized := (seconds - previewProjectedStart) / projectedDuration in
    previewDisplayStart + (normalized * displayDuration).

Definition isInside (seconds start end_ : Q) : bool :=
  JS.geb seconds (start - frameTolerance) && JS.leb seconds (end_ + frameTolerance).

Definition isInsideClip (seconds : Q) : bool :=
  isInside seconds clip_start_sec clip_end_sec.

Definition isInsidePreview (seconds : Q) : bool :=
  match preview with
  | None => isInsideClip seconds
  | Some p =>
      if String.eqb (Preview.mode p) "retime"
      then isInside (mapSecondsToDisplay seconds) previewDisplayStart previewDisplayEnd
      else isInside seconds previewDisplayStart previewDisplayEnd
  end.

End GetKeyframes.

(** [storeKeyframe]: an entry already stored for the frame is replaced only
    by a selected entry when it is itself unselected. *)
Fixpoint storeKeyframe (keyframes : list (Q * KeyframeEntry.t)) (frame : Q)
    (data : KeyframeEntry.t) : list (Q * KeyframeEntry.t) :=
  match keyframes with
  | [] => [(frame, data)]
  | (f, existing) :: rest =>
      if JS.eqb f frame then
        if KeyframeEntry.selected data && negb (KeyframeEntry.selected existing)
        then (f, data) :: rest
        else keyframes
      else if JS.ltb frame f then (frame, data) :: keyframes
      else (f, existing) :: storeKeyframe rest frame data
  end.

Definition passes_filter (scope : Scope.t) (name : string) : bool :=
  negb ((0 <? String.length (Scope.keyframe_prop_filter scope))%nat
        && negb (Str.includes (Str.toLowerCase name)
                   (Str.toLowerCase (Scope.keyframe_prop_filter scope)))).

(** [v.Points && v.Points.length > 1] and [v.red && v.red.Points.length > 1]. *)
Definition animated (points : option (list Point.t)) : list Point.t :=
  match points with
  | Some l => if (1 <? List.length l)%nat then l else []
  | None => []
  end.

(** One point of a property of the clip or transition itself. *)
Definition own_point (scope : Scope.t) (object : Item.t)
    (keyframes : list (Q * KeyframeEntry.t)) (p : Point.t)
  : list (Q * KeyframeEntry.t) :=
  let includeAllKeyframes :=
    match preview object with Some _ => true | None => false end in
  let interpolation := lookupInterpolation (Point.interpolation p) in
  let keyframeSeconds := (Point.X p - 1) / frames_per_second scope in
  let withinClip := isInsideClip scope object keyframeSeconds in
  if includeAllKeyframes || withinClip then
    let insidePreview := isInsidePreview scope object keyframeSeconds in
    let baseSelected :=
      if String.eqb (object_type object) "transition" then true
      else Item.selected object && negb (effect_selected object) in
    storeKeyframe keyframes (Point.X p)
      (KeyframeEntry.mk interpolation (baseSelected && insidePreview)
         (object_type object) (Item.id object) insidePreview baseSelected)
  else keyframes.

(** One point of a property of a nested effect. *)
Definition effect_point (scope : Scope.t) (object : Item.t) (eff : Effect.t)
    (keyframes : list (Q * KeyframeEntry.t)) (p : Point.t)
  : list (Q * KeyframeEntry.t) :=
  let includeAllKeyframes :=
    match preview object with Some _ => true | None => false end in
  let einterp := lookupInterpolation (Point.interpolation p) in
  let eframe := Point.X p in
  let effectSeconds := (eframe - 1) / frames_per_second scope in
  let effectWithinClip := isInsideClip scope object effectSeconds in
  if includeAllKeyframes || effectWithinClip then
    let effectInsidePreview := isInsidePreview scope object effectSeconds in
    let effectSelected := Effect.selected eff in
    storeKeyframe keyframes eframe
      (KeyframeEntry.mk einterp (effectSelected && effectInsidePreview)
         "effect" (Effect.id eff) effectInsidePreview effectSelected)
  else keyframes.

(** The body of a [for (prop in ...)] loop: the [Points] of the property,
    then the [Points] of its [red] channel. *)
Definition prop_step (scope : Scope.t)
    (point : list (Q * KeyframeEntry.t) -> Point.t -> list (Q * KeyframeEntry.t))
    (keyframes : list (Q * KeyframeEntry.t)) (child : string * Keyframed.t)
  : list (Q * KeyframeEntry.t) :=
  if negb (passes_filter scope (fst child)) then keyframes
  else
    let keyframes := fold_left point (animated (Keyframed.Points (snd child))) keyframes in
    fold_left point (animated (Keyframed.red (snd child))) keyframes.

Definition getKeyframes (scope : Scope.t) (object : Item.t)
  : list (Q * KeyframeEntry.t) :=
  let previewActive := match preview object with Some _ => true | None => false end in
  if negb (String.eqb (object_type object) "transition")
     && negb (Item.selected object) && negb (effect_selected object)
     && negb previewActive
  then []
  else
    let keyframes :=
      fold_left (prop_step scope (own_point scope object)) (Item.props object) [] in
    match Item.effects object with
    | Some effects =>
        fold_left
          (fun keyframes eff =>
             fold_left (prop_step scope (effect_point scope object eff))
               (Effect.props eff) keyframes)
          effects keyframes
    | None => keyframes
    end.

(** ** [$scope.getNearbyPosition] (chat.js 2450-2635) *)

(** An entry of [diffs]: the signed distance and the target pixel. *)
Module Diff.
Record t : Type := mk { diff : Q; position : Q }.
End Diff.

Definition hasOwnProperty (ignore_ids : list string) (id : string) : bool :=
  existsb (String.eqb id) ignore_ids.

(** Frames per second as the function computes it: 0 when [den] is 0. *)
Definition nearby_fps (scope : Scope.t) : Q :=
  if negb (JS.eqb (Project.fps_den (Scope.project scope)) 0)
  then Project.fps_num (Scope.project scope) / Project.fps_den (Scope.project scope)
  else 0.

(** [collectKeyframes(object)]: the timeline pixel of every visible keyframe. *)
Definition collectKeyframes (scope : Scope.t) (object : Item.t) : list Q :=
  map (fun entry =>
         let frameNumber := fst entry in
         let keySeconds := (frameNumber - 1) / nearby_fps scope in
         let startSec := JS.toNumber (Some (Item.start object)) 0 in
         let positionSec := JS.toNumber (Some (Item.position object)) 0 in
         let timelineSeconds := positionSec + (keySeconds - startSec) in
         timelineSeconds * Scope.pixelsPerSecond scope)
      (getKeyframes scope object).

Definition keyframeTargets (scope : Scope.t) (includeKeyframeSnaps : bool) : list Q :=
  if includeKeyframeSnaps && JS.gtb (nearby_fps scope) 0 then
    flat_map (fun clip =>
                if Item.selected clip || hasSelectedEffect clip
                then collectKeyframes scope clip else [])
             (Project.clips (Scope.project scope))
    ++ flat_map (fun transition =>
                   if Item.selected transition
                   then collectKeyframes scope transition else [])
                (Project.effects (Scope.project scope))
  else [].

(** A target is recorded when it lies within the threshold. *)
Definition within (threshold diff position : Q) : list Diff.t :=
  if JS.leb (JS.Math_abs diff) threshold then [Diff.mk diff position] else [].

(** Left and right edge of a clip or of a transition. *)
Definition edge_diffs (scope : Scope.t) (threshold : Q) (ignore_ids : list string)
    (position : Q) (item : Item.t) : list Diff.t :=
  let left_position := Item.position item * Scope.pixelsPerSecond scope in
  let right_position :=
    (Item.position item + (Item.end_ item - Item.start item))
    * Scope.pixelsPerSecond scope in
  if hasOwnProperty ignore_ids (Item.id item) then []
  else within threshold (position - left_position) left_position
       ++ within threshold (position - right_position) right_position.

(** The entries that one pixel position appends to [diffs]. *)
Definition new_diffs (scope : Scope.t) (targets : list Q) (threshold : Q)
    (ignore_ids : list string) (includeKeyframeSnaps : bool) (position : Q)
  : list Diff.t :=
  let pps := Scope.pixelsPerSecond scope in
  flat_map (edge_diffs scope threshold ignore_ids position)
    (Project.clips (Scope.project scope))
  ++ flat_map (edge_diffs scope threshold ignore_ids position)
       (Project.effects (Scope.project scope))
  ++ flat_map (fun marker =>
                 let marker_position := Marker.position marker * pps in
                 within threshold (position - marker_position) marker_position)
       (Project.markers (Scope.project scope))
  ++ (let playhead_pixel_position :=
        Project.playhead_position (Scope.project scope) * pps in
      if negb (hasOwnProperty ignore_ids "ruler")
         && negb (hasOwnProperty ignore_ids "playhead")
      then within threshold (position - playhead_pixel_position)
             playhead_pixel_position
      else [])
  ++ (let end_of_track := Project.duration (Scope.project scope) * pps in
      [Diff.mk (position - end_of_track) end_of_track])
  ++ (if includeKeyframeSnaps
      then flat_map (fun keyTarget => within threshold (position - keyTarget) keyTarget)
             targets
      else []).

(** [smallest_diff], [smallest_abs_diff], [snapping_position]. *)
Module Nearest.
Record t : Type := mk
  { smallest_diff : Q; smallest_abs_diff : Q; snapping_position : Q }.
End Nearest.

(** Truthiness of a finite number: everything but 0. *)
Definition truthy (q : Q) : bool := negb (JS.eqb q 0).

(** Body of the winner-selection loop (chat.js 2613-2625). *)
Definition select_step (threshold : Q) (st : Nearest.t) (d : Diff.t) : Nearest.t :=
  let diff := Diff.diff d in
  let diff_position := Diff.position d in
  let abs_diff := JS.Math_abs diff in
  if JS.ltb abs_diff (Nearest.smallest_abs_diff st)
     && JS.leb abs_diff threshold && truthy diff_position
  then Nearest.mk diff abs_diff diff_position
  else st.

(** The loop over [pixel_positions]; [diffs] is never reset, so the
    selection loop of each position runs over all entries gathered so far. *)
Fixpoint positions_loop (scope : Scope.t) (targets : list Q) (threshold : Q)
    (ignore_ids : list string) (includeKeyframeSnaps : bool)
    (pixel_positions : list Q) (diffs : list Diff.t) (st : Nearest.t)
  : Nearest.t :=
  match pixel_positions with
  | [] => st
  | position :: rest =>
      let diffs :=
        diffs ++ new_diffs scope targets threshold ignore_ids
                   includeKeyframeSnaps position in
      positions_loop scope targets threshold ignore_ids includeKeyframeSnaps
        rest diffs (fold_left (select_step threshold) diffs st)
  end.

(** Every entry that the call ever pushes to [diffs]. *)
Definition all_diffs (scope : Scope.t) (targets : list Q) (threshold : Q)
    (ignore_ids : list string) (includeKeyframeSnaps : bool)
    (pixel_positions : list Q) : list Diff.t :=
  flat_map (new_diffs scope targets threshold ignore_ids includeKeyframeSnaps)
    pixel_positions.

(** The scan, given the keyframe targets. *)
Definition nearby_scan (scope : Scope.t) (targets : list Q)
    (pixel_positions : list Q) (threshold : Q) (ignore_ids : list string)
    (includeKeyframeSnaps : bool) : Q * Q :=
  let st :=
    positions_loop scope targets threshold ignore_ids includeKeyframeSnaps
      pixel_positions [] (Nearest.mk 900 900 0) in
  let smallest_diff :=
    if JS.eqb (Nearest.smallest_diff st) 900 then 0
    else Nearest.smallest_diff st in
  (smallest_diff, Nearest.snapping_position st).

(** Returns [[smallest_diff, snapping_position]]. *)
Definition getNearbyPosition (scope : Scope.t) (pixel_positions : list Q)
    (threshold : Q) (ignore_ids : list string) (includeKeyframes : bool)
  : Q * Q :=
  nearby_scan scope (keyframeTargets scope includeKeyframes)
    pixel_positions threshold ignore_ids includeKeyframes.

(** ** [$scope.selectItem] (chat.js 1557-1820) *)

(** The fields of the browser event that the selection code reads. *)
Module Event.
Record t : Type := mk
  { ctrlKey : bool; shiftKey : bool; altKey : bool; clientX : Q }.
End Event.

(** The scroll geometry that [getJavaScriptPosition] reads from the DOM. *)
Module Dom.
Record t : Type := mk
  { horz_scroll_offset : Q; scrolling_tracks_offset_left : Q }.
End Dom.

(** [$scope.getJavaScriptPosition(x, null).position] (chat.js 2053-2074). *)
Definition getJavaScriptPosition (scope : Scope.t) (dom : Dom.t) (x : Q) : Q :=
  let x := x + Dom.horz_scroll_offset dom in
  let clip_position :=
    snapToFPSGridTime scope
      (pixelToTime scope (x - Dom.scrolling_tracks_offset_left dom)) in
  if JS.ltb clip_position 0 then 0 else clip_position.

(** [if ($scope.Qt) { timeline.call(...) }]. *)
Definition when_Qt (scope : Scope.t) (c : HostCall) : list HostCall :=
  if Scope.Qt scope then [c] else [].

(** [forEach] with a body that mutates the element and calls the host. *)
Definition forEach {A : Type} (body : A -> A * list HostCall) (l : list A)
  : list A * list HostCall :=
  (map (fun x => fst (body x)) l, flat_map (fun x => snd (body x)) l).

Definition find_by_id (id : string) (l : list Item.t) : option Item.t :=
  find (fun item => String.eqb (Item.id item) id) l.

Definition find_effect (id : string) (l : list Effect.t) : option Effect.t :=
  find (fun e => String.eqb (Effect.id e) id) l.

(** The loop over the clips that looks for a nested effect with the id. *)
Fixpoint find_nested (id : string) (clips : list Item.t) : option Effect.t :=
  match clips with
  | [] => None
  | clipItem :: rest =>
      match Item.effects clipItem with
      | Some effects =>
          match find_effect id effects with
          | Some effItem => Some effItem
          | None => find_nested id rest
          end
      | None => find_nested id rest
      end
  end.

(** Writing through the reference that [find] returned: the first match. *)
Fixpoint update_first {A : Type} (test : A -> bool) (f : A -> A) (l : list A)
  : list A :=
  match l with
  | [] => []
  | x :: rest => if test x then f x :: rest else x :: update_first test f rest
  end.

Fixpoint update_nested (id : string) (f : Effect.t -> Effect.t)
    (clips : list Item.t) : list Item.t :=
  match clips with
  | [] => []
  | clipItem :: rest =>
      match Item.effects clipItem with
      | Some effects =>
          match find_effect id effects with
          | Some _ =>
              Item.set_effects
                (Some (update_first (fun e => String.eqb (Effect.id e) id) f effects))
                clipItem :: rest
          | None => clipItem :: update_nested id f rest
          end
      | None => clipItem :: update_nested id f rest
      end
  end.

(** What [lastSelectedItem] refers to in the current project. *)
Inductive LastSelected : Type :=
| LastItem (item : Item.t)        (* a clip, a transition or a global effect *)
| LastNested (eff : Effect.t)     (* an effect of a clip: it has no geometry *)
| LastGone.                       (* the object is no longer in the project *)

Definition lookup_last (p : Project.t) (ref : ItemType * string) : LastSelected :=
  match fst ref with
  | ty_clip =>
      match find_by_id (snd ref) (Project.clips p) with
      | Some i => LastItem i | None => LastGone end
  | ty_transition =>
      match find_by_id (snd ref) (Project.effects p) with
      | Some i => LastItem i | None => LastGone end
  | ty_effect =>
      match find_by_id (snd ref) (Project.effects p) with
      | Some i => LastItem i
      | None =>
          match find_nested (snd ref) (Project.clips p) with
          | Some e => LastNested e | None => LastGone end
      end
  end.

(** The lookup that ends [selectItem]: is there an object of that kind and id? *)
Definition found (p : Project.t) (item_type : ItemType) (id : string) : bool :=
  match lookup_last p (item_type, id) with
  | LastGone => false
  | _ => true
  end.

(** Clearing loops of the plain and of the range branch. *)
Definition clear_clip (scope : Scope.t) (clip : Item.t) : Item.t * list HostCall :=
  (Item.set_effects
     (option_map (map (Effect.set_selected false)) (Item.effects clip))
     (Item.set_selected false clip),
   match Item.effects clip with
   | Some effects =>
       flat_map (fun eff => when_Qt scope (removeSelection (Effect.id eff) "effect"))
         effects
   | None => []
   end
   ++ when_Qt scope (removeSelection (Item.id clip) "clip")).

Definition clear_transition (scope : Scope.t) (kind : string) (tran : Item.t)
  : Item.t * list HostCall :=
  (Item.set_selected false tran,
   when_Qt scope (removeSelection (Item.id tran) kind)).

(** Ripple selection: the items of the layer at or after the anchor. *)
Definition ripple_select (scope : Scope.t) (kind : string)
    (selected_layer : Z) (selected_position : Q) (item : Item.t)
  : Item.t * list HostCall :=
  if Z.eqb (Item.layer item) selected_layer
     && JS.geb (Item.position item) selected_position
  then (Item.set_selected true item,
        when_Qt scope (addSelection (Item.id item) kind false))
  else (item, []).

(** The "clear" loops of the ripple branch (chat.js 1659-1675): they only
    call the host, for the items that are not selected. *)
Definition ripple_clear_calls (scope : Scope.t) (clips effects : list Item.t)
  : list HostCall :=
  flat_map
    (fun clip =>
       (if negb (Item.selected clip)
        then when_Qt scope (removeSelection (Item.id clip) "clip") else [])
       ++ match Item.effects clip with
          | Some effs =>
              flat_map
                (fun eff =>
                   if negb (Effect.selected eff) && Scope.Qt scope
                   then [removeSelection (Effect.id eff) "effect"] else [])
                effs
          | None => []
          end)
    clips
  ++ flat_map
       (fun transition =>
          if negb (Item.selected transition)
          then when_Qt scope (removeSelection (Item.id transition) "transition")
          else [])
       effects.

Definition with_items (scope : Scope.t) (clips effects : list Item.t) : Scope.t :=
  Scope.set_project (Project.set_items clips effects (Scope.project scope)) scope.

(** [id === ""] with [clear_selections] (chat.js 1573-1602). *)
Definition select_clear_all (scope : Scope.t) (item_type : ItemType)
  : Scope.t * list HostCall :=
  let clips := Project.clips (Scope.project scope) in
  let effects := Project.effects (Scope.project scope) in
  match item_type with
  | ty_clip =>
      let r := forEach (fun clip =>
                          (Item.set_selected false clip,
                           when_Qt scope (removeSelection (Item.id clip) "clip")))
                 clips in
      (with_items scope (fst r) effects, snd r)
  | ty_transition =>
      let r := forEach (clear_transition scope "transition") effects in
      (with_items scope clips (fst r), snd r)
  | ty_effect =>
      let r1 := forEach (clear_transition scope "effect") effects in
      let r2 :=
        forEach (fun clip =>
                   match Item.effects clip with
                   | Some effs =>
                       (Item.set_effects
                          (Some (map (Effect.set_selected false) effs)) clip,
                        flat_map
                          (fun eff =>
                             when_Qt scope (removeSelection (Effect.id eff) "effect"))
                          effs)
                   | None => (clip, [])
                   end)
          clips in
      (with_items scope (fst r2) (fst r1), snd r1 ++ snd r2)
  end.

(** The ripple branch (chat.js 1616-1679).  For an "effect" the anchor that
    the source looks up is discarded by the test on the kind. *)
Definition select_ripple (scope : Scope.t) (item_type : ItemType) (id : string)
    (clear_selections is_ctrl : bool) : Scope.t * list HostCall :=
  let clips := Project.clips (Scope.project scope) in
  let effects := Project.effects (Scope.project scope) in
  let selected_item :=
    match item_type with
    | ty_clip => find_by_id id clips
    | ty_transition => find_by_id id effects
    | ty_effect => None
    end in
  let r :=
    match selected_item with
    | Some selected_item =>
        let selected_layer := Item.layer selected_item in
        let selected_position := Item.position selected_item in
        let rc := forEach (ripple_select scope "clip" selected_layer selected_position)
                    clips in
        let rt := forEach (ripple_select scope "transition" selected_layer
                             selected_position) effects in
        (fst rc, fst rt, snd rc ++ snd rt)
    | None => (clips, effects, [])
    end in
  let clips := fst (fst r) in
  let effects := snd (fst r) in
  (with_items scope clips effects,
   snd r ++ (if clear_selections && negb is_ctrl
             then ripple_clear_calls scope clips effects else [])).

(** Selecting what lies inside the rectangle spanned by the two anchors. *)
Definition range_select (scope : Scope.t) (kind : string)
    (minPosition maxPosition : Q) (minLayer maxLayer : Z) (item : Item.t)
  : Item.t * list HostCall :=
  let itemEnd := Item.position item + (Item.end_ item - Item.start item) in
  if JS.geb (Item.position item) minPosition && JS.leb itemEnd maxPosition
     && (minLayer <=? Item.layer item)%Z && (Item.layer item <=? maxLayer)%Z
  then (Item.set_selected true item,
        when_Qt scope (addSelection (Item.id item) kind false))
  else (item, []).

(** The SHIFT branch (chat.js 1682-1735). *)
Definition select_range (scope : Scope.t) (item_type : ItemType) (id : string)
    (clear_selections is_ctrl : bool) (last : ItemType * string)
  : Scope.t * list HostCall :=
  let rc := if clear_selections && negb is_ctrl
            then forEach (clear_clip scope) (Project.clips (Scope.project scope))
            else (Project.clips (Scope.project scope), []) in
  let rt := if clear_selections && negb is_ctrl
            then forEach (clear_transition scope "transition")
                   (Project.effects (Scope.project scope))
            else (Project.effects (Scope.project scope), []) in
  let scope1 := with_items scope (fst rc) (fst rt) in
  let selectedItem :=
    find_by_id id (match item_type with
                   | ty_clip => fst rc
                   | _ => fst rt
                   end) in
  match selectedItem, lookup_last (Scope.project scope1) last with
  | Some selectedItem, LastItem lastSelectedItem =>
      let selectedItemStart := Item.position selectedItem in
      let selectedItemEnd :=
        Item.position selectedItem
        + (Item.end_ selectedItem - Item.start selectedItem) in
      let lastSelectedItemStart := Item.position lastSelectedItem in
      let lastSelectedItemEnd :=
        Item.position lastSelectedItem
        + (Item.end_ lastSelectedItem - Item.start lastSelectedItem) in
      let minPosition := JS.Math_min selectedItemStart lastSelectedItemStart in
      let maxPosition := JS.Math_max selectedItemEnd lastSelectedItemEnd in
      let minLayer := Z.min (Item.layer lastSelectedItem) (Item.layer selectedItem) in
      let maxLayer := Z.max (Item.layer lastSelectedItem) (Item.layer selectedItem) in
      let sc := forEach (range_select scope "clip" minPosition maxPosition
                           minLayer maxLayer) (fst rc) in
      let st := forEach (range_select scope "transition" minPosition maxPosition
                           minLayer maxLayer) (fst rt) in
      (with_items scope (fst sc) (fst st), snd rc ++ snd rt ++ snd sc ++ snd st)
  | _, _ => (scope1, snd rc ++ snd rt)
  end.

(** The plain branch (chat.js 1736-1793). *)
Definition select_plain (scope : Scope.t) (item_type : ItemType) (id : string)
    (clear_selections is_ctrl : bool) : Scope.t * list HostCall :=
  let clearing := clear_selections && negb is_ctrl in
  let rc := if clearing
            then forEach (clear_clip scope) (Project.clips (Scope.project scope))
            else (Project.clips (Scope.project scope), []) in
  let rt := if clearing
            then forEach (clear_transition scope "transition")
                   (Project.effects (Scope.project scope))
            else (Project.effects (Scope.project scope), []) in
  let re := if clearing
            then forEach (clear_transition scope "effect") (fst rt)
            else (fst rt, []) in
  let clips := fst rc in
  let effects := fst re in
  let cleared := snd rc ++ snd rt ++ snd re in
  let kind := type_name item_type in
  (* invert the selection if CTRL is pressed and the item is selected *)
  let invert (was_selected : bool) := is_ctrl && clear_selections && was_selected in
  let call (item_id : string) (was_selected : bool) :=
    when_Qt scope (if invert was_selected then removeSelection item_id kind
                   else addSelection item_id kind false) in
  let has_id (item : Item.t) := String.eqb (Item.id item) id in
  let flip (item : Item.t) :=
    Item.set_selected (negb (invert (Item.selected item))) item in
  let in_effects :=
    match find_by_id id effects with
    | Some item =>
        Some (with_items scope clips (update_first has_id flip effects),
              cleared ++ call (Item.id item) (Item.selected item))
    | None => None
    end in
  match item_type with
  | ty_clip =>
      match find_by_id id clips with
      | Some item =>
          (with_items scope (update_first has_id flip clips) effects,
           cleared ++ call (Item.id item) (Item.selected item))
      | None => (with_items scope clips effects, cleared)
      end
  | ty_transition =>
      match in_effects with
      | Some r => r
      | None => (with_items scope clips effects, cleared)
      end
  | ty_effect =>
      match in_effects with
      | Some r => r
      | None =>
          match find_nested id clips with
          | Some eff =>
              (with_items scope
                 (update_nested id
                    (fun e => Effect.set_selected (negb (invert (Effect.selected e))) e)
                    clips)
                 effects,
               cleared ++ call (Effect.id eff) (Effect.selected eff))
          | None => (with_items scope clips effects, cleared)
          end
      end
  end.

(** [selectItem(item_id, item_type, clear_selections, event, force_ripple)].
    [event = None] is a call without an event.  The result is the new scope
    and the host calls, in the order in which they are made. *)
Definition selectItem (scope : Scope.t) (dom : Dom.t) (item_id : string)
    (item_type : ItemType) (clear_selections : bool) (event : option Event.t)
    (force_ripple : bool) : Scope.t * list HostCall :=
  if Scope.dragging scope then
    (scope, [qt_log "DEBUG" "Skip selection due to dragging..."])
  else
    let id := Str.remove_first item_id (String.append (type_name item_type) "_") in
    let is_ctrl := match event with Some e => Event.ctrlKey e | None => false end in
    let is_shift := match event with Some e => Event.shiftKey e | None => false end in
    let is_alt := match event with Some e => Event.altKey e | None => false end in
    if String.eqb id "" then
      if clear_selections then select_clear_all scope item_type else (scope, [])
    else
      match (if Scope.enable_razor scope && Scope.Qt scope then event else None) with
      | Some e =>
          let cursor_seconds := getJavaScriptPosition scope dom (Event.clientX e) in
          (scope,
           [RazorSliceAtCursor
              (match item_type with ty_clip => id | _ => "" end)
              (match item_type with ty_transition => id | _ => "" end)
              cursor_seconds])
      | None =>
          if is_alt || force_ripple then
            (* lastSelectedItem is not updated *)
            select_ripple scope item_type id clear_selections is_ctrl
          else
            let r :=
              match (if is_shift then Scope.lastSelectedItem scope else None),
                    item_type with
              | Some last, ty_clip | Some last, ty_transition =>
                  select_range scope item_type id clear_selections is_ctrl last
              | _, _ => select_plain scope item_type id clear_selections is_ctrl
              end in
            (Scope.set_lastSelectedItem
               (if found (Scope.project (fst r)) item_type id
                then Some (item_type, id) else None)
               (fst r),
             snd r)
      end.

End Controller.

(* ================================================================== *)
(** * The clip directive ([tlClip], clip.js) *)
(* ================================================================== *)

Module ClipDirective.

(** ** [resampleWaveform] (clip.js 60-89)

    [data] is an array of samples; a sample that fails [isFinite] is
    [JS.NonFinite].  The result [None] is [null]. *)
Definition finite_or (v : JS.jsnum) (fallback : Q) : Q :=
  match v with JS.Finite q => q | JS.NonFinite => fallback end.

(** The body of the interpolation loop, for index [i]. *)
Definition resample_at (data : list JS.jsnum) (newLength : nat) (i : nat) : JS.jsnum :=
  let maxSourceIndex := (List.length data - 1)%nat in
  let t := if Nat.eqb newLength 1 then 0
           else inject_Z (Z.of_nat i) / inject_Z (Z.of_nat (newLength - 1)) in
  let sourcePos := t * inject_Z (Z.of_nat maxSourceIndex) in
  let idx0 := Z.to_nat (JS.Math_floor sourcePos) in
  let idx1 := Nat.min maxSourceIndex (idx0 + 1) in
  let frac := sourcePos - inject_Z (Z.of_nat idx0) in
  let value0 := finite_or (nth idx0 data JS.NonFinite) 0 in
  let value1 := finite_or (nth idx1 data JS.NonFinite) value0 in
  JS.Finite (value0 + (value1 - value0) * frac).

Definition resampleWaveform (data : list JS.jsnum)
    (originalDuration newDuration : JS.jsnum) : option (list JS.jsnum) :=
  match data with
  | [] => None
  | first :: _ =>
      match originalDuration, newDuration with
      | JS.Finite originalDuration, JS.Finite newDuration =>
          if JS.leb originalDuration 0 || JS.leb newDuration 0 then None
          else if Nat.eqb (List.length data) 1 then Some [first]
          else
            let newLength :=
              Z.to_nat
                (Z.max 1
                   (JS.Math_round
                      (inject_Z (Z.of_nat (List.length data))
                       * (newDuration / originalDuration)))) in
            if Nat.eqb newLength (List.length data) then Some data
            else Some (map (resample_at data newLength) (seq 0 newLength))
      | _, _ => None
      end
  end.

(** Which handle is dragged ([dragLoc]). *)
Inductive DragLoc : Type := drag_left | drag_right.

(** What the resize [start] handler captures in timing mode. *)
Module Timing.
Record t : Type := mk
  { timing_original_start : Q;
    timing_original_end : Q;
    timing_original_audio : option (list JS.jsnum);
    timing_original_duration : Q }.
End Timing.

Section Clip.

(** The directive's scope: the controller scope and [scope.clip]. *)
Variable scope : Scope.t.
Variable clip : Item.t.

Definition snapTime (value : Q) : Q := Controller.snapToFPSGridTime scope value.

(** [getTimePoints]: the [Points] of the [time] property, or [[]]. *)
Definition getTimePoints : list Point.t :=
  match find (fun kv => String.eqb (fst kv) "time") (Item.props clip) with
  | Some kv =>
      match Keyframed.Points (snd kv) with Some points => points | None => [] end
  | None => []
  end.

Definition hasTimeKeyframes : bool := (2 <=? List.length getTimePoints)%nat.

Definition isSingleImageClip : bool :=
  if Item.has_single_image clip then true
  else if String.eqb (Str.toLowerCase (Item.media_type clip)) "image" then true
  else if Reader.has_single_image (Item.reader clip) then true
  else String.eqb (Str.toLowerCase (Reader.media_type (Item.reader clip))) "image".

(** [getReaderDurationSeconds] (clip.js 390-416). *)
Definition getReaderDurationSeconds : Q :=
  let reader := Item.reader clip in
  let from_reader :=
    match Reader.duration reader with
    | Some duration => if JS.gtb duration 0 then Some duration else None
    | None => None
    end in
  let from_length :=
    match Reader.video_length reader, Reader.fps_num reader, Reader.fps_den reader with
    | Some videoLength, Some fpsNum, Some fpsDen =>
        if negb (JS.eqb fpsDen 0) && JS.gtb (fpsNum / fpsDen) 0
        then Some (videoLength / (fpsNum / fpsDen)) else None
    | _, _, _ => None
    end in
  let from_clip :=
    match Item.duration clip with
    | Some clipDuration => if JS.gtb clipDuration 0 then Some clipDuration else None
    | None => None
    end in
  match from_reader, from_length, from_clip with
  | Some duration, _, _ => duration
  | None, Some duration, _ => duration
  | None, None, Some clipDuration => clipDuration
  | None, None, None => JS.Math_max (Item.end_ clip - Item.start clip) 0
  end.

(** [getRetimedDurationSeconds] (clip.js 444-486): the frame span of the
    [time] curve, in seconds.  [None] is [null]. *)
Definition frame_span (points : list Point.t) : option (Q * Q) :=
  fold_left
    (fun acc point =>
       let frame := Point.X point in
       match acc with
       | None => Some (frame, frame)
       | Some (minFrame, maxFrame) =>
           Some (if JS.ltb frame minFrame then frame else minFrame,
                 if JS.gtb frame maxFrame then frame else maxFrame)
       end)
    points None.

Definition getRetimedDurationSeconds : option Q :=
  if negb hasTimeKeyframes then None
  else
    let fpsNum := Project.fps_num (Scope.project scope) in
    let fpsDen := Project.fps_den (Scope.project scope) in
    if JS.eqb fpsDen 0 then None
    else
      let fpsValue := fpsNum / fpsDen in
      if JS.leb fpsValue 0 then None
      else
        match frame_span getTimePoints with
        | None => None
        | Some (minFrame, maxFrame) =>
            if JS.leb maxFrame minFrame then None
            else Some ((maxFrame - minFrame) / fpsValue)
        end.

Definition isResizeConstrained : bool :=
  negb (Scope.enable_timing scope) && negb isSingleImageClip.

(** [getMaxDurationSeconds] (clip.js 422-434); [None] means no limit. *)
Definition getMaxDurationSeconds : option Q :=
  if Scope.enable_timing scope then None
  else
    match getRetimedDurationSeconds with
    | Some retimed => Some retimed
    | None =>
        if negb isResizeConstrained then None
        else Some getReaderDurationSeconds
    end.

(** [getMaxClipEndSeconds] (clip.js 436-442). *)
Definition getMaxClipEndSeconds : option Q :=
  match getMaxDurationSeconds with
  | Some maxDuration => Some (JS.toNumber (Some (Item.start clip)) 0 + maxDuration)
  | None => None
  end.

(** ** The [stop] handler of [element.resizable] (clip.js 560-705) *)

(** [delta_time] (clip.js 566-590) from the pixel position that
    [moveBoundingBox] reports for the cursor. *)
Definition delta_time_of (dragLoc : DragLoc) (new_position_px : Q) : Q :=
  let original_left_edge := Item.position clip * Scope.pixelsPerSecond scope in
  let original_right_edge :=
    original_left_edge
    + ((Item.end_ clip - Item.start clip) * Scope.pixelsPerSecond scope) in
  let delta_x :=
    match dragLoc with
    | drag_left => original_left_edge - new_position_px
    | drag_right => original_right_edge - new_position_px
    end in
  delta_x / Scope.pixelsPerSecond scope.

(** The new [(new_position, new_left, new_right)] (clip.js 592-639). *)
Definition resize_edges (dragLoc : DragLoc) (delta_time : Q) : Q * Q * Q :=
  let new_position := Item.position clip in
  let new_left := Item.start clip in
  let new_right := Item.end_ clip in
  let maxClipEndSeconds := getMaxClipEndSeconds in
  let singleImageClip := isSingleImageClip in
  let allowLeftOverflow := Scope.enable_timing scope || singleImageClip in
  match dragLoc with
  | drag_left =>
      (* changing the start of the clip *)
      let targetStart := new_left - delta_time in
      let overflow := if JS.ltb targetStart 0 then - targetStart else 0 in
      let targetStart := if JS.ltb targetStart 0 then 0 else targetStart in
      if JS.geb targetStart new_right then
        (* prevent resizing past right edge *)
        let targetStart := new_right in
        (new_position, targetStart,
         if JS.gtb overflow 0 && allowLeftOverflow then new_right + overflow
         else new_right)
      else
        let positionShift :=
          if JS.gtb overflow 0 && negb allowLeftOverflow
          then Item.start clip else delta_time in
        (new_position - positionShift, targetStart,
         if JS.gtb overflow 0 && allowLeftOverflow then new_right + overflow
         else new_right)
  | drag_right =>
      (* changing the end of the clip *)
      let new_right := new_right - delta_time in
      (new_position, new_left,
       match maxClipEndSeconds with
       | Some maxClipEndSeconds =>
           if JS.gtb new_right maxClipEndSeconds then maxClipEndSeconds
           else if JS.ltb new_right new_left then new_left
           else new_right
       | None =>
           if JS.ltb new_right new_left then new_left else new_right
       end)
  end.

(** The commit in trim mode (clip.js 671-693). *)
Definition commit_trim (new_position new_left new_right : Q)
  : Item.t * list HostCall :=
  let end_ := if JS.neqb (Item.end_ clip) new_right
              then snapTime new_right else Item.end_ clip in
  let snappedStart := snapTime new_left in
  let snappedPosition := snapTime new_position in
  let start := if JS.neqb (Item.start clip) snappedStart
               then snappedStart else Item.start clip in
  let position := if JS.neqb (Item.position clip) snappedPosition
                  then snappedPosition else Item.position clip in
  let clip' := Item.set_timing position start end_ clip in
  (clip', Controller.when_Qt scope (update_clip_data clip' true true false None)).

(** The commit in timing mode (clip.js 644-670). *)
Definition commit_retime (timing : Timing.t) (new_position new_left new_right : Q)
  : Item.t * list HostCall :=
  let duration_sec := snapTime new_right - snapTime new_left in
  let position_sec := snapTime new_position in
  let start := Timing.timing_original_start timing in
  let end_ := snapTime (Timing.timing_original_start timing + duration_sec) in
  let clip' := Item.set_timing position_sec start end_ clip in
  let calls := Controller.when_Qt scope (RetimeClip (Item.id clip') end_ position_sec) in
  match Timing.timing_original_audio timing with
  | Some audio =>
      if JS.gtb (Timing.timing_original_duration timing) 0 then
        let newDuration := JS.Math_max (end_ - start) 0 in
        match resampleWaveform audio
                (JS.Finite (Timing.timing_original_duration timing))
                (JS.Finite newDuration) with
        | Some resampled => (Item.set_audio_data (Some resampled) clip', calls)
        | None => (clip', calls)
        end
      else (clip', calls)
  | None => (clip', calls)
  end.

(** The handler: the clip afterwards and the host calls. *)
Definition resize_stop (resize_disabled : bool) (timing : Timing.t)
    (dragLoc : DragLoc) (new_position_px : Q) : Item.t * list HostCall :=
  if resize_disabled then (clip, [])
  else
    let delta_time := delta_time_of dragLoc new_position_px in
    match resize_edges dragLoc delta_time with
    | (new_position, new_left, new_right) =>
        if Scope.enable_timing scope
        then commit_retime timing new_position new_left new_right
        else commit_trim new_position new_left new_right
    end.

(** ** [renderKeyframePreview] (clip.js 208-291)

    The DOM is the list of the [data-point] frames of the keyframe icons;
    the result is the [left] offset written to each icon, in pixels.
    [None]: the preview is not active and the captured offsets are put back. *)
Section Render.

Variable preview : Preview.t.

Definition pxPerSecond : Q :=
  let pxPerSecond :=
    JS.toNumber (Preview.pixelsPerSecond preview)
      (JS.toNumber (Some (Scope.pixelsPerSecond scope)) 1) in
  if JS.leb pxPerSecond 0 then 1 else pxPerSecond.

Definition render_fps : Q :=
  let fps_num := JS.toNumber (Some (Project.fps_num (Scope.project scope))) 0 in
  let fps_den := JS.toNumber (Some (Project.fps_den (Scope.project scope))) 1 in
  let frames_per_second := if negb (JS.eqb fps_den 0) then fps_num / fps_den else 0 in
  if JS.leb frames_per_second 0 then 1 else frames_per_second.

Definition render_displayStart : Q :=
  JS.toNumber (Preview.displayStart preview) (JS.toNumber (Some (Item.start clip)) 0).
Definition render_displayEnd : Q :=
  let displayEnd := JS.toNumber (Preview.displayEnd preview) render_displayStart in
  if JS.ltb displayEnd render_displayStart then render_displayStart else displayEnd.
Definition render_displayDuration : Q :=
  JS.Math_max (render_displayEnd - render_displayStart) 0.

Definition render_originalStart : Q :=
  JS.toNumber (Preview.originalStart preview) (JS.toNumber (Some (Item.start clip)) 0).
Definition render_originalEnd : Q :=
  let originalEnd := JS.toNumber (Preview.originalEnd preview) render_originalStart in
  if JS.ltb originalEnd render_originalStart then render_originalStart else originalEnd.
Definition render_originalDuration : Q :=
  JS.Math_max (render_originalEnd - render_originalStart) 0.

Definition hasRetimeMapping : bool :=
  String.eqb (Preview.mode preview) "retime"
  && JS.gtb render_originalDuration 0 && JS.gtb render_displayDuration 0.

(** [mappedSeconds] of the icon whose [data-point] is [frameValue]. *)
Definition render_mappedSeconds (frameValue : Q) : Q :=
  let frameSeconds := (frameValue - 1) / render_fps in
  if hasRetimeMapping then
    let normalized := (frameSeconds - render_originalStart) / render_originalDuration in
    render_displayStart + (normalized * render_displayDuration)
  else frameSeconds.

Definition render_left (frameValue : Q) : Z :=
  let relativeSeconds := render_mappedSeconds frameValue - render_displayStart in
  JS.Math_round (relativeSeconds * pxPerSecond).

End Render.

Definition renderKeyframePreview (points : list Q) : option (list Z) :=
  match Item.keyframe_preview clip with
  | Some preview =>
      if Preview.active preview then Some (map (render_left preview) points)
      else None
  | None => None
  end.

End Clip.
End ClipDirective.

(** ** [resampleWaveform] (clip.js 60-89) in double arithmetic

    The length of the result and the place of every sample depend on how
    the quotient of the durations and the products are rounded, so here
    every operation is rounded to a double.  The samples and the durations
    are the numbers that the function is handed; array lengths and indices
    are integers.  The result [None] is [null].
    [ClipDirective.resampleWaveform] above is the same function with exact
    quotients and products, as the resize handler of the clip carries it. *)
Module Waveform.

Definition finite_or (v : JS.jsnum) (fallback : Q) : Q :=
  match v with JS.Finite q => q | JS.NonFinite => fallback end.

(** The body of the interpolation loop, for index [i]. *)
Definition resample_at (data : list JS.jsnum) (newLength : nat) (i : nat) : JS.jsnum :=
  let maxSourceIndex := (List.length data - 1)%nat in
  let t := if Nat.eqb newLength 1 then 0
           else Double.div (inject_Z (Z.of_nat i))
                  (inject_Z (Z.of_nat (newLength - 1))) in
  let sourcePos := Double.mul t (inject_Z (Z.of_nat maxSourceIndex)) in
  let idx0 := Z.to_nat (JS.Math_floor sourcePos) in
  let idx1 := Nat.min maxSourceIndex (idx0 + 1) in
  let frac := Double.sub sourcePos (inject_Z (Z.of_nat idx0)) in
  let value0 := finite_or (nth idx0 data JS.NonFinite) 0 in
  let value1 := finite_or (nth idx1 data JS.NonFinite) value0 in
  JS.Finite (Double.add value0 (Double.mul (Double.sub value1 value0) frac)).

Definition resampleWaveform (data : list JS.jsnum)
    (originalDuration newDuration : JS.jsnum) : option (list JS.jsnum) :=
  match data with
  | [] => None
  | first :: _ =>
      match originalDuration, newDuration with
      | JS.Finite originalDuration, JS.Finite newDuration =>
          if JS.leb originalDuration 0 || JS.leb newDuration 0 then None
          else if Nat.eqb (List.length data) 1 then Some [first]
          else
            let newLength :=
              Z.to_nat
                (Z.max 1
                   (JS.Math_round
                      (Double.mul (inject_Z (Z.of_nat (List.length data)))
                         (Double.div newDuration originalDuration)))) in
            if Nat.eqb newLength (List.length data) then Some data
            else Some (map (resample_at data newLength) (seq 0 newLength))
      | _, _ => None
      end
  end.

End Waveform.

(* ================================================================== *)
(** * The keyframe directive ([tlKeyframe]) *)
(* ================================================================== *)

Module KeyframeDirective.

(** [$scope.moveKeyframes(object, old_frame, new_frame)] (chat.js 1174-1210):
    every point at [old_frame], in every property and colour channel of the
    object and of its effects, moves to [new_frame]. *)
Definition move_point (old_frame new_frame : Q) (p : Point.t) : Point.t :=
  if JS.eqb (Point.X p) old_frame then Point.set_X new_frame p else p.

(** [update(obj)] on one property.  Its [Points] move.  When [obj.red] has
    [Points], the channels [red], [green] and [blue] are walked by name, and
    [obj[color].Points.forEach] raises a TypeError ([None]) for a channel
    that is missing or has no [Points].  The walk over the own properties
    that follows reaches every channel that has [Points], so a channel also
    moves when [red] has none. *)
Definition move_keyframed (old_frame new_frame : Q) (k : Keyframed.t)
  : option Keyframed.t :=
  let move := option_map (map (move_point old_frame new_frame)) in
  let moved :=
    Keyframed.mk (move (Keyframed.Points k)) (move (Keyframed.red k))
      (move (Keyframed.green k)) (move (Keyframed.blue k)) in
  match Keyframed.red k with
  | Some _ =>
      match Keyframed.green k, Keyframed.blue k with
      | Some _, Some _ => Some moved
      | _, _ => None
      end
  | None => Some moved
  end.

(** The properties of one object, in order; the first TypeError ends the
    walk. *)
Fixpoint move_props (old_frame new_frame : Q) (props : list (string * Keyframed.t))
  : option (list (string * Keyframed.t)) :=
  match props with
  | [] => Some []
  | (name, k) :: rest =>
      match move_keyframed old_frame new_frame k with
      | Some k' =>
          match move_props old_frame new_frame rest with
          | Some rest' => Some ((name, k') :: rest')
          | None => None
          end
      | None => None
      end
  end.

Fixpoint move_effects (old_frame new_frame : Q) (effects : list Effect.t)
  : option (list Effect.t) :=
  match effects with
  | [] => Some []
  | e :: rest =>
      match move_props old_frame new_frame (Effect.props e) with
      | Some ps =>
          match move_effects old_frame new_frame rest with
          | Some rest' => Some (Effect.set_props ps e :: rest')
          | None => None
          end
      | None => None
      end
  end.

(** [None] is the TypeError; the object handed in is a copy, so nothing of
    a walk that was cut short is seen. *)
Definition moveKeyframes (object : Item.t) (old_frame new_frame : Q) : option Item.t :=
  match move_props old_frame new_frame (Item.props object) with
  | Some props =>
      match Item.effects object with
      | Some effects =>
          match move_effects old_frame new_frame effects with
          | Some effects' =>
              Some (Item.set_effects (Some effects') (Item.set_props props object))
          | None => None
          end
      | None => Some (Item.set_effects None (Item.set_props props object))
      end
  | None => None
  end.

(** [{start, end}] as returned by [getBounds]. *)
Module Bounds.
Record t : Type := mk { start : Q; end_ : Q }.
End Bounds.

(** The directive computes with doubles throughout: seconds, the frame rate
    and pixels are rounded after every operation, and frame numbers are
    taken with [Math.floor] from the rounded products. *)
Section Directive.

Variable scope : Scope.t.
(** [attrs.objectType] and [attrs.objectId]. *)
Variable objType : string.
Variable objId : string.

(** [var fps = scope.project.fps.num / scope.project.fps.den]. *)
Definition fps : Q :=
  Double.div (Double.num (Project.fps_num (Scope.project scope)))
    (Double.num (Project.fps_den (Scope.project scope))).

(** Modelled from the spec: [snapToFPSGridTime], a global helper whose
    definition is not among the sources.  Section 4.1:
    [snapToFPSGridTime(t) = round(t * num / den) * den / num], evaluated from
    left to right as [previewClipFrame] (chat.js 877) writes the same
    formula. *)
Definition snapToFPSGridTime (t : Q) : Q :=
  let fps_num := Double.num (Project.fps_num (Scope.project scope)) in
  let fps_den := Double.num (Project.fps_den (Scope.project scope)) in
  Double.div
    (Double.mul
       (inject_Z (JS.Math_round (Double.div (Double.mul t fps_num) fps_den)))
       fps_den)
    fps_num.

(** Modelled from the spec: [pixelToTime], a global helper whose definition
    is not among the sources.  Section 4.1:
    [pixelToTime(px) = px / pixelsPerSecond]. *)
Definition pixelToTime (px : Q) : Q :=
  Double.div px (Double.num (Scope.pixelsPerSecond scope)).

(** [locateObject]: [findElement] over the clips or over the transitions. *)
Definition locateObject : option Item.t :=
  if String.eqb objType "clip"
  then Controller.find_by_id objId (Project.clips (Scope.project scope))
  else Controller.find_by_id objId (Project.effects (Scope.project scope)).

(** [getBounds] (lines 31-44): both ends snapped, and ordered. *)
Definition getBounds (object : Item.t) : Bounds.t :=
  let start := JS.toNumber (Some (Double.num (Item.start object))) 0 in
  let end_ := Double.num (Item.end_ object) in
  let start := snapToFPSGridTime start in
  let end_ := snapToFPSGridTime end_ in
  if JS.ltb end_ start then Bounds.mk end_ start else Bounds.mk start end_.

(** Right edge must be exclusive: last valid time is end - (1/fps). *)
Definition exclusiveMaxSec (bounds : Bounds.t) : Q :=
  Double.sub (Bounds.end_ bounds) (Double.div 1 fps).

(** Clamp to [start, end-1/fps], snap to grid, clamp again. *)
Definition snapClampExclusive (secs : Q) (bounds : Bounds.t) : Q :=
  let secs := if JS.ltb secs (Bounds.start bounds) then Bounds.start bounds else secs in
  let maxSec := exclusiveMaxSec bounds in
  let secs := if JS.gtb secs maxSec then maxSec else secs in
  let secs := snapToFPSGridTime secs in
  let secs := if JS.gtb secs maxSec then maxSec else secs in
  let secs := if JS.ltb secs (Bounds.start bounds) then Bounds.start bounds else secs in
  secs.

Definition secondsToPixels (object : Item.t) (seconds : Q) : Q :=
  let start := JS.toNumber (Some (Double.num (Item.start object))) 0 in
  Double.mul (Double.sub seconds start) (Double.num (Scope.pixelsPerSecond scope)).

(** Convert seconds -> frame index; end is inclusive at floor(end*fps). *)
Definition secondsToFrame (secs : Q) (bounds : Bounds.t) : Z :=
  let startFrame := (JS.Math_floor (Double.mul (Bounds.start bounds) fps) + 1)%Z in
  let endFrame := JS.Math_floor (Double.mul (Bounds.end_ bounds) fps) in
  let f := (JS.Math_floor (Double.mul secs fps) + 1)%Z in
  let f := if (f <? startFrame)%Z then startFrame else f in
  let f := if (endFrame <? f)%Z then endFrame else f in
  f.

Definition pushKeyframeChange (copy : Item.t) (ignoreRefresh : bool)
    (transactionId : option string) : list HostCall :=
  if String.eqb objType "clip"
  then [update_clip_data copy false (* allow keyframes *) true (* force JSON diff *)
          ignoreRefresh transactionId]
  else [update_transition_data copy false ignoreRefresh transactionId].

(** The time proposed for the helper's [left] offset, snapped and clamped
    (lines 180-186). *)
Definition proposedSeconds (obj : Item.t) (left : Q) : Q :=
  let left := Double.num left in
  let start := JS.toNumber (Some (Double.num (Item.start obj))) 0 in
  let bounds := getBounds obj in
  let secs := Double.add (pixelToTime left) start in
  snapClampExclusive secs bounds.

(** The frame proposed for the helper's [left] offset (lines 180-194). *)
Definition proposedFrame (obj : Item.t) (left : Q) : Z :=
  secondsToFrame (proposedSeconds obj left) (getBounds obj).

(** The [stop] handler of the draggable (lines 171-208).  [currentFrame] and
    [transactionId] are the directive's variables; [left] is
    [ui.position.left].  The result is the new [currentFrame], the scope
    (with [dragging] reset), the host calls, and how the handler ended. *)
Definition stop (currentFrame : Z) (transactionId : option string) (left : Q)
  : Z * Scope.t * list HostCall * Completion :=
  let scope' := Scope.set_dragging false scope in
  match locateObject with
  | None => (currentFrame, scope', [], Returned)
  | Some obj =>
      let newFrame := proposedFrame obj left in
      if negb (Z.eqb newFrame currentFrame) then
        match moveKeyframes obj (inject_Z currentFrame) (inject_Z newFrame) with
        | Some copy =>
            (newFrame, scope',
             pushKeyframeChange copy false transactionId     (* commit once *)
             ++ Controller.when_Qt scope (FinalizeKeyframeDrag objType objId),
             Returned)
        | None => (currentFrame, scope', [], Threw)   (* the TypeError *)
        end
      else
        (currentFrame, scope',
         Controller.when_Qt scope (FinalizeKeyframeDrag objType objId), Returned)
  end.

End Directive.
End KeyframeDirective.

(* ================================================================== *)
(** * [$scope.applyJsonDiff] (chat.js 2740-2852) *)
(* ================================================================== *)

(** The diff engine walks the project as an untyped tree, so here the
    project is a JSON value.  Objects are reached through references in the
    source; a reference is embedded as the path from the project root. *)
Module JsonDiff.

#[local] Set Warnings "-register-all".

Inductive json : Type :=
| JNull
| JBool (b : bool)
| JNum (q : Q)
| JStr (s : string)
| JArr (items : list json)
| JObj (fields : list (string * json)).

(** A level of [action.key]: a property name or a selector [{id: ...}]
    ([KSel None] is a selector without [id]). *)
Inductive KeyPart : Type :=
| KName (name : string)
| KSel (id : option json).

Inductive ActionType : Type := insert | update | delete | other_type.

Module Action.
Record t : Type := mk { type : ActionType; key : list KeyPart; value : json }.
End Action.

Inductive Step : Type := SKey (k : string) | SIdx (i : nat).

Fixpoint lookup_field (k : string) (fields : list (string * json)) : option json :=
  match fields with
  | [] => None
  | (k', v) :: rest => if String.eqb k' k then Some v else lookup_field k rest
  end.

(** [obj[k] = v] on an object: the slot is replaced, or added at the end. *)
Fixpoint set_field (k : string) (v : json) (fields : list (string * json))
  : list (string * json) :=
  match fields with
  | [] => [(k, v)]
  | (k', v') :: rest =>
      if String.eqb k' k then (k', v) :: rest else (k', v') :: set_field k v rest
  end.

(** [delete obj[k]]. *)
Fixpoint delete_field (k : string) (fields : list (string * json))
  : list (string * json) :=
  match fields with
  | [] => []
  | (k', v') :: rest =>
      if String.eqb k' k then rest else (k', v') :: delete_field k rest
  end.

(** [arr[i] = v]: past the end the array grows, the gap being holes. *)
Fixpoint set_index (i : nat) (v : json) (items : list json) : list json :=
  match i, items with
  | O, [] => [v]
  | O, _ :: rest => v :: rest
  | S i', [] => JNull :: set_index i' v []
  | S i', x :: rest => x :: set_index i' v rest
  end.

(** [arr.splice(i, 1)]. *)
Fixpoint splice1 (i : nat) (items : list json) : list json :=
  match i, items with
  | _, [] => []
  | O, _ :: rest => rest
  | S i', x :: rest => x :: splice1 i' rest
  end.

Fixpoint get (path : list Step) (j : json) : option json :=
  match path with
  | [] => Some j
  | SKey k :: rest =>
      match j with
      | JObj fields =>
          match lookup_field k fields with
          | Some v => get rest v
          | None => None
          end
      | _ => None
      end
  | SIdx i :: rest =>
      match j with
      | JArr items =>
          match nth_error items i with
          | Some v => get rest v
          | None => None
          end
      | _ => None
      end
  end.

Fixpoint map_field (k : string) (f : json -> json) (fields : list (string * json))
  : list (string * json) :=
  match fields with
  | [] => []
  | (k', v) :: rest =>
      if String.eqb k' k then (k', f v) :: rest else (k', v) :: map_field k f rest
  end.

Fixpoint map_index (i : nat) (f : json -> json) (items : list json) : list json :=
  match i, items with
  | _, [] => []
  | O, x :: rest => f x :: rest
  | S i', x :: rest => x :: map_index i' f rest
  end.

(** Mutating the object behind a reference. *)
Fixpoint modify (path : list Step) (f : json -> json) (j : json) : json :=
  match path with
  | [] => f j
  | SKey k :: rest =>
      match j with
      | JObj fields => JObj (map_field k (modify rest f) fields)
      | _ => j
      end
  | SIdx i :: rest =>
      match j with
      | JArr items => JArr (map_index i (modify rest f) items)
      | _ => j
      end
  end.

(** [===] between an [id] of the tree and the [id] of a selector: by value
    on primitives; two distinct objects are never identical. *)
Definition strict_eq (a b : json) : bool :=
  match a, b with
  | JNull, JNull => true
  | JBool x, JBool y => Bool.eqb x y
  | JNum x, JNum y => JS.eqb x y
  | JStr x, JStr y => String.eqb x y
  | _, _ => false
  end.

(** The scan for the child with the id: its index, if any. *)
Fixpoint find_child (id : json) (items : list json) : option nat :=
  match items with
  | [] => None
  | child_object :: rest =>
      let hit := match child_object with
                 | JObj fields =>
                     match lookup_field "id" fields with
                     | Some v => strict_eq v id
                     | None => false
                     end
                 | _ => false
                 end in
      if hit then Some O
      else match find_child id rest with
           | Some i => Some (S i)
           | None => None
           end
  end.

(** The variables of the walk over the key levels.  [previous_object] and
    [current_object] are references, hence paths; [None] is [null]. *)
Module Walk.
Record t : Type := mk
  { previous_object : option (list Step);
    current_object : list Step;
    current_position : nat;
    current_key : string }.
End Walk.

(** One level of the key (chat.js 2750-2789).  A property name that the
    current object does not own leaves every variable as it is: the
    [continue] goes on with the next level.  Property names are looked up
    in objects only. *)
Definition walk_step (project : json) (w : Walk.t) (key_value : KeyPart) : Walk.t :=
  match key_value, get (Walk.current_object w) project with
  | KName key_value, Some (JObj fields) =>
      match lookup_field key_value fields with
      | None => w                                             (* continue *)
      | Some _ =>
          Walk.mk (Some (Walk.current_object w))
            (Walk.current_object w ++ [SKey key_value])
            (Walk.current_position w) key_value
      end
  | KName _, _ => w
  | KSel id, Some (JArr items) =>
      let id := match id with Some v => v | None => JNull end in
      match find_child id items with
      | Some child_index =>
          Walk.mk (Some (Walk.current_object w))
            (Walk.current_object w ++ [SIdx child_index])
            child_index (Walk.current_key w)
      | None =>
          Walk.mk (Walk.previous_object w) (Walk.current_object w)
            (List.length items) (Walk.current_key w)
      end
  | KSel _, _ => w
  end.

Definition walk (project : json) (key : list KeyPart) : Walk.t :=
  fold_left (walk_step project) key (Walk.mk None [] 0 "").

(** Truthiness, for [if (current_object)]. *)
Definition truthy (j : json) : bool :=
  match j with
  | JNull => false
  | JBool b => b
  | JNum q => negb (JS.eqb q 0)
  | JStr s => negb (String.eqb s "")
  | JArr _ | JObj _ => true
  end.

(** "replace the entire value": [previous_object[current_position] = value]
    or [previous_object[current_key] = value], by the constructor of
    [previous_object].  [None] is the TypeError of reading [.constructor]
    of [null]. *)
Definition replace_in_parent (project : json) (w : Walk.t) (value : json)
  : option json :=
  match Walk.previous_object w with
  | None => None
  | Some previous_object =>
      match get previous_object project with
      | Some (JArr _) =>
          Some (modify previous_object
                  (fun p => match p with
                            | JArr items =>
                                JArr (set_index (Walk.current_position w) value items)
                            | _ => p
                            end)
                  project)
      | Some (JObj _) =>
          Some (modify previous_object
                  (fun p => match p with
                            | JObj fields =>
                                JObj (set_field (Walk.current_key w) value fields)
                            | _ => p
                            end)
                  project)
      | _ => Some project
      end
  end.

(** "delete current object from its parent (previous object)". *)
Definition delete_from_parent (project : json) (w : Walk.t) : option json :=
  match Walk.previous_object w with
  | None => None
  | Some previous_object =>
      match get previous_object project with
      | Some (JArr _) =>
          Some (modify previous_object
                  (fun p => match p with
                            | JArr items => JArr (splice1 (Walk.current_position w) items)
                            | _ => p
                            end)
                  project)
      | Some (JObj _) =>
          Some (modify previous_object
                  (fun p => match p with
                            | JObj fields =>
                                JObj (delete_field (Walk.current_key w) fields)
                            | _ => p
                            end)
                  project)
      | _ => Some project
      end
  end.

(** One action (the body of the outer loop).  [None] is a TypeError.  The
    re-sort and the re-indexing of the layers that follow are deferred to a
    later tick ([$evalAsync], [setTimeout]) and are not part of the action. *)
Definition apply_action (project : json) (action : Action.t) : option json :=
  let w := walk project (Action.key action) in
  match get (Walk.current_object w) project with
  | Some current_object =>
      if truthy current_object then
        match Action.type action with
        | insert =>
            match current_object with
            | JArr _ =>
                Some (modify (Walk.current_object w)
                        (fun c => match c with
                                  | JArr items => JArr (items ++ [Action.value action])
                                  | _ => c
                                  end)
                        project)
            | _ => replace_in_parent project w (Action.value action)
            end
        | update =>
            match current_object, Action.value action with
            | JObj _, JObj updates =>
                Some (modify (Walk.current_object w)
                        (fun c => match c with
                                  | JObj fields =>
                                      JObj (fold_left
                                              (fun fs kv => set_field (fst kv) (snd kv) fs)
                                              updates fields)
                                  | _ => c
                                  end)
                        project)
            | _, _ => replace_in_parent project w (Action.value action)
            end
        | delete => delete_from_parent project w
        | other_type => Some project
        end
      else Some project
  | None => Some project
  end.

(** The state of the project when the call ends, and how it ends. *)
Inductive Result : Type :=
| Returned (project : json)       (* [return true] *)
| Thrown (project : json).        (* an uncaught TypeError *)

Fixpoint applyJsonDiff (project : json) (jsonDiff : list Action.t) : Result :=
  match jsonDiff with
  | [] => Returned project
  | action :: rest =>
      match apply_action project action with
      | Some project' => applyJsonDiff project' rest
      | None => Thrown project
      end
  end.

End JsonDiff.

(* ================================================================== *)
(** * Scenarios *)
(* ================================================================== *)

(** The demo project with which the controller starts (chat.js 727-766):
    24 fps, no clips, 100 pixels per 16 seconds. *)
Module Demo.
Definition layers : list Layer.t :=
  [Layer.mk "L0" 0 0 false; Layer.mk "L1" 1 0 false; Layer.mk "L2" 2 0 false;
   Layer.mk "L3" 3 0 false; Layer.mk "L4" 4 0 false].
Definition project : Project.t :=
  Project.mk 24 1 300 16 100 0 [] [] layers [].
Definition scope : Scope.t :=
  Scope.mk project (100 / 16) false false false false "" None.
(** The same scope with other clips and transitions, bound to the host or not. *)
Definition scope_with (Qt : bool) (clips effects : list Item.t) : Scope.t :=
  Scope.mk (Project.set_items clips effects project) (100 / 16) Qt false false
    false "" None.
Definition reader : Reader.t := Reader.mk None None None None false "".
(** A clip [{id, layer, position, start, end}] without keyframes. *)
Definition clip_at (id : string) (layer : Z) (position start end_ : Q) : Item.t :=
  Item.mk id (Some id) layer position start end_ None false false "" reader []
    (Some []) None None.
(** A transition [{id, layer, position, start, end}]. *)
Definition transition_at (id : string) (layer : Z) (position start end_ : Q) : Item.t :=
  Item.mk id None layer position start end_ None false false "" reader []
    None None None.
End Demo.

(* ================================================================== *)
(** * The frame grid *)
(* ================================================================== *)

(** A time lies on the frame grid when snapping leaves it where it is. *)
Definition on_grid (scope : Scope.t) (t : Q) : Prop :=
  Controller.snapToFPSGridTime scope t == t.

(** The state of the winner selection in [getNearbyPosition]. *)
Module SnapSpec.
(** The values with which the search starts. *)
Definition untouched : Controller.Nearest.t := Controller.Nearest.mk 900 900 0.
(** Either no winner was chosen yet, or the winner is not at pixel 0. *)
Definition no_origin (st : Controller.Nearest.t) : Prop :=
  st = untouched \/ ~ Controller.Nearest.snapping_position st == 0.
End SnapSpec.

(* ================================================================== *)
(** * Section 4.7 of the specification, in its own words *)
(* ================================================================== *)

Module OverlapSpec.

Definition left (c : Item.t) : Q := Item.position c.
Definition right (c : Item.t) : Q := Item.position c + (Item.end_ c - Item.start c).

(** The two edges as the controller computes them: the fields are read as
    doubles, and [position + (end - start)] is rounded after the difference
    and after the sum. *)
Definition left_edge (c : Item.t) : Q := Double.num (Item.position c).
Definition right_edge (c : Item.t) : Q :=
  Double.add (Double.num (Item.position c))
    (Double.sub (Double.num (Item.end_ c)) (Double.num (Item.start c))).

(** [proposes clip other p]: [other] lies on the layer of [clip] and either
    the left edge of [clip] is strictly inside [other], and [p] starts at
    that edge and ends at the right edge of [other]; or else the right edge
    of [clip] is strictly inside [other], and [p] starts at the left edge of
    [other] and ends at that edge.  The length of [p] is the computed
    difference of the two edges. *)
Definition proposes (clip other : Item.t) (p : Proposal.t) : Prop :=
  Item.layer other = Item.layer clip
  /\ ((left_edge other < left_edge clip /\ left_edge clip < right_edge other
       /\ p = Proposal.mk (left_edge clip) (Item.layer other) 0
                (Double.sub (right_edge other) (left_edge clip)))
      \/ (~ (left_edge other < left_edge clip /\ left_edge clip < right_edge other)
          /\ left_edge other < right_edge clip /\ right_edge clip < right_edge other
          /\ p = Proposal.mk (left_edge other) (Item.layer other) 0
                   (Double.sub (right_edge clip) (left_edge other)))).

(** The right edge of a proposal, computed as that of an item. *)
Definition proposal_right (p : Proposal.t) : Q :=
  Double.add (Proposal.position p)
    (Double.sub (Proposal.end_ p) (Proposal.start p)).

(** No edge of the transition [tran], if it lies on the layer of [p], is
    within 0.01 s of the corresponding edge of [p]: the computed distance
    is not below the double [0.01]. *)
Definition clear_of (p : Proposal.t) (tran : Item.t) : Prop :=
  Item.layer tran = Proposal.layer p ->
  Double.num (1 # 100) <= Qabs (Double.sub (left_edge tran) (Proposal.position p))
  /\ Double.num (1 # 100)
     <= Qabs (Double.sub (right_edge tran) (proposal_right p)).

End OverlapSpec.

(** Boundary scenario 4: clip A [{position=0, start=0, end=5, layer=1}] and
    the dropped clip B [{position=4, start=0, end=6, layer=1}]. *)
Module Scenario4.
Definition clipA : Item.t := Demo.clip_at "A" 1 0 0 5.
Definition clipB : Item.t := Demo.clip_at "B" 1 4 0 6.
Definition scope : Scope.t := Demo.scope_with true [clipA; clipB] [].
(** The same overlap reached by a trim instead of a drop: the clip
    [{position=5, start=1, end=6, layer=1}] touches A, and its left handle
    is released at the pixel of 4 s. *)
Definition clipB_before_trim : Item.t := Demo.clip_at "B" 1 5 1 6.
Definition trim : Item.t * list HostCall :=
  ClipDirective.resize_stop
    (Demo.scope_with true [clipA; clipB_before_trim] []) clipB_before_trim false
    (ClipDirective.Timing.mk 0 0 None 0) ClipDirective.drag_left (4 * (100 / 16)).
Definition scope_after_trim : Scope.t := Demo.scope_with true [clipA; fst trim] [].
End Scenario4.

(** Two overlaps on the frame grid of 24 fps whose outcome depends on the
    rounding of doubles.  Clip A ends at frame 19 and clip B is dropped at
    frame 7: the overlap is 12 frames, half a second.  In the second scope
    the clips of scenario 4 come with a transition that starts at 4.01 s,
    one hundredth of a second after the proposal. *)
Module OverlapRounding.
Definition clipA : Item.t := Demo.clip_at "A" 1 0 0 (19 / 24).
Definition clipB : Item.t := Demo.clip_at "B" 1 (7 / 24) 0 2.
Definition scope : Scope.t := Demo.scope_with true [clipA; clipB] [].
Definition transition : Item.t := Demo.transition_at "T" 1 (401 / 100) 0 2.
Definition scope_with_transition : Scope.t :=
  Demo.scope_with true [Scenario4.clipA; Scenario4.clipB] [transition].
End OverlapRounding.

(** Boundary scenarios 1 and 2, for the resize handles of a clip. *)
Module ResizeScenario.
Definition no_timing : ClipDirective.Timing.t :=
  ClipDirective.Timing.mk 0 0 None 0.
Definition video (position start end_ : Q) (reader_duration : option Q) : Item.t :=
  Item.mk "C" (Some "F"%string) 1 position start end_ None true false "video"
    (Reader.mk reader_duration None None None false "video") [] (Some []) None None.
Definition image (position start end_ : Q) (reader_duration : option Q) : Item.t :=
  Item.mk "C" (Some "F"%string) 1 position start end_ None true false "image"
    (Reader.mk reader_duration None None None true "image") [] (Some []) None None.
(** The pixel of a time, at the 6.25 pixels per second of the demo scope. *)
Definition px (seconds : Q) : Q := seconds * (100 / 16).
(** Scenario 2: [reader.duration=6, start=1, end=4], right edge dragged right
    by 10 s; the clip sits at position 0, so its right edge is at 3 s. *)
Definition right_trim (c : Item.t) : Item.t :=
  fst (ClipDirective.resize_stop Demo.scope c false no_timing
         ClipDirective.drag_right (px (3 + 10))).
End ResizeScenario.

(** Boundary scenario 5: a clip [{start=0, end=4}] at 24 fps with a keyframe
    at frame 25, dragged to the pixel of 2.0 s. *)
Module Scenario5.
Definition alpha (frame : Q) : Keyframed.t :=
  Keyframed.mk (Some [Point.mk 1 1 1; Point.mk frame (1 # 2) 1]) None None None.
Definition clip_with (frame : Q) : Item.t :=
  Item.mk "C" (Some "F"%string) 1 0 0 4 None true false "video" Demo.reader
    [("alpha"%string, alpha frame)] (Some []) None None.
Definition scope : Scope.t := Demo.scope_with true [clip_with 25] [].
Definition left : Q := 2 * (100 / 16).
End Scenario5.

(** Keyframe drags whose frame depends on the rounding of doubles.  At
    25 fps and 100 pixels per second the keyframe of the clip of scenario 5
    is released at 116 px, the pixel of 1.16 s, which is the time of frame
    30.  At 24 fps the keyframe of a clip of eight frames is dragged far to
    the right. *)
Module KeyframeRounding.
Definition scope25 : Scope.t :=
  Scope.mk
    (Project.mk 25 1 300 1 100 0 [Scenario5.clip_with 25] [] Demo.layers [])
    (100 / 1) true false false false "" None.
Definition left : Q := 116.
Definition short_clip (frame : Q) : Item.t :=
  Item.mk "C" (Some "F"%string) 1 0 0 (8 / 24) None true false "video" Demo.reader
    [("alpha"%string, Scenario5.alpha frame)] (Some []) None None.
Definition scope24 : Scope.t := Demo.scope_with true [short_clip 2] [].
Definition far_right : Q := 1000.
End KeyframeRounding.

(* ================================================================== *)
(** * Section 4.10 of the specification: linear interpolation *)
(* ================================================================== *)

Module ResampleSpec.

(** The position in the source array that sample [i] of a resampled array
    of [newLength] samples stands for: the two arrays are stretched over
    each other, first sample on first and last on last.  The quotient and
    the product are doubles. *)
Definition source_pos (len newLength i : nat) : Q :=
  Double.mul
    (if Nat.eqb newLength 1 then 0
     else Double.div (inject_Z (Z.of_nat i)) (inject_Z (Z.of_nat (newLength - 1))))
    (inject_Z (Z.of_nat (len - 1))).

(** The value of the piecewise linear curve through [samples] at the
    fractional index [pos], [value0 + (value1 - value0) * frac] computed in
    doubles. *)
Definition lerp (samples : list Q) (pos : Q) : Q :=
  let idx0 := Z.to_nat (Qfloor pos) in
  let idx1 := Nat.min (List.length samples - 1) (idx0 + 1) in
  let frac := Double.sub pos (inject_Z (Z.of_nat idx0)) in
  Double.add (nth idx0 samples 0)
    (Double.mul (Double.sub (nth idx1 samples 0) (nth idx0 samples 0)) frac).

(** The length of the resampled array: a single sample stays single, and
    otherwise [round(len * (newDuration / originalDuration))], the quotient
    and the product being doubles, but at least 1. *)
Definition resampled_length (len : nat) (originalDuration newDuration : Q) : nat :=
  if Nat.eqb len 1 then 1%nat
  else Z.to_nat
         (Z.max 1
            (JS.Math_round
               (Double.mul (inject_Z (Z.of_nat len))
                  (Double.div newDuration originalDuration)))).

(** The waveform [0, 1, ..., n - 1]. *)
Definition ramp (n : nat) : list Q := map (fun i => inject_Z (Z.of_nat i)) (seq 0 n).

End ResampleSpec.

(** Snapping near the origin of the timeline: a clip of 5 s at the given
    position, the playhead at 2 s, and a candidate pixel 3 pixels to the
    right of the clip's left edge, with a threshold of 10 pixels.  The demo
    scale is 6.25 pixels per second. *)
Module SnapScenario.
Definition scope (clip_position : Q) : Scope.t :=
  Scope.set_project
    (Project.set_playhead_position 2
       (Project.set_items [Demo.clip_at "A" 1 clip_position 0 5] [] Demo.project))
    Demo.scope.
Definition candidate (clip_position : Q) : Q := clip_position * (100 / 16) + 3.
Definition nearby (clip_position : Q) : Q * Q :=
  Controller.getNearbyPosition (scope clip_position) [candidate clip_position]
    10 [] false.
End SnapScenario.

(** A retime preview whose display window has shrunk to nothing: the clip
    [{start=0, end=4}] is retimed at 24 fps and 6.25 pixels per second, the
    original window is [0, 4] and the display window is [display, display].
    The keyframe looked at is frame 49, two seconds into the clip. *)
Module RetimeScenario.
Definition preview (displayStart displayEnd : Q) : Preview.t :=
  Preview.mk true "retime" (Some 0) (Some 4) (Some displayStart) (Some displayEnd)
    (Some 0) (Some 4) (Some (100 / 16)).
Definition clip (displayStart displayEnd : Q) : Item.t :=
  Item.mk "C" (Some "F"%string) 1 0 0 4 None true false "video" Demo.reader
    [("alpha"%string, Scenario5.alpha 49)] (Some [])
    (Some (preview displayStart displayEnd)) None.
Definition frame : Q := 49.
Definition frameSeconds : Q := (frame - 1) / (24 / 1).
End RetimeScenario.

(** A small project for the diff engine, and three actions whose key does
    not lead to anything: an entity id that no clip has, and a property that
    the project does not have. *)
Module DiffScenario.
Import JsonDiff.
Definition clipA : json :=
  JObj [("id"%string, JStr "A"); ("layer"%string, JNum 1);
        ("position"%string, JNum 0)].
Definition project : json :=
  JObj [("duration"%string, JNum 300); ("clips"%string, JArr [clipA]);
        ("effects"%string, JArr [])].
Definition missing_clip : list KeyPart :=
  [KName "clips"; KSel (Some (JStr "missing"))].
Definition delete_missing : Action.t := Action.mk delete missing_clip JNull.
Definition update_missing : Action.t :=
  Action.mk update missing_clip (JObj [("position"%string, JNum 3)]).
Definition update_unknown_property : Action.t :=
  Action.mk update [KName "nonexistent"] (JObj [("duration"%string, JNum 10)]).
End DiffScenario.

(** Ripple selection: clips A and B on layer 1, clip C on layer 2 and the
    transition T on layer 1; A and C are selected, and A was selected last.
    B is clicked with ALT held, without CTRL, the host being connected. *)
Module RippleScenario.
Definition clipA : Item.t := Item.set_selected true (Demo.clip_at "A" 1 0 0 5).
Definition clipB : Item.t := Demo.clip_at "B" 1 5 0 5.
Definition clipC : Item.t := Item.set_selected true (Demo.clip_at "C" 2 7 0 5).
Definition tranT : Item.t := Demo.transition_at "T" 1 6 0 2.
Definition scope : Scope.t :=
  Scope.set_lastSelectedItem (Some (ty_clip, "A"%string))
    (Demo.scope_with true [clipA; clipB; clipC] [tranT]).
Definition dom : Controller.Dom.t := Controller.Dom.mk 0 0.
Definition alt_click : Controller.Event.t := Controller.Event.mk false false true 40.
Definition result : Scope.t * list HostCall :=
  Controller.selectItem scope dom "clip_B" ty_clip true (Some alt_click) false.
Definition selection (items : list Item.t) : list (string * bool) :=
  map (fun item => (Item.id item, Item.selected item)) items.
End RippleScenario.

(* ================================================================== *)
(** * Further functions of the controller and of the directives *)
(* ================================================================== *)

(** ** Playhead and preview calls (chat.js 847-887) *)
Module Playback.

(** [$scope.movePlayheadToFrame] (chat.js 848-860).  [playhead_animating]
    is the scope's flag of that name. *)
Definition movePlayheadToFrame (scope : Scope.t) (playhead_animating : bool)
    (position_frames : Q) : Scope.t :=
  if playhead_animating then scope
  else
    let frames_per_second :=
      Project.fps_num (Scope.project scope) / Project.fps_den (Scope.project scope) in
    let position_seconds := (position_frames - 1) / frames_per_second in
    Controller.movePlayhead scope position_seconds.

(** [$scope.previewFrame] (chat.js 863-872): the frame handed to
    [timeline.PlayheadMoved]; [None] when no host is connected. *)
Definition previewFrame (scope : Scope.t) (position_seconds : Q) : option Z :=
  let frames_per_second :=
    Project.fps_num (Scope.project scope) / Project.fps_den (Scope.project scope) in
  let frame := (JS.Math_round (position_seconds * frames_per_second) + 1)%Z in
  if Scope.Qt scope then Some frame else None.


End Playback.

(** ** Bulk selection (chat.js 1528-1552, 1832-1845) *)
Module Selection.

Definition selectClip (scope : Scope.t) (dom : Controller.Dom.t) (clip_id : string)
    (clear_selections : bool) (event : option Controller.Event.t)
  : Scope.t * list HostCall :=
  Controller.selectItem scope dom clip_id ty_clip clear_selections event false.

Definition selectTransition (scope : Scope.t) (dom : Controller.Dom.t)
    (tran_id : string) (clear_selections : bool)
    (event : option Controller.Event.t) : Scope.t * list HostCall :=
  Controller.selectItem scope dom tran_id ty_transition clear_selections event false.

Definition selectEffect (scope : Scope.t) (dom : Controller.Dom.t)
    (effect_id : string) (clear_selections : bool)
    (event : option Controller.Event.t) : Scope.t * list HostCall :=
  Controller.selectItem scope dom effect_id ty_effect clear_selections event false.

(** [$scope.clearAllSelections] (chat.js 1528-1536): three calls without an
    event, one after the other. *)
Definition clearAllSelections (scope : Scope.t) (dom : Controller.Dom.t)
  : Scope.t * list HostCall :=
  let r1 := selectClip scope dom "" true None in
  let r2 := selectTransition (fst r1) dom "" true None in
  let r3 := selectEffect (fst r2) dom "" true None in
  (fst r3, snd r1 ++ snd r2 ++ snd r3).

(** [$scope.selectAll] (chat.js 1539-1552).  The host is called for every
    item; the calls are not guarded by [$scope.Qt]. *)
Definition selectAll (scope : Scope.t) : Scope.t * list HostCall :=
  let clips := Project.clips (Scope.project scope) in
  let effects := Project.effects (Scope.project scope) in
  (Controller.with_items scope (map (Item.set_selected true) clips)
     (map (Item.set_selected true) effects),
   map (fun c => addSelection (Item.id c) "clip" false) clips
   ++ map (fun t => addSelection (Item.id t) "transition" false) effects).

End Selection.

(** ** Growing the timeline (chat.js 1871-1895) *)
Module Timeline.

Definition set_duration (duration : Q) (p : Project.t) : Project.t :=
  Project.mk (Project.fps_num p) (Project.fps_den p) duration (Project.scale p)
    (Project.tick_pixels p) (Project.playhead_position p) (Project.clips p)
    (Project.effects p) (Project.layers p) (Project.markers p).

(** The loop that finds the latest end of a clip. *)
Definition furthest_right_edge (clips : list Item.t) : Q :=
  fold_left
    (fun furthest_right_edge clip =>
       let right_edge := Item.position clip + (Item.end_ clip - Item.start clip) in
       if JS.gtb right_edge furthest_right_edge then right_edge
       else furthest_right_edge)
    clips 0.

(** [$scope.resizeTimeline]: the scope afterwards, the length passed to
    [timeline.resizeTimeline], if it is called, and how the call ends.
    [in_digest] tells whether an [$apply] or a [$digest] is in progress
    ([$rootScope.$$phase]), as it is at the two calls in the resize handler
    of the clip directive (clip.js 651 and 685), which are made inside
    [scope.$apply]; the call at the end of [updateRecentItemJSON]
    (chat.js 2156) comes after its [$apply].  In a digest the
    [$scope.$apply] that is to store the new duration raises
    [$rootScope:inprog] and does not run its function. *)
Definition resizeTimeline (scope : Scope.t) (in_digest : bool)
  : Scope.t * option Q * Completion :=
  let min_timeline_padding := 10 in
  let min_timeline_length := 300 in
  let furthest_right_edge :=
    furthest_right_edge (Project.clips (Scope.project scope)) in
  if JS.gtb furthest_right_edge (Project.duration (Scope.project scope)) then
    if Scope.Qt scope then
      let new_timeline_length :=
        JS.Math_max min_timeline_length (furthest_right_edge + min_timeline_padding) in
      if in_digest then (scope, Some new_timeline_length, Threw)
      else
        (Scope.set_project (set_duration new_timeline_length (Scope.project scope))
           scope,
         Some new_timeline_length, Returned)
    else (scope, None, Returned)
  else (scope, None, Returned).

(** [$scope.getTimelineWidth] (chat.js 2029-2032) and [$scope.canvasMaxWidth]
    (chat.js 1866-1868). *)
Definition getTimelineWidth (scope : Scope.t) (min_value : Q) : Q :=
  JS.Math_max min_value
    (Project.duration (Scope.project scope) * Scope.pixelsPerSecond scope).

Definition canvasMaxWidth (desired_width : Q) : Q := JS.Math_min 32767 desired_width.

End Timeline.

(** ** The width limit of the clip directive (clip.js 488-497) *)
Module ClipWidth.

(** [getMaxResizeWidthPx]; [None] is [null], no limit. *)
Definition getMaxResizeWidthPx (scope : Scope.t) (clip : Item.t) : option Q :=
  match ClipDirective.getMaxDurationSeconds scope clip with
  | None => None
  | Some maxDuration =>
      let startSec := JS.toNumber (Some (Item.start clip)) 0 in
      let currentDuration :=
        JS.Math_max 0 (JS.toNumber (Some (Item.end_ clip)) startSec - startSec) in
      let maxWidthSeconds := JS.Math_max maxDuration currentDuration in
      Some (maxWidthSeconds * Scope.pixelsPerSecond scope)
  end.

End ClipWidth.

(** ** The transition directive ([tlTransition]) *)
Module TransitionDirective.

(** [updateTransitionKeyframePreview]: the [left] offset written to an icon
    whose captured offset is [originalLeft].  [widthPx] is the width passed
    in ([None]: not a finite number, the element's width is read instead).
    The result [None] means that the icons are left alone. *)
Definition scaled_left (active : bool) (originalWidth : Q) (widthPx : option Q)
    (element_width : Q) (originalLeft : Q) : option Q :=
  if negb active then None
  else
    let width := match widthPx with Some w => w | None => element_width end in
    let width := if JS.eqb width 0 || JS.ltb width 0 then 0 else width in
    if JS.eqb originalWidth 0 || JS.leb originalWidth 0 then None
    else
      let scale := width / originalWidth in
      let scaledLeft := originalLeft * scale in
      let scaledLeft := if JS.ltb scaledLeft 0 then 0 else scaledLeft in
      let scaledLeft := if JS.gtb scaledLeft width then width else scaledLeft in
      Some scaledLeft.

End TransitionDirective.

(** No clip, transition or effect of a clip is selected. *)
Definition nothing_selected (p : Project.t) : Prop :=
  (forall clip, In clip (Project.clips p) ->
     Item.selected clip = false
     /\ forall effs eff, Item.effects clip = Some effs -> In eff effs ->
          Effect.selected eff = false)
  /\ (forall tran, In tran (Project.effects p) -> Item.selected tran = false).



(** What [getKeyframes] keeps true of the mapping it builds. *)
Module KeyframeSpec.

(** What holds of every frame that is stored, and of every entry. *)
Definition frame_ok (scope : Scope.t) (object : Item.t) (frame : Q) : Prop :=
  Controller.preview object = None ->
  Controller.isInsideClip scope object
    ((frame - 1) / Controller.frames_per_second scope) = true.

Definition entry_ok (object : Item.t) (entry : KeyframeEntry.t) : Prop :=
  KeyframeEntry.selected entry
  = KeyframeEntry.baseSelected entry && KeyframeEntry.insidePreview entry
  /\ (Controller.preview object = None -> KeyframeEntry.insidePreview entry = true).

Definition keyframes_ok (scope : Scope.t) (object : Item.t)
    (keyframes : list (Q * KeyframeEntry.t)) : Prop :=
  StronglySorted (fun a b => fst a < fst b) keyframes
  /\ Forall (fun fe => frame_ok scope object (fst fe) /\ entry_ok object (snd fe))
       keyframes.

End KeyframeSpec.

(** Every keyframe point of an item: those of its own properties, then
    those of the properties of its effects; for each property its [Points]
    and then its red, green and blue channels. *)
Module KeyframePoints.

Definition of_keyframed (k : Keyframed.t) : list Point.t :=
  let points (o : option (list Point.t)) :=
    match o with Some l => l | None => [] end in
  points (Keyframed.Points k) ++ points (Keyframed.red k)
  ++ points (Keyframed.green k) ++ points (Keyframed.blue k).

Definition of_props (props : list (string * Keyframed.t)) : list Point.t :=
  flat_map (fun kv => of_keyframed (snd kv)) props.

Definition of_item (object : Item.t) : list Point.t :=
  of_props (Item.props object)
  ++ match Item.effects object with
     | Some effects => flat_map (fun e => of_props (Effect.props e)) effects
     | None => []
     end.

(** Every animatable property of an item: its own and those of its
    effects. *)
Definition properties (object : Item.t) : list Keyframed.t :=
  map snd (Item.props object)
  ++ match Item.effects object with
     | Some effects => flat_map (fun e => map snd (Effect.props e)) effects
     | None => []
     end.

(** A colour whose [red] channel has points has them in [green] and [blue]
    too. *)
Definition channels_complete (k : Keyframed.t) : Prop :=
  Keyframed.red k <> None ->
  Keyframed.green k <> None /\ Keyframed.blue k <> None.

(** The same keyframe: the same frame number, value and interpolation. *)
Definition same_point (p q : Point.t) : Prop :=
  Point.X p == Point.X q /\ Point.Y p = Point.Y q
  /\ Point.interpolation p = Point.interpolation q.

End KeyframePoints.

(** ** The keyframe preview window of the clip directive (clip.js 302-367)

    A numeric field of the container that holds no number is [None]. *)
Module PreviewWindow.

(** [scope.clip.ui.keyframe_preview = container]. *)
Definition set_keyframe_preview (preview : option Preview.t) (clip : Item.t) : Item.t :=
  Item.mk (Item.id clip) (Item.file_id clip) (Item.layer clip) (Item.position clip)
    (Item.start clip) (Item.end_ clip) (Item.duration clip) (Item.selected clip)
    (Item.has_single_image clip) (Item.media_type clip) (Item.reader clip)
    (Item.props clip) (Item.effects clip) preview (Item.audio_data clip).

(** [startKeyframePreview(mode)]; [timing_original_start] and
    [timing_original_end] are the directive's variables of that name. *)
Definition startKeyframePreview (scope : Scope.t) (clip : Item.t)
    (timing_original_start timing_original_end : option Q) (mode : string)
  : Preview.t :=
  let clipStart :=
    ClipDirective.snapTime scope (JS.toNumber (Some (Item.start clip)) 0) in
  let clipEnd :=
    ClipDirective.snapTime scope (JS.toNumber (Some (Item.end_ clip)) clipStart) in
  let originalStart :=
    if String.eqb mode "retime"
    then ClipDirective.snapTime scope (JS.toNumber timing_original_start clipStart)
    else clipStart in
  let originalEnd :=
    if String.eqb mode "retime"
    then ClipDirective.snapTime scope (JS.toNumber timing_original_end clipEnd)
    else clipEnd in
  let displayStart := clipStart in
  let displayEnd := clipEnd in
  (* trim keeps absolute keyframe positions *)
  let projectedStart := if String.eqb mode "trim" then displayStart else originalStart in
  let projectedEnd := if String.eqb mode "trim" then displayEnd else originalEnd in
  Preview.mk true mode (Some originalStart) (Some originalEnd) (Some displayStart)
    (Some displayEnd) (Some projectedStart) (Some projectedEnd)
    (Some (Scope.pixelsPerSecond scope)).

(** [toNumber(value, fallback)] with a fallback that may itself be no number. *)
Definition toNumber_or (value fallback : option Q) : option Q :=
  match value with Some v => Some v | None => fallback end.

(** [updateKeyframePreview(displayStart, displayEnd)] on the container. *)
Definition updateKeyframePreview (scope : Scope.t) (container : Preview.t)
    (displayStart displayEnd : option Q) : Preview.t :=
  if negb (Preview.active container) then container
  else
    let startSec :=
      option_map (ClipDirective.snapTime scope)
        (toNumber_or displayStart (Preview.displayStart container)) in
    let endSec :=
      option_map (ClipDirective.snapTime scope) (toNumber_or displayEnd startSec) in
    let swap :=
      match startSec, endSec with
      | Some s, Some e => JS.ltb e s
      | _, _ => false
      end in
    let startSec' := if swap then endSec else startSec in
    let endSec' := if swap then startSec else endSec in
    let projected :=
      if String.eqb (Preview.mode container) "trim" then (startSec', endSec')
      else
        let originStart := toNumber_or (Preview.originalStart container) startSec' in
        let originEnd := toNumber_or (Preview.originalEnd container) originStart in
        let originEnd :=
          match originStart, originEnd with
          | Some s, Some e => if JS.ltb e s then originStart else originEnd
          | _, _ => originEnd
          end in
        (originStart, originEnd) in
    Preview.mk (Preview.active container) (Preview.mode container)
      (Preview.originalStart container) (Preview.originalEnd container)
      startSec' endSec' (fst projected) (snd projected)
      (Some (Scope.pixelsPerSecond scope)).

End PreviewWindow.

(** [keyframes[frame]]: the entry stored for a frame, if any. *)
Definition entry_at (frame : Q) (keyframes : list (Q * KeyframeEntry.t))
  : option KeyframeEntry.t :=
  option_map snd (find (fun fe => JS.eqb (fst fe) frame) keyframes).

(* ================================================================== *)
(** * Properties *)
(* ================================================================== *)

(** ** Binary64 rounding *)

(** The double nearest to a rational does not depend on how the rational
    is written. *)
Lemma fl_proper (x y : Q) : x == y -> Double.fl x = Double.fl y.
Proof.
  intro H. unfold Double.fl. rewrite (Qred_complete x y H). reflexivity.
Qed.

Lemma Qred_inject_Z (z : Z) : Qred (inject_Z z) = inject_Z z.
Proof.
  pose proof (Qred_correct (inject_Z z)) as E.
  pose proof (gcd_Qred (inject_Z z)) as G.
  destruct (Qred (inject_Z z)) as [n d]. unfold Qeq in E. cbn in E, G.
  assert (D : (Z.pos d | n)%Z).
  { exists z. lia. }
  assert (D1 : (Z.pos d | 1)%Z).
  { rewrite <- G. apply Z.gcd_greatest; [exact D | apply Z.divide_refl]. }
  apply Z.divide_1_r_nonneg in D1; [| lia].
  assert (d = 1%positive) by lia. subst d.
  unfold inject_Z. f_equal. lia.
Qed.

Lemma nearest_even_integer (x : Q) (n : Z) :
  x == inject_Z n -> Double.nearest_even x = n.
Proof.
  intro H. unfold Double.nearest_even.
  assert (F : Qfloor x = n) by (rewrite H; apply Qfloor_Z).
  rewrite F.
  assert (C : (x - inject_Z n ?= 1 # 2) = Lt).
  { rewrite <- Qlt_alt. rewrite H. lra. }
  rewrite C. reflexivity.
Qed.

Lemma pow2_nonpos (e : Z) :
  (e <= 0)%Z -> Double.pow2 e == / inject_Z (2 ^ (- e)).
Proof.
  intro H. unfold Double.pow2.
  replace e with (- - e)%Z at 1 by lia.
  rewrite Qpower_opp. apply Qinv_comp.
  rewrite Zpower_Qpower by lia. reflexivity.
Qed.

Lemma binade_le (a : Q) : (Double.binade a <= Z.log2 (Qnum a))%Z.
Proof.
  unfold Double.binade.
  pose proof (Z.log2_nonneg (Z.pos (Qden a))).
  destruct (Qle_bool _ a); lia.
Qed.

(** The doubles of 0.1 and of 1/3, a tie that goes to the even mantissa,
    and the gradual underflow below [2^-1074]. *)
Lemma fl_examples :
  Double.fl (1 / 10) = 3602879701896397 # 36028797018963968
  /\ Double.fl (1 / 3) = 6004799503160661 # 18014398509481984
  /\ Double.fl (inject_Z (2 ^ 53 + 1)) = inject_Z (2 ^ 53)
  /\ Double.fl (inject_Z (2 ^ 53 + 3)) = inject_Z (2 ^ 53 + 4)
  /\ Double.fl (Double.pow2 (-1075)) = 0
  /\ Double.fl (3 * Double.pow2 (-1075)) == Double.pow2 (-1073).
Proof.
  repeat split; vm_compute; reflexivity.
Qed.

(** An integer below [2^53] is a double. *)
Lemma fl_integer (z : Z) :
  (Z.abs z < 2 ^ 53)%Z -> Double.fl (inject_Z z) = inject_Z z.
Proof.
  intro H. unfold Double.fl. rewrite Qred_inject_Z.
  destruct (Qeq_bool (inject_Z z) 0) eqn:E0.
  - apply Qeq_bool_eq in E0. unfold Qeq, inject_Z in E0. cbn in E0.
    assert (z = 0%Z) by lia. subst z. reflexivity.
  - transitivity (Qred (inject_Z z)); [| apply Qred_inject_Z]. apply Qred_complete.
    set (a := Qabs (inject_Z z)).
    set (e := Z.max (Double.binade a - 52) (-1074)).
    assert (Ha : a == inject_Z (Z.abs z)) by (unfold a, inject_Z; reflexivity).
    assert (He : (e <= 0)%Z).
    { unfold e. pose proof (binade_le a) as B.
      change (Qnum a) with (Z.abs z) in B.
      assert ((Z.log2 (Z.abs z) < 53)%Z).
      { destruct (Z.eq_dec (Z.abs z) 0) as [Ez | Ez].
        - rewrite Ez. cbn. lia.
        - apply Z.log2_lt_pow2; lia. }
      lia. }
    assert (P : 0 < inject_Z (2 ^ (- e))).
    { change 0 with (inject_Z 0). rewrite <- Zlt_Qlt. apply Z.pow_pos_nonneg; lia. }
    assert (M : a / Double.pow2 e == inject_Z (Z.abs z * 2 ^ (- e))).
    { rewrite (pow2_nonpos e He), Ha, inject_Z_mult. field. lra. }
    rewrite (nearest_even_integer _ _ M), (pow2_nonpos e He), inject_Z_mult.
    destruct (Qle_bool 0 (inject_Z z)) eqn:S.
    + apply Qle_bool_imp_le in S. change 0 with (inject_Z 0) in S.
      rewrite <- Zle_Qle in S. rewrite Z.abs_eq by exact S. field. lra.
    + assert (S' : ~ 0 <= inject_Z z).
      { intro C. apply Qle_bool_iff in C. congruence. }
      assert (z < 0)%Z.
      { destruct (Z_lt_le_dec z 0) as [L | L]; [exact L |].
        exfalso. apply S'. change 0 with (inject_Z 0). now rewrite <- Zle_Qle. }
      rewrite Z.abs_neq by lia. rewrite inject_Z_opp. field. lra.
Qed.

(** ** Comparisons and rounding *)

Lemma ltb_true (a b : Q) : JS.ltb a b = true <-> a < b.
Proof.
  unfold JS.ltb. rewrite negb_true_iff.
  destruct (Qle_bool b a) eqn:E.
  - apply Qle_bool_iff in E. split; [discriminate | intro H; lra].
  - split; [intros _ | reflexivity].
    destruct (Qlt_le_dec a b) as [H | H]; [exact H |].
    apply Qle_bool_iff in H. congruence.
Qed.

Lemma ltb_false (a b : Q) : JS.ltb a b = false <-> b <= a.
Proof.
  unfold JS.ltb. rewrite negb_false_iff. apply Qle_bool_iff.
Qed.

Lemma gtb_true (a b : Q) : JS.gtb a b = true <-> b < a.
Proof. apply ltb_true. Qed.

Lemma gtb_false (a b : Q) : JS.gtb a b = false <-> a <= b.
Proof. apply ltb_false. Qed.

Lemma leb_true (a b : Q) : JS.leb a b = true <-> a <= b.
Proof. apply Qle_bool_iff. Qed.

Lemma leb_false (a b : Q) : JS.leb a b = false <-> b < a.
Proof.
  unfold JS.leb. destruct (Qle_bool a b) eqn:E.
  - apply Qle_bool_iff in E. split; [discriminate | intro; lra].
  - split; [intros _ | reflexivity].
    destruct (Qlt_le_dec b a) as [H | H]; [exact H |].
    apply Qle_bool_iff in H. congruence.
Qed.

Lemma geb_true (a b : Q) : JS.geb a b = true <-> b <= a.
Proof. apply Qle_bool_iff. Qed.

Lemma geb_false (a b : Q) : JS.geb a b = false <-> a < b.
Proof. apply leb_false. Qed.

Lemma eqb_true (a b : Q) : JS.eqb a b = true <-> a == b.
Proof. apply Qeq_bool_iff. Qed.

Lemma eqb_false (a b : Q) : JS.eqb a b = false <-> ~ a == b.
Proof.
  unfold JS.eqb. split.
  - apply Qeq_bool_neq.
  - intro H. destruct (Qeq_bool a b) eqn:E; [| reflexivity].
    apply Qeq_bool_iff in E. contradiction.
Qed.

(** Case analysis on the comparisons, leaving the order facts in context. *)
Ltac cases_on_comparisons :=
  repeat match goal with
    | |- context [JS.ltb ?a ?b] =>
        let E := fresh "E" in
        destruct (JS.ltb a b) eqn:E;
        [apply ltb_true in E | apply ltb_false in E]
    | |- context [JS.gtb ?a ?b] =>
        let E := fresh "E" in
        destruct (JS.gtb a b) eqn:E;
        [apply gtb_true in E | apply gtb_false in E]
    | |- context [JS.leb ?a ?b] =>
        let E := fresh "E" in
        destruct (JS.leb a b) eqn:E;
        [apply leb_true in E | apply leb_false in E]
    | |- context [JS.geb ?a ?b] =>
        let E := fresh "E" in
        destruct (JS.geb a b) eqn:E;
        [apply geb_true in E | apply geb_false in E]
    end.

Lemma floor_unique (x : Q) (z : Z) :
  inject_Z z <= x -> x < inject_Z z + 1 -> Qfloor x = z.
Proof.
  intros Hlo Hhi.
  pose proof (Qfloor_le x) as Hf.
  pose proof (Qlt_floor x) as Hc.
  rewrite inject_Z_plus in Hc. change (inject_Z 1) with 1 in Hc.
  assert (Hup : inject_Z (Qfloor x) < inject_Z z + 1) by lra.
  assert (Hdn : inject_Z z < inject_Z (Qfloor x) + 1) by lra.
  change 1 with (inject_Z 1) in Hup, Hdn.
  rewrite <- inject_Z_plus in Hup, Hdn.
  rewrite <- Zlt_Qlt in Hup, Hdn. lia.
Qed.

Lemma round_integer (z : Z) : JS.Math_round (inject_Z z) = z.
Proof.
  unfold JS.Math_round. apply floor_unique; lra.
Qed.

#[export] Instance Math_round_proper : Proper (Qeq ==> eq) JS.Math_round.
Proof.
  intros x y H. unfold JS.Math_round. now rewrite H.
Qed.

Lemma round_monotone (x y : Q) : x <= y -> (JS.Math_round x <= JS.Math_round y)%Z.
Proof.
  intro H. unfold JS.Math_round. apply Qfloor_resp_le. lra.
Qed.

Lemma round_nonneg (x : Q) : 0 <= x -> (0 <= JS.Math_round x)%Z.
Proof.
  intro H. rewrite <- (round_integer 0). apply round_monotone. exact H.
Qed.

(** ** The frame grid *)

#[export] Instance snap_proper :
  Proper (Qeq ==> Qeq ==> Qeq ==> Qeq) TimeMath.snapToFPSGridTime.
Proof.
  intros n n' Hn d d' Hd t t' Ht. unfold TimeMath.snapToFPSGridTime.
  assert (E : t * n / d == t' * n' / d') by (rewrite Hn, Hd, Ht; reflexivity).
  rewrite (Math_round_proper _ _ E).
  rewrite Hn, Hd. reflexivity.
Qed.

Lemma snap_idempotent (n d t : Q) :
  0 < n -> 0 < d ->
  TimeMath.snapToFPSGridTime n d (TimeMath.snapToFPSGridTime n d t)
  == TimeMath.snapToFPSGridTime n d t.
Proof.
  intros Hn Hd. unfold TimeMath.snapToFPSGridTime.
  set (k := JS.Math_round (t * n / d)).
  assert (E : inject_Z k * d / n * n / d == inject_Z k) by (field; split; lra).
  rewrite E, round_integer. reflexivity.
Qed.

Lemma snap_monotone (n d t u : Q) :
  0 < n -> 0 < d -> t <= u ->
  TimeMath.snapToFPSGridTime n d t <= TimeMath.snapToFPSGridTime n d u.
Proof.
  intros Hn Hd H. unfold TimeMath.snapToFPSGridTime.
  assert (Hr : (JS.Math_round (t * n / d) <= JS.Math_round (u * n / d))%Z).
  { apply round_monotone.
    unfold Qdiv. apply Qmult_le_compat_r.
    - apply Qmult_le_compat_r; lra.
    - apply Qlt_le_weak, Qinv_lt_0_compat, Hd. }
  rewrite Zle_Qle in Hr.
  set (a := inject_Z (JS.Math_round (t * n / d))) in *.
  set (b := inject_Z (JS.Math_round (u * n / d))) in *.
  unfold Qdiv. apply Qmult_le_compat_r.
  - apply Qmult_le_compat_r; lra.
  - apply Qlt_le_weak, Qinv_lt_0_compat, Hn.
Qed.

Lemma snap_integer_frame (n d : Q) (k : Z) :
  0 < n -> 0 < d ->
  TimeMath.snapToFPSGridTime n d (inject_Z k * d / n) == inject_Z k * d / n.
Proof.
  intros Hn Hd. unfold TimeMath.snapToFPSGridTime.
  assert (E : inject_Z k * d / n * n / d == inject_Z k) by (field; split; lra).
  rewrite E, round_integer. reflexivity.
Qed.

Lemma snap_nonneg (n d t : Q) :
  0 < n -> 0 < d -> 0 <= t -> 0 <= TimeMath.snapToFPSGridTime n d t.
Proof.
  intros Hn Hd Ht.
  assert (E : 0 == TimeMath.snapToFPSGridTime n d 0).
  { unfold TimeMath.snapToFPSGridTime.
    assert (Z0 : 0 * n / d == inject_Z 0) by (field; lra).
    rewrite Z0, round_integer. field. lra. }
  rewrite E. apply snap_monotone; assumption.
Qed.

(** ** The playhead *)

(** C8, as stated, fails: nothing clamps a negative time, so
    [movePlayhead(-1)] at 24 fps stores [-1]. *)
Lemma C8_negative_time_is_stored :
  ~ 0 <= Project.playhead_position
           (Scope.project (Controller.movePlayhead Demo.scope (-1))).
Proof.
  vm_compute. intro H. apply H. reflexivity.
Qed.

(** C8, amended: after [movePlayhead(t)] the stored playhead position is the
    frame-grid value of [t], it is a fixed point of the snapping, and it is
    non-negative whenever [t] is. *)
Theorem C8_movePlayhead_on_grid (scope : Scope.t) (t : Q) :
  0 < Project.fps_num (Scope.project scope) ->
  0 < Project.fps_den (Scope.project scope) ->
  let scope' := Controller.movePlayhead scope t in
  let p := Project.playhead_position (Scope.project scope') in
  p = Controller.snapToFPSGridTime scope t
  /\ Controller.snapToFPSGridTime scope' p == p
  /\ (0 <= t -> 0 <= p).
Proof.
  intros Hn Hd. cbn zeta.
  unfold Controller.movePlayhead, Controller.snapToFPSGridTime.
  destruct scope as [project pps qt dr rz tm flt lst].
  destruct project as [n d dur sc tp ph cs es ls ms]. cbn in *.
  split; [reflexivity | split].
  - apply snap_idempotent; assumption.
  - intro Ht. apply snap_nonneg; assumption.
Qed.

Lemma C8_movePlayhead_on_grid_witness :
  let scope' := Controller.movePlayhead Demo.scope (5 # 2) in
  let p := Project.playhead_position (Scope.project scope') in
  p = Controller.snapToFPSGridTime Demo.scope (5 # 2)
  /\ Controller.snapToFPSGridTime scope' p == p
  /\ (0 <= 5 # 2 -> 0 <= p).
Proof.
  apply (C8_movePlayhead_on_grid Demo.scope (5 # 2)); reflexivity.
Defined.

(** ** Missing transitions *)

Section MissingTransitions.

Import OverlapSpec.

Variable original_clip : Item.t.

Lemma proposes_deterministic (other : Item.t) (p q : Proposal.t) :
  proposes original_clip other p -> proposes original_clip other q -> p = q.
Proof.
  intros [_ [[H1 [H2 ->] ] | [N [H1 [H2 ->] ] ] ] ] [_ [[H3 [H4 ->] ] | [N' [H3 [H4 ->] ] ] ] ];
    try reflexivity; exfalso; tauto.
Qed.

(** One iteration of the search, started with no proposal at hand. *)
Lemma overlap_step_cases (other : Item.t) :
  (exists p,
      Controller.overlap_step original_clip (left_edge original_clip)
        (right_edge original_clip) None other = (Some p, true)
      /\ proposes original_clip other p /\ 1 # 2 <= Proposal.end_ p)
  \/ (Controller.overlap_step original_clip (left_edge original_clip)
        (right_edge original_clip) None other = (None, false)
      /\ forall q, proposes original_clip other q -> Proposal.end_ q < 1 # 2).
Proof.
  unfold Controller.overlap_step, proposes.
  change (Double.num (Item.position other)) with (left_edge other).
  change (Double.add (left_edge other)
            (Double.sub (Double.num (Item.end_ other))
               (Double.num (Item.start other))))
    with (right_edge other).
  set (or := right_edge original_clip).
  set (cr := right_edge other).
  set (ol := left_edge original_clip).
  set (cl := left_edge other).
  destruct (Z.eqb (Item.layer original_clip) (Item.layer other)) eqn:EL; cbn [negb].
  2:{ right. split; [reflexivity |].
      intros q [HL _]. apply Z.eqb_neq in EL. congruence. }
  apply Z.eqb_eq in EL. symmetry in EL.
  destruct (JS.ltb ol cr && JS.gtb ol cl) eqn:E1.
  - apply andb_true_iff in E1. destruct E1 as [A B].
    apply ltb_true in A. apply gtb_true in B. cbn [Proposal.end_].
    destruct (JS.geb (Double.sub cr ol) (1 # 2)) eqn:G.
    + apply geb_true in G. left. eexists. split; [reflexivity |].
      split; [| exact G]. split; [exact EL |]. left. auto.
    + apply geb_false in G. right.
      destruct (JS.ltb (Double.sub cr ol) (1 # 2)) eqn:G'.
      2:{ apply ltb_false in G'. lra. }
      split; [reflexivity |].
      intros q [_ [[_ [_ ->] ] | [N _] ] ]; [exact G | tauto].
  - assert (N : ~ (cl < ol /\ ol < cr)).
    { intros [A B]. apply ltb_true in B. apply gtb_true in A.
      rewrite A, B in E1. discriminate. }
    destruct (JS.gtb or cl && JS.ltb or cr) eqn:E2.
    + apply andb_true_iff in E2. destruct E2 as [A B].
      apply gtb_true in A. apply ltb_true in B. cbn [Proposal.end_].
      destruct (JS.geb (Double.sub or cl) (1 # 2)) eqn:G.
      * apply geb_true in G. left. eexists. split; [reflexivity |].
        split; [| exact G]. split; [exact EL |]. right. auto.
      * apply geb_false in G. right.
        destruct (JS.ltb (Double.sub or cl) (1 # 2)) eqn:G'.
        2:{ apply ltb_false in G'. lra. }
        split; [reflexivity |].
        intros q [_ [[A' [B' _] ] | [_ [_ [_ ->] ] ] ] ]; [tauto | exact G].
    + right. split; [reflexivity |].
      intros q [_ [[A [B _] ] | [_ [A [B _] ] ] ] ]; [tauto |].
      apply gtb_true in A. apply ltb_true in B. rewrite A, B in E2. discriminate.
Qed.

(** The search returns the proposal of the first clip that has one of at
    least half a second. *)
Lemma overlap_loop_first (pre post : list Item.t) (other : Item.t) (p : Proposal.t) :
  (forall c q, In c pre -> proposes original_clip c q -> Proposal.end_ q < 1 # 2) ->
  proposes original_clip other p -> 1 # 2 <= Proposal.end_ p ->
  Controller.overlap_loop original_clip (left_edge original_clip) (right_edge original_clip)
    None (pre ++ other :: post) = Some p.
Proof.
  intros Hpre Hp Hsize. induction pre as [| c pre IH]; cbn [app Controller.overlap_loop].
  - destruct (overlap_step_cases other) as [[p' [-> [Hp' _] ] ] | [_ Hnone] ].
    + f_equal. eapply proposes_deterministic; eassumption.
    + specialize (Hnone p Hp). lra.
  - destruct (overlap_step_cases c) as [[p' [_ [Hp' Hs'] ] ] | [-> _] ].
    + specialize (Hpre c p' (or_introl eq_refl) Hp'). lra.
    + apply IH. intros c' q Hin. apply Hpre. now right.
Qed.

Lemma overlap_loop_none (clips : list Item.t) :
  (forall c q, In c clips -> proposes original_clip c q -> Proposal.end_ q < 1 # 2) ->
  Controller.overlap_loop original_clip (left_edge original_clip) (right_edge original_clip)
    None clips = None.
Proof.
  intro H. induction clips as [| c clips IH]; cbn [Controller.overlap_loop].
  - reflexivity.
  - destruct (overlap_step_cases c) as [[p' [_ [Hp' Hs'] ] ] | [-> _] ].
    + specialize (H c p' (or_introl eq_refl) Hp'). lra.
    + apply IH. intros c' q Hin. apply H. now right.
Qed.

Lemma overlap_loop_some (clips : list Item.t) (p : Proposal.t) :
  Controller.overlap_loop original_clip (left_edge original_clip) (right_edge original_clip)
    None clips = Some p ->
  exists other, In other clips /\ proposes original_clip other p
                /\ 1 # 2 <= Proposal.end_ p.
Proof.
  induction clips as [| c clips IH]; cbn [Controller.overlap_loop].
  - discriminate.
  - destruct (overlap_step_cases c) as [[p' [-> [Hp' Hs'] ] ] | [-> _] ].
    + intros [= <-]. exists c. split; [now left | auto].
    + intro H. destruct (IH H) as [other [Hin Hrest] ].
      exists other. split; [now right | exact Hrest].
Qed.

(** The check against the existing transitions. *)
Lemma existing_loop_keeps (p : Proposal.t) (effects : list Item.t) :
  (forall tran, In tran effects -> clear_of p tran) ->
  Controller.existing_loop p effects = Some p.
Proof.
  intro H. induction effects as [| tran effects IH]; cbn [Controller.existing_loop].
  - reflexivity.
  - destruct (Z.eqb (Item.layer tran) (Proposal.layer p)) eqn:EL; cbn [negb].
    + apply Z.eqb_eq in EL.
      destruct (H tran (or_introl eq_refl) EL) as [A B].
      unfold left_edge, right_edge, proposal_right in A, B.
      unfold JS.Math_abs, Controller.TOLERANCE.
      apply ltb_false in A. apply ltb_false in B. rewrite A, B. cbn [orb].
      apply IH. intros t Hin. apply H. now right.
    + apply IH. intros t Hin. apply H. now right.
Qed.

Lemma existing_loop_some (p p' : Proposal.t) (effects : list Item.t) :
  Controller.existing_loop p effects = Some p' ->
  p' = p /\ forall tran, In tran effects -> clear_of p tran.
Proof.
  induction effects as [| tran effects IH]; cbn [Controller.existing_loop].
  - intros [= <-]. split; [reflexivity | intros ? [] ].
  - destruct (Z.eqb (Item.layer tran) (Proposal.layer p)) eqn:EL; cbn [negb].
    + unfold JS.Math_abs, Controller.TOLERANCE.
      change (Double.num (Item.position tran)) with (left_edge tran).
      change (Double.add (left_edge tran)
                (Double.sub (Double.num (Item.end_ tran))
                   (Double.num (Item.start tran))))
        with (right_edge tran).
      change (Double.add (Proposal.position p)
                (Double.sub (Proposal.end_ p) (Proposal.start p)))
        with (proposal_right p).
      destruct (JS.ltb (Qabs (Double.sub (left_edge tran) (Proposal.position p)))
                  (Double.num (1 # 100))) eqn:A;
        [discriminate |].
      destruct (JS.ltb (Qabs (Double.sub (right_edge tran) (proposal_right p)))
                  (Double.num (1 # 100))) eqn:B;
        [discriminate |].
      cbn [orb]. intro H. destruct (IH H) as [-> Hall].
      split; [reflexivity |].
      intros t [<- | Hin]; [| now apply Hall].
      intros _. apply ltb_false in A. apply ltb_false in B. split; assumption.
    + intro H. destruct (IH H) as [-> Hall].
      split; [reflexivity |].
      intros t [<- | Hin]; [| now apply Hall].
      intro HL. apply Z.eqb_neq in EL. contradiction.
Qed.

End MissingTransitions.

(** The resize handler calls the host with the clip, or with the retime,
    and with nothing else. *)
Lemma resize_stop_calls (scope : Scope.t) (clip : Item.t) (resize_disabled : bool)
    (timing : ClipDirective.Timing.t) (dragLoc : ClipDirective.DragLoc)
    (new_position_px : Q) (call : HostCall) :
  In call (snd (ClipDirective.resize_stop scope clip resize_disabled timing
                  dragLoc new_position_px)) ->
  (exists json, call = update_clip_data json true true false None)
  \/ (exists id end_ position, call = RetimeClip id end_ position).
Proof.
  unfold ClipDirective.resize_stop.
  destruct resize_disabled; [intros [] |].
  destruct (ClipDirective.resize_edges _ _ _ _) as [ [np nl] nr].
  destruct (Scope.enable_timing scope).
  - unfold ClipDirective.commit_retime, Controller.when_Qt. cbv zeta.
    intro H. right.
    assert (Hc : In call (if Scope.Qt scope
                          then [RetimeClip (Item.id clip)
                                  (ClipDirective.snapTime scope
                                     (ClipDirective.Timing.timing_original_start timing
                                      + (ClipDirective.snapTime scope nr
                                         - ClipDirective.snapTime scope nl)))
                                  (ClipDirective.snapTime scope np)]
                          else [])).
    { revert H.
      destruct (ClipDirective.Timing.timing_original_audio timing) as [audio |];
        [destruct (JS.gtb _ 0);
         [destruct (ClipDirective.resampleWaveform _ _ _) |] |];
        cbn; auto. }
    destruct (Scope.Qt scope); [| destruct Hc].
    destruct Hc as [<- | [] ]. eauto.
  - unfold ClipDirective.commit_trim, Controller.when_Qt. cbv zeta. cbn [snd].
    destruct (Scope.Qt scope); [| intros [] ].
    intros [<- | [] ]. left. eauto.
Qed.

(** C1, as stated, fails for a resize: the [stop] handler of the resize
    never looks for a missing transition.  Trimming clip B so that its left
    edge comes to lie one second inside clip A sends the trimmed clip to the
    host and nothing else, although [getMissingTransitions] would propose
    [{position=4, layer=1, start=0, end=1}] for it. *)
Lemma C1_resize_reports_no_transition :
  (exists p,
      Controller.getMissingTransitions Scenario4.scope_after_trim
        (fst Scenario4.trim) = Some p
      /\ Proposal.position p == 4 /\ Proposal.layer p = 1%Z
      /\ Proposal.start p == 0 /\ Proposal.end_ p == 1)
  /\ snd Scenario4.trim = [update_clip_data (fst Scenario4.trim) true true false None].
Proof.
  split.
  - eexists. split; [vm_compute; reflexivity |].
    repeat split; vm_compute; reflexivity.
  - vm_compute. reflexivity.
Qed.

(** C1, amended.  When a dragged clip is dropped, [getMissingTransitions]
    goes through the clips in order; the edges [position] and
    [position + (end - start)] and every difference are the doubles that the
    code computes.  (1) The first clip of the same layer that strictly
    contains the left edge of the dropped clip (or else its right edge) with
    an overlap of at least 0.5 s yields the proposal
    [{position = clip.left, layer, start = 0, end = other.right - clip.left}]
    (resp. [{position = other.left, ..., end = clip.right - other.left}]),
    provided no transition of the layer has its left or right edge less than
    0.01 s from the corresponding edge of the proposal.  (2) Whatever is
    returned is such a proposal, is at least 0.5 s long and is clear of every
    transition of its layer, so shorter and coinciding proposals are
    rejected.  (3) In scenario 4 the proposal
    [{position=4, layer=1, start=0, end=1}] is sent to the host.  (4) The
    resize handler of a clip never sends a proposal.  (5) The comparisons
    are made on the rounded values: an overlap of 12 frames at 24 fps is
    computed as [0.49999999999999994] and gives no proposal, and a
    transition that starts at 4.01 s is computed to lie
    [0.009999999999999787] from a proposal at 4 s and clears it. *)
Theorem C1_missing_transition_proposal (scope : Scope.t) (clip : Item.t) :
  let clips := Project.clips (Scope.project scope) in
  let effects := Project.effects (Scope.project scope) in
  (forall pre other post p,
      clips = pre ++ other :: post ->
      (forall c q, In c pre -> OverlapSpec.proposes clip c q ->
                   Proposal.end_ q < 1 # 2) ->
      OverlapSpec.proposes clip other p ->
      1 # 2 <= Proposal.end_ p ->
      (forall tran, In tran effects -> OverlapSpec.clear_of p tran) ->
      Controller.getMissingTransitions scope clip = Some p)
  /\ (forall p,
         Controller.getMissingTransitions scope clip = Some p ->
         (exists other, In other clips /\ OverlapSpec.proposes clip other p)
         /\ 1 # 2 <= Proposal.end_ p
         /\ forall tran, In tran effects -> OverlapSpec.clear_of p tran)
  /\ Controller.report_missing_transition Scenario4.scope Scenario4.clipB 1
     = [add_missing_transition (Proposal.mk 4 1 0 1)]
  /\ (forall resize_disabled timing dragLoc new_position_px p,
         ~ In (add_missing_transition p)
             (snd (ClipDirective.resize_stop scope clip resize_disabled timing
                     dragLoc new_position_px)))
  /\ (Double.sub (OverlapSpec.right_edge OverlapRounding.clipA)
        (OverlapSpec.left_edge OverlapRounding.clipB)
      = 9007199254740991 # 18014398509481984
      /\ Controller.getMissingTransitions OverlapRounding.scope OverlapRounding.clipB
         = None
      /\ Double.sub (OverlapSpec.left_edge OverlapRounding.transition) 4
         = 5629499534213 # 562949953421312
      /\ Controller.getMissingTransitions OverlapRounding.scope_with_transition
           Scenario4.clipB
         = None).
Proof.
  cbv zeta. unfold Controller.getMissingTransitions. cbv zeta.
  change (Double.num (Item.position clip)) with (OverlapSpec.left_edge clip).
  change (Double.add (OverlapSpec.left_edge clip)
            (Double.sub (Double.num (Item.end_ clip)) (Double.num (Item.start clip))))
    with (OverlapSpec.right_edge clip).
  split; [| split; [| split; [| split] ] ].
  - intros pre other post p -> Hpre Hp Hsize Hclear.
    rewrite (overlap_loop_first clip pre post other p Hpre Hp Hsize).
    apply existing_loop_keeps. exact Hclear.
  - intros p H.
    destruct (Controller.overlap_loop clip (OverlapSpec.left_edge clip)
                (OverlapSpec.right_edge clip) None
                (Project.clips (Scope.project scope))) as [p0 |] eqn:E;
      [| discriminate].
    apply existing_loop_some in H. destruct H as [-> Hclear].
    apply overlap_loop_some in E. destruct E as [other [Hin [Hp Hsize] ] ].
    split; [exists other; auto | split; assumption].
  - vm_compute. reflexivity.
  - intros rd timing dragLoc px p H.
    apply resize_stop_calls in H.
    destruct H as [ [json H] | [id [e [q H] ] ] ]; discriminate.
  - repeat split; vm_compute; reflexivity.
Qed.

(** The first part of C1 applies to scenario 4: clip A is the first clip of
    the list, it strictly contains the left edge of clip B, and there is no
    transition. *)
Lemma C1_missing_transition_proposal_witness :
  Controller.getMissingTransitions Scenario4.scope Scenario4.clipB
  = Some (Proposal.mk (OverlapSpec.left_edge Scenario4.clipB) 1 0
            (Double.sub (OverlapSpec.right_edge Scenario4.clipA)
               (OverlapSpec.left_edge Scenario4.clipB))).
Proof.
  apply (proj1 (C1_missing_transition_proposal Scenario4.scope Scenario4.clipB)
           [] Scenario4.clipA [Scenario4.clipB]).
  - reflexivity.
  - intros c q [].
  - split; [reflexivity |]. left.
    split; [vm_compute; reflexivity | split; [vm_compute; reflexivity | reflexivity] ].
  - vm_compute. discriminate.
  - intros tran [].
Defined.

(** ** Resizing a clip *)

(** [if (old !== new) { old = new }] leaves [old] equal to [new]. *)
Lemma assign_if_differs (old new : Q) :
  (if JS.neqb old new then new else old) == new.
Proof.
  unfold JS.neqb. destruct (Qeq_bool old new) eqn:E; cbn [negb].
  - apply Qeq_bool_iff in E. exact E.
  - reflexivity.
Qed.


(** What the trim commit stores. *)
Lemma commit_trim_stores (scope : Scope.t) (clip : Item.t)
    (new_position new_left new_right : Q) :
  let clip' :=
    fst (ClipDirective.commit_trim scope clip new_position new_left new_right) in
  Item.position clip' == Controller.snapToFPSGridTime scope new_position
  /\ Item.start clip' == Controller.snapToFPSGridTime scope new_left
  /\ Item.end_ clip'
     = (if JS.neqb (Item.end_ clip) new_right
        then Controller.snapToFPSGridTime scope new_right else Item.end_ clip).
Proof.
  cbn. unfold ClipDirective.snapTime.
  split; [apply assign_if_differs | split; [apply assign_if_differs | reflexivity] ].
Qed.




Lemma div_nonneg (a b : Q) : 0 <= a -> 0 < b -> 0 <= a / b.
Proof.
  intros Ha Hb. unfold Qdiv. apply Qmult_le_0_compat; [exact Ha |].
  apply Qlt_le_weak, Qinv_lt_0_compat, Hb.
Qed.

Lemma Math_max_ge_r (a b : Q) : b <= JS.Math_max a b.
Proof.
  unfold JS.Math_max. cases_on_comparisons; lra.
Qed.

Lemma reader_duration_nonneg (clip : Item.t) :
  match Reader.video_length (Item.reader clip) with
  | Some v => 0 <= v
  | None => True
  end ->
  0 <= ClipDirective.getReaderDurationSeconds clip.
Proof.
  intro Hv. unfold ClipDirective.getReaderDurationSeconds.
  destruct (Reader.duration (Item.reader clip)) as [d |].
  - destruct (JS.gtb d 0) eqn:E; [apply gtb_true in E; lra |].
    destruct (Reader.video_length (Item.reader clip)) as [v |],
             (Reader.fps_num (Item.reader clip)) as [n |],
             (Reader.fps_den (Item.reader clip)) as [m |];
      try (destruct (Item.duration clip) as [cd |];
           [destruct (JS.gtb cd 0) eqn:E'; [apply gtb_true in E'; lra |] |];
           apply Math_max_ge_r).
    destruct (negb (JS.eqb m 0) && JS.gtb (n / m) 0) eqn:E'.
    + apply andb_true_iff in E'. destruct E' as [_ E'].
      apply gtb_true in E'. apply div_nonneg; assumption.
    + destruct (Item.duration clip) as [cd |];
        [destruct (JS.gtb cd 0) eqn:E''; [apply gtb_true in E''; lra |] |];
        apply Math_max_ge_r.
  - destruct (Reader.video_length (Item.reader clip)) as [v |],
             (Reader.fps_num (Item.reader clip)) as [n |],
             (Reader.fps_den (Item.reader clip)) as [m |];
      try (destruct (Item.duration clip) as [cd |];
           [destruct (JS.gtb cd 0) eqn:E'; [apply gtb_true in E'; lra |] |];
           apply Math_max_ge_r).
    destruct (negb (JS.eqb m 0) && JS.gtb (n / m) 0) eqn:E'.
    + apply andb_true_iff in E'. destruct E' as [_ E'].
      apply gtb_true in E'. apply div_nonneg; assumption.
    + destruct (Item.duration clip) as [cd |];
        [destruct (JS.gtb cd 0) eqn:E''; [apply gtb_true in E''; lra |] |];
        apply Math_max_ge_r.
Qed.

Lemma retimed_duration_nonneg (scope : Scope.t) (clip : Item.t) (retimed : Q) :
  ClipDirective.getRetimedDurationSeconds scope clip = Some retimed ->
  0 <= retimed.
Proof.
  unfold ClipDirective.getRetimedDurationSeconds.
  destruct (negb (ClipDirective.hasTimeKeyframes clip)); [discriminate |].
  destruct (JS.eqb _ 0); [discriminate |].
  destruct (JS.leb (_ / _) 0) eqn:F; [discriminate |]. apply leb_false in F.
  destruct (ClipDirective.frame_span _) as [ [minFrame maxFrame] |]; [| discriminate].
  destruct (JS.leb maxFrame minFrame) eqn:M; [discriminate |]. apply leb_false in M.
  intros [= <-]. apply div_nonneg; lra.
Qed.

Lemma max_duration_nonneg (scope : Scope.t) (clip : Item.t) (maxDuration : Q) :
  match Reader.video_length (Item.reader clip) with
  | Some v => 0 <= v
  | None => True
  end ->
  ClipDirective.getMaxDurationSeconds scope clip = Some maxDuration ->
  0 <= maxDuration.
Proof.
  intro Hv. unfold ClipDirective.getMaxDurationSeconds.
  destruct (Scope.enable_timing scope); [discriminate |].
  destruct (ClipDirective.getRetimedDurationSeconds scope clip) as [r |] eqn:R.
  - intros [= <-]. eapply retimed_duration_nonneg; eassumption.
  - destruct (negb (ClipDirective.isResizeConstrained scope clip)); [discriminate |].
    intros [= <-]. apply reader_duration_nonneg. exact Hv.
Qed.

(** C3, as stated, fails for a single-image clip: without timing mode and
    without a [time] track its length is not limited, so the clip
    [{reader.duration=6, start=1, end=4}] dragged right by 10 s ends at 14,
    beyond [start + reader.duration = 7]. *)
Lemma C3_single_image_is_unlimited :
  let clip := ResizeScenario.image 0 1 4 (Some 6) in
  Scope.enable_timing Demo.scope = false
  /\ ClipDirective.hasTimeKeyframes clip = false
  /\ ClipDirective.getReaderDurationSeconds clip == 6
  /\ Item.end_ (ResizeScenario.right_trim clip) == 14
  /\ ~ Item.end_ (ResizeScenario.right_trim clip) <= Item.start clip + 6.
Proof.
  cbv zeta. repeat split; try (vm_compute; reflexivity).
  intro H. vm_compute in H. apply H. reflexivity.
Qed.

(** C3, amended.  [maxDuration] is unlimited in timing mode; otherwise it is
    the retimed duration when the [time] track yields one, else unlimited
    for a single-image clip, else the reader's natural duration.  Whenever
    [maxDuration] is limited, the end computed on release of the right
    handle does not exceed [start + maxDuration], and neither does the
    stored end when [start + maxDuration] lies on the frame grid.  In
    scenario 2 the stored end is 7. *)
Theorem C3_right_handle_limit (scope : Scope.t) (clip : Item.t)
    (timing : ClipDirective.Timing.t) (new_position_px : Q) :
  0 < Project.fps_num (Scope.project scope) ->
  0 < Project.fps_den (Scope.project scope) ->
  match Reader.video_length (Item.reader clip) with
  | Some v => 0 <= v
  | None => True
  end ->
  let dt := ClipDirective.delta_time_of scope clip ClipDirective.drag_right
              new_position_px in
  let new_right :=
    snd (ClipDirective.resize_edges scope clip ClipDirective.drag_right dt) in
  let clip' := fst (ClipDirective.resize_stop scope clip false timing
                      ClipDirective.drag_right new_position_px) in
  (Scope.enable_timing scope = true ->
   ClipDirective.getMaxDurationSeconds scope clip = None)
  /\ (Scope.enable_timing scope = false ->
      ClipDirective.getMaxDurationSeconds scope clip
      = match ClipDirective.getRetimedDurationSeconds scope clip with
        | Some retimed => Some retimed
        | None =>
            if ClipDirective.isSingleImageClip clip then None
            else Some (ClipDirective.getReaderDurationSeconds clip)
        end)
  /\ (forall maxDuration,
         ClipDirective.getMaxDurationSeconds scope clip = Some maxDuration ->
         new_right <= Item.start clip + maxDuration
         /\ (Controller.snapToFPSGridTime scope (Item.start clip + maxDuration)
             == Item.start clip + maxDuration ->
             Item.end_ clip' <= Item.start clip + maxDuration))
  /\ Item.end_ (ResizeScenario.right_trim (ResizeScenario.video 0 1 4 (Some 6))) == 7.
Proof.
  intros Hn Hd Hv. cbv zeta.
  set (dt := ClipDirective.delta_time_of scope clip ClipDirective.drag_right
               new_position_px).
  split; [| split; [| split] ].
  - intro Ht. unfold ClipDirective.getMaxDurationSeconds. now rewrite Ht.
  - intro Ht. unfold ClipDirective.getMaxDurationSeconds,
      ClipDirective.isResizeConstrained. rewrite Ht. cbn [negb andb].
    destruct (ClipDirective.getRetimedDurationSeconds scope clip); [reflexivity |].
    destruct (ClipDirective.isSingleImageClip clip); reflexivity.
  - intros m Hm.
    pose proof (max_duration_nonneg scope clip m Hv Hm) as Hpos.
    assert (Ht : Scope.enable_timing scope = false).
    { unfold ClipDirective.getMaxDurationSeconds in Hm.
      destruct (Scope.enable_timing scope); [discriminate | reflexivity]. }
    assert (Hedge :
              snd (ClipDirective.resize_edges scope clip ClipDirective.drag_right dt)
              <= Item.start clip + m).
    { unfold ClipDirective.resize_edges, ClipDirective.getMaxClipEndSeconds.
      rewrite Hm. cbn [snd JS.toNumber]. cases_on_comparisons; lra. }
    split; [exact Hedge |].
    intro Hgrid. unfold ClipDirective.resize_stop. fold dt. rewrite Ht.
    destruct (ClipDirective.resize_edges scope clip ClipDirective.drag_right dt)
      as [ [np nl] nr]. cbn [snd] in Hedge.
    destruct (commit_trim_stores scope clip np nl nr) as [_ [_ He] ].
    cbv zeta in He. rewrite He.
    unfold JS.neqb. destruct (Qeq_bool (Item.end_ clip) nr) eqn:E; cbn [negb].
    + apply Qeq_bool_iff in E. lra.
    + rewrite <- Hgrid. unfold Controller.snapToFPSGridTime.
      apply snap_monotone; assumption.
  - vm_compute. reflexivity.
Qed.

Lemma C3_right_handle_limit_witness :
  let clip := ResizeScenario.video 0 1 4 (Some 6) in
  Item.end_ (ResizeScenario.right_trim clip) <= Item.start clip + 6.
Proof.
  pose proof (C3_right_handle_limit Demo.scope (ResizeScenario.video 0 1 4 (Some 6))
                ResizeScenario.no_timing (ResizeScenario.px (3 + 10))
                eq_refl eq_refl I) as H.
  cbv zeta in H.
  destruct H as [_ [_ [H _] ] ].
  apply (H 6); [reflexivity |].
  vm_compute. reflexivity.
Defined.

(** ** Dragging a keyframe *)

Lemma inject_Z_minus (x y : Z) : inject_Z (x - y) = inject_Z x - inject_Z y.
Proof.
  unfold Z.sub. rewrite inject_Z_plus, inject_Z_opp. reflexivity.
Qed.

Lemma floor_minus_one (x : Q) : Qfloor (x - 1) = (Qfloor x - 1)%Z.
Proof.
  pose proof (Qfloor_le x) as Hf. pose proof (Qlt_floor x) as Hc.
  rewrite inject_Z_plus in Hc. change (inject_Z 1) with 1 in Hc.
  apply floor_unique; rewrite inject_Z_minus; change (inject_Z 1) with 1; lra.
Qed.

#[export] Instance Math_floor_proper : Proper (Qeq ==> eq) JS.Math_floor.
Proof.
  intros x y H. unfold JS.Math_floor. now rewrite H.
Qed.

(** C4, the code against the claim.  The directive takes the frame of the
    snapped time with [Math.floor] from a rounded product, and the last
    valid time from a rounded difference, so the frame it commits can lie
    one below the frame of the snapped time.
    (1) In scenario 5 the drag to the pixel of 2.0 s commits frame 49 by
    [update_clip_data(copy, false, true, false, tx)], followed by
    [FinalizeKeyframeDrag].
    (2) At 25 fps and 100 pixels per second the keyframe at frame 25 is
    released at 116 px.  The proposed time is the double [1.16], the grid
    time of frame 30, which [previewFrame] shows for it; [1.16 * 25] is
    computed as [28.999999999999996] and frame 29 is committed.
    (3) At 24 fps, for a clip that ends at [8/24] s, [floor(end * F)] is 8,
    but the last valid time [end - 1/F] is computed as
    [0.29166666666666663], its product with the frame rate as
    [6.999999999999999], and a drag to the far right stops at frame 7. *)
Theorem C4_keyframe_drag_floors_rounded_product :
  KeyframeDirective.stop Scenario5.scope "clip" "C" 25 (Some "tx"%string)
    Scenario5.left
  = (49%Z, Scenario5.scope,
     [update_clip_data (Scenario5.clip_with 49) false true false
        (Some "tx"%string);
      FinalizeKeyframeDrag "clip" "C"],
     Returned)
  /\ (let scope := KeyframeRounding.scope25 in
      let obj := Scenario5.clip_with 25 in
      KeyframeDirective.locateObject scope "clip" "C" = Some obj
      /\ KeyframeDirective.proposedSeconds scope obj KeyframeRounding.left
         = Double.num (29 / 25)
      /\ Playback.previewFrame scope (Double.num (29 / 25)) = Some 30%Z
      /\ Double.mul (Double.num (29 / 25)) (KeyframeDirective.fps scope)
         = 8162774324609023 # 281474976710656
      /\ KeyframeDirective.stop scope "clip" "C" 25 (Some "tx"%string)
           KeyframeRounding.left
         = (29%Z, scope,
            [update_clip_data (Scenario5.clip_with 29) false true false
               (Some "tx"%string);
             FinalizeKeyframeDrag "clip" "C"],
            Returned))
  /\ (let scope := KeyframeRounding.scope24 in
      let obj := KeyframeRounding.short_clip 2 in
      let bounds := KeyframeDirective.getBounds scope obj in
      KeyframeDirective.Bounds.start bounds = 0
      /\ KeyframeDirective.Bounds.end_ bounds = Double.num (8 / 24)
      /\ JS.Math_floor (Double.mul (KeyframeDirective.Bounds.end_ bounds)
                          (KeyframeDirective.fps scope)) = 8%Z
      /\ KeyframeDirective.exclusiveMaxSec scope bounds
         = 2627099782632789 # 9007199254740992
      /\ KeyframeDirective.exclusiveMaxSec scope bounds < Double.num (7 / 24)
      /\ Double.mul (KeyframeDirective.exclusiveMaxSec scope bounds)
           (KeyframeDirective.fps scope)
         = 7881299347898367 # 1125899906842624
      /\ KeyframeDirective.proposedFrame scope obj KeyframeRounding.far_right = 7%Z
      /\ forall frame,
           (0 <= frame <= 8)%Z ->
           KeyframeDirective.secondsToFrame scope
             (KeyframeDirective.snapClampExclusive scope
                (Double.div (inject_Z frame) (KeyframeDirective.fps scope)) bounds)
             bounds
           <> 8%Z).
Proof.
  split; [vm_compute; reflexivity | split].
  - cbv zeta. repeat split; vm_compute; reflexivity.
  - cbv zeta.
    split; [vm_compute; reflexivity |].
    split; [vm_compute; reflexivity |].
    split; [vm_compute; reflexivity |].
    split; [vm_compute; reflexivity |].
    split; [vm_compute; reflexivity |].
    split; [vm_compute; reflexivity |].
    split; [vm_compute; reflexivity |].
    intros frame H.
    assert (C : (frame = 0 \/ frame = 1 \/ frame = 2 \/ frame = 3 \/ frame = 4
                 \/ frame = 5 \/ frame = 6 \/ frame = 7 \/ frame = 8)%Z) by lia.
    repeat (destruct C as [-> | C]; [vm_compute; discriminate |]).
    subst frame. vm_compute. discriminate.
Qed.

(** ** Resampling a waveform *)

Section Resample.

Import ResampleSpec.

Lemma nth_map_seq {A : Type} (f : nat -> A) (n i : nat) (dflt : A) :
  (i < n)%nat -> nth i (map f (seq 0 n)) dflt = f i.
Proof.
  intro H. rewrite (nth_indep _ dflt (f 0%nat)) by (now rewrite length_map, length_seq).
  rewrite (map_nth f (seq 0 n) 0%nat i). now rewrite seq_nth.
Qed.

Lemma finite_nth (samples : list Q) (k : nat) :
  Waveform.finite_or (nth k (map JS.Finite samples) JS.NonFinite) 0
  = nth k samples 0.
Proof.
  revert k. induction samples as [| q samples IH]; intros [| k]; cbn; auto.
Qed.

Lemma finite_nth_in_range (samples : list Q) (k : nat) (fallback : Q) :
  (k < List.length samples)%nat ->
  Waveform.finite_or (nth k (map JS.Finite samples) JS.NonFinite) fallback
  = nth k samples 0.
Proof.
  revert k. induction samples as [| q samples IH]; intros [| k] H; cbn in *;
    try lia; auto. apply IH. lia.
Qed.

Lemma nth_finite (samples : list Q) (k : nat) :
  (k < List.length samples)%nat ->
  nth k (map JS.Finite samples) JS.NonFinite = JS.Finite (nth k samples 0).
Proof.
  intro H. rewrite (nth_indep _ JS.NonFinite (JS.Finite 0))
    by (now rewrite length_map).
  apply (map_nth JS.Finite).
Qed.

(** The loop body computes the interpolated value. *)
Lemma resample_at_lerp (samples : list Q) (newLength i : nat) :
  samples <> [] ->
  Waveform.resample_at (map JS.Finite samples) newLength i
  = JS.Finite (lerp samples (source_pos (List.length samples) newLength i)).
Proof.
  intro Hne. unfold Waveform.resample_at, lerp, source_pos, JS.Math_floor.
  cbv zeta. rewrite length_map. rewrite finite_nth.
  rewrite finite_nth_in_range; [reflexivity |].
  destruct samples; [congruence | cbn [List.length]; lia].
Qed.

(** At a whole position the curve goes through the sample, when the sample
    is a double. *)
Lemma lerp_at_sample (samples : list Q) (i : nat) :
  Double.fl (nth i samples 0) = nth i samples 0 ->
  lerp samples (inject_Z (Z.of_nat i)) = nth i samples 0.
Proof.
  intro Hd. unfold lerp. cbv zeta.
  rewrite Qfloor_Z, Nat2Z.id.
  generalize (nth (Nat.min (List.length samples - 1) (i + 1)) samples 0).
  revert Hd. generalize (nth i samples 0). intros v0 Hd v1.
  assert (F : Double.sub (inject_Z (Z.of_nat i)) (inject_Z (Z.of_nat i)) = 0).
  { unfold Double.sub. rewrite (fl_proper _ 0) by ring. reflexivity. }
  rewrite F.
  assert (M : Double.mul (Double.sub v1 v0) 0 = 0).
  { unfold Double.mul. rewrite (fl_proper _ 0) by ring. reflexivity. }
  rewrite M.
  unfold Double.add. rewrite (fl_proper (v0 + 0) v0) by ring. exact Hd.
Qed.

Lemma source_pos_first (len newLength : nat) :
  source_pos len newLength 0 = inject_Z (Z.of_nat 0).
Proof.
  unfold source_pos. destruct (Nat.eqb newLength 1).
  - unfold Double.mul. rewrite (fl_proper _ 0) by ring. reflexivity.
  - unfold Double.div.
    rewrite (fl_proper (inject_Z (Z.of_nat 0) / inject_Z (Z.of_nat (newLength - 1))) 0)
      by (cbn; unfold Qdiv; ring).
    change (Double.fl 0) with 0.
    unfold Double.mul. rewrite (fl_proper _ 0) by ring. reflexivity.
Qed.

Lemma source_pos_last (len newLength : nat) :
  (2 <= newLength)%nat -> (Z.of_nat len < 2 ^ 53)%Z ->
  source_pos len newLength (newLength - 1) = inject_Z (Z.of_nat (len - 1)).
Proof.
  intros Hn Hl. unfold source_pos.
  destruct (Nat.eqb_spec newLength 1) as [E | _]; [lia |].
  assert (P : 0 < inject_Z (Z.of_nat (newLength - 1))).
  { change 0 with (inject_Z 0). rewrite <- Zlt_Qlt. lia. }
  unfold Double.div.
  rewrite (fl_proper (inject_Z (Z.of_nat (newLength - 1))
                      / inject_Z (Z.of_nat (newLength - 1))) 1)
    by (field; lra).
  change (Double.fl 1) with 1.
  unfold Double.mul.
  rewrite (fl_proper (1 * inject_Z (Z.of_nat (len - 1)))
             (inject_Z (Z.of_nat (len - 1)))) by ring.
  apply fl_integer. lia.
Qed.

End Resample.

Section ResampleResult.

Import ResampleSpec.

Lemma resample_result (samples : list Q) (originalDuration newDuration : Q) :
  samples <> [] -> 0 < originalDuration -> 0 < newDuration ->
  let len := List.length samples in
  let newLength := resampled_length len originalDuration newDuration in
  exists result,
    Waveform.resampleWaveform (map JS.Finite samples)
      (JS.Finite originalDuration) (JS.Finite newDuration)
    = Some (map JS.Finite result)
    /\ List.length result = newLength
    /\ (1 <= newLength)%nat
    /\ (newLength = len -> result = samples)
    /\ (newLength <> len ->
        result = map (fun i => lerp samples (source_pos len newLength i))
                   (seq 0 newLength)).
Proof.
  intros Hne Ho Hn. cbv zeta. unfold resampled_length.
  destruct samples as [| q rest]; [congruence |].
  unfold Waveform.resampleWaveform. cbn [map].
  apply leb_false in Ho. apply leb_false in Hn. rewrite Ho, Hn. cbn [orb].
  change (JS.Finite q :: map JS.Finite rest) with (map JS.Finite (q :: rest)).
  rewrite length_map.
  set (samples := q :: rest) in *.
  destruct (Nat.eqb_spec (List.length samples) 1) as [L1 | L1].
  - assert (rest = []) by (destruct rest; [reflexivity | cbn in L1; lia]). subst rest.
    exists [q].
    split; [reflexivity | split; [reflexivity | split; [lia | split] ] ].
    + intros _. reflexivity.
    + intro H. cbn in H. lia.
  - set (newLength := Z.to_nat _).
    assert (H1 : (1 <= newLength)%nat) by (unfold newLength; lia).
    destruct (Nat.eqb_spec newLength (List.length samples)) as [L2 | L2].
    + exists samples.
      split; [reflexivity | split; [now symmetry | split; [exact H1 | split] ] ].
      * intros _. reflexivity.
      * intro H. contradiction.
    + exists (map (fun i => lerp samples (source_pos (List.length samples) newLength i))
                (seq 0 newLength)).
      split; [| split; [| split; [| split] ] ].
      * f_equal. rewrite map_map. apply map_ext. intro i.
        apply resample_at_lerp. discriminate.
      * now rewrite length_map, length_seq.
      * exact H1.
      * intro. contradiction.
      * reflexivity.
Qed.

End ResampleResult.

(** C9, as stated, fails: the result is never empty.  Two samples retimed
    from 10 s to 1 s give [round(2 * 1/10) = 0], yet one sample comes back;
    and a single sample retimed from 1 s to 3 s stays a single sample,
    though [round(1 * 3/1) = 3]. *)
Lemma C9_length_is_at_least_one :
  (exists result,
      Waveform.resampleWaveform [JS.Finite 1; JS.Finite 2]
        (JS.Finite 10) (JS.Finite 1) = Some result
      /\ List.length result = 1%nat
      /\ JS.Math_round (inject_Z 2 * (1 / 10)) = 0%Z)
  /\ (exists result,
         Waveform.resampleWaveform [JS.Finite 1] (JS.Finite 1) (JS.Finite 3)
         = Some result
         /\ List.length result = 1%nat
         /\ JS.Math_round (inject_Z 1 * (3 / 1)) = 3%Z).
Proof.
  split; eexists; (split; [vm_compute; reflexivity | split; reflexivity]).
Qed.

(** C9, amended.  For a non-empty array of finite samples and positive
    durations [resampleWaveform] returns an array of finite samples whose
    length is 1 for a single sample and otherwise
    [max(1, round(originalLength * (newDuration / originalDuration)))], the
    quotient and the product being doubles.  When that is the original
    length the result is a copy; otherwise sample [i] is the linear
    interpolation [value0 + (value1 - value0) * frac], computed in doubles,
    of the two original samples around the position
    [i / (newLength - 1) * (originalLength - 1)].  An 800-sample waveform
    retimed from 4 s to 2 s gives 400 samples, sample [i] interpolated from
    [samples[floor(i * 799/399)]] and its successor.  The rounding of the
    product shows in the length: 27 samples retimed from 6 s to 13 s give
    58 samples, [27 * (13/6)] being computed as [58.49999999999999], where
    [round(27 * 13 / 6)] is 59. *)
Theorem C9_resampleWaveform (samples : list Q) (originalDuration newDuration : Q) :
  samples <> [] -> 0 < originalDuration -> 0 < newDuration ->
  let len := List.length samples in
  let newLength :=
    ResampleSpec.resampled_length len originalDuration newDuration in
  (exists result,
      Waveform.resampleWaveform (map JS.Finite samples)
        (JS.Finite originalDuration) (JS.Finite newDuration)
      = Some (map JS.Finite result)
      /\ List.length result = newLength
      /\ (1 <= newLength)%nat
      /\ (newLength = len -> result = samples)
      /\ (newLength <> len ->
          forall i, (i < newLength)%nat ->
                    nth i result 0
                    = ResampleSpec.lerp samples
                        (ResampleSpec.source_pos len newLength i)))
  /\ (len = 800%nat -> originalDuration == 4 -> newDuration == 2 ->
      newLength = 400%nat
      /\ forall i, (i < 400)%nat ->
                   Qfloor (ResampleSpec.source_pos len newLength i)
                   = Qfloor (inject_Z (Z.of_nat i) * (799 / 399)))
  /\ (Double.mul 27 (Double.div 13 6) = 8233143068786687 # 140737488355328
      /\ JS.Math_round (27 * (13 / 6)) = 59%Z
      /\ exists result,
           Waveform.resampleWaveform (map JS.Finite (ResampleSpec.ramp 27))
             (JS.Finite 6) (JS.Finite 13) = Some result
           /\ List.length result = 58%nat).
Proof.
  intros Hne Ho Hn. cbv zeta. split; [| split].
  - destruct (resample_result samples originalDuration newDuration Hne Ho Hn)
      as [result [Hres [Hlen [H1 [Hcopy Hval] ] ] ] ].
    exists result.
    split; [exact Hres | split; [exact Hlen | split; [exact H1 | split; [exact Hcopy |] ] ] ].
    intros Hd i Hi. rewrite (Hval Hd). rewrite nth_map_seq by exact Hi.
    reflexivity.
  - intros L Eo En.
    assert (E : ResampleSpec.resampled_length (List.length samples)
                  originalDuration newDuration = 400%nat).
    { unfold ResampleSpec.resampled_length. rewrite L.
      unfold Double.div.
      rewrite (fl_proper (newDuration / originalDuration) (2 / 4))
        by (rewrite Eo, En; reflexivity).
      vm_compute. reflexivity. }
    split; [exact E |].
    intros i Hi. rewrite E, L.
    assert (A : forallb
                  (fun i => Z.eqb (Qfloor (ResampleSpec.source_pos 800 400 i))
                              (Qfloor (inject_Z (Z.of_nat i) * (799 / 399))))
                  (seq 0 400) = true) by (vm_compute; reflexivity).
    rewrite forallb_forall in A. apply Z.eqb_eq. apply A. apply in_seq. lia.
  - split; [vm_compute; reflexivity | split; [vm_compute; reflexivity |] ].
    eexists. split; [vm_compute; reflexivity | reflexivity].
Qed.

Lemma C9_resampleWaveform_witness :
  exists result,
    Waveform.resampleWaveform
      (map JS.Finite [0; 1; 4; 9]) (JS.Finite 4) (JS.Finite 2)
    = Some (map JS.Finite result)
    /\ List.length result = 2%nat.
Proof.
  destruct (proj1 (C9_resampleWaveform [0; 1; 4; 9] 4 2
                     ltac:(discriminate) eq_refl eq_refl))
    as [result [H1 [H2 _] ] ].
  exists result. split; [exact H1 | exact H2].
Defined.

(** ** Snapping *)

Section Nearby.

Variable threshold : Q.

Lemma select_step_no_origin (st : Controller.Nearest.t) (d : Controller.Diff.t) :
  SnapSpec.no_origin st -> SnapSpec.no_origin (Controller.select_step threshold st d).
Proof.
  intro H. unfold Controller.select_step. cbv zeta.
  destruct (JS.ltb _ _ && JS.leb _ _ && Controller.truthy (Controller.Diff.position d)) eqn:E;
    [| exact H].
  right. cbn. apply andb_true_iff in E. destruct E as [_ E].
  unfold Controller.truthy in E. apply negb_true_iff in E.
  now apply eqb_false in E.
Qed.

Lemma select_loop_no_origin (diffs : list Controller.Diff.t) (st : Controller.Nearest.t) :
  SnapSpec.no_origin st -> SnapSpec.no_origin (fold_left (Controller.select_step threshold) diffs st).
Proof.
  revert st. induction diffs as [| d diffs IH]; intros st H; cbn [fold_left].
  - exact H.
  - apply IH. apply select_step_no_origin. exact H.
Qed.

(** An entry at pixel 0, like an entry beyond the threshold, is skipped. *)
Lemma select_step_skips (st : Controller.Nearest.t) (d : Controller.Diff.t) :
  (Qabs (Controller.Diff.diff d) <= threshold -> Controller.Diff.position d == 0) ->
  Controller.select_step threshold st d = st.
Proof.
  intro H. unfold Controller.select_step. cbv zeta.
  destruct (JS.leb (JS.Math_abs (Controller.Diff.diff d)) threshold) eqn:E.
  - apply leb_true in E. specialize (H E). apply eqb_true in H.
    unfold Controller.truthy. rewrite H. cbn [negb].
    now rewrite !andb_false_r.
  - now rewrite andb_false_r.
Qed.

Lemma select_loop_skips (diffs : list Controller.Diff.t) (st : Controller.Nearest.t) :
  (forall d, In d diffs -> Qabs (Controller.Diff.diff d) <= threshold -> Controller.Diff.position d == 0) ->
  fold_left (Controller.select_step threshold) diffs st = st.
Proof.
  revert st. induction diffs as [| d diffs IH]; intros st H; cbn [fold_left].
  - reflexivity.
  - rewrite select_step_skips by (apply H; now left).
    apply IH. intros d' Hin. apply H. now right.
Qed.

Lemma select_loop_ignores_origin (diffs : list Controller.Diff.t) (st : Controller.Nearest.t) :
  fold_left (Controller.select_step threshold) diffs st
  = fold_left (Controller.select_step threshold)
      (filter (fun d => Controller.truthy (Controller.Diff.position d)) diffs) st.
Proof.
  revert st. induction diffs as [| d diffs IH]; intro st; cbn [fold_left filter].
  - reflexivity.
  - destruct (Controller.truthy (Controller.Diff.position d)) eqn:E; cbn [fold_left].
    + apply IH.
    + rewrite select_step_skips; [apply IH |].
      intros _. unfold Controller.truthy in E. apply negb_false_iff in E.
      now apply eqb_true in E.
Qed.

Variable scope : Scope.t.
Variable targets : list Q.
Variable ignore_ids : list string.
Variable includeKeyframeSnaps : bool.

Lemma positions_loop_no_origin (pixel_positions : list Q) (diffs : list Controller.Diff.t)
    (st : Controller.Nearest.t) :
  SnapSpec.no_origin st ->
  SnapSpec.no_origin (Controller.positions_loop scope targets threshold ignore_ids
               includeKeyframeSnaps pixel_positions diffs st).
Proof.
  revert diffs st.
  induction pixel_positions as [| position rest IH]; intros diffs st H;
    cbn [Controller.positions_loop].
  - exact H.
  - apply IH. apply select_loop_no_origin. exact H.
Qed.

Lemma positions_loop_skips (pixel_positions : list Q) (diffs : list Controller.Diff.t)
    (st : Controller.Nearest.t) :
  (forall d,
      In d (diffs ++ Controller.all_diffs scope targets threshold ignore_ids
                       includeKeyframeSnaps pixel_positions) ->
      Qabs (Controller.Diff.diff d) <= threshold -> Controller.Diff.position d == 0) ->
  Controller.positions_loop scope targets threshold ignore_ids
    includeKeyframeSnaps pixel_positions diffs st = st.
Proof.
  revert diffs st.
  induction pixel_positions as [| position rest IH]; intros diffs st H;
    cbn [Controller.positions_loop].
  - reflexivity.
  - unfold Controller.all_diffs in H. cbn [flat_map] in H.
    rewrite app_assoc in H.
    rewrite select_loop_skips.
    + apply IH. exact H.
    + intros d Hin. apply H. apply in_or_app. now left.
Qed.

End Nearby.

(** C10.  [getNearbyPosition] never reports a target at pixel 0: either the
    reported position differs from 0, or the result is the "nothing found"
    pair [(0, 0)].  Entries at pixel 0 do not take part in the selection
    (the loop gives the same result with and without them), so when every
    target within the threshold lies at pixel 0 the result is [(0, 0)].
    With a clip edge at pixel 0 three pixels from the candidate and the
    playhead 9.5 pixels away, the playhead wins; with only the origin in
    reach, offset 0 and position 0 come back. *)
Theorem C10_no_snap_to_origin (scope : Scope.t) (pixel_positions : list Q)
    (threshold : Q) (ignore_ids : list string) (includeKeyframes : bool) :
  let r := Controller.getNearbyPosition scope pixel_positions threshold
             ignore_ids includeKeyframes in
  (~ snd r == 0 \/ r = (0, 0))
  /\ ((forall d,
          In d (Controller.all_diffs scope
                  (Controller.keyframeTargets scope includeKeyframes)
                  threshold ignore_ids includeKeyframes pixel_positions) ->
          Qabs (Controller.Diff.diff d) <= threshold ->
          Controller.Diff.position d == 0) ->
      r = (0, 0))
  /\ (forall diffs st,
         fold_left (Controller.select_step threshold) diffs st
         = fold_left (Controller.select_step threshold)
             (filter (fun d => Controller.truthy (Controller.Diff.position d)) diffs)
             st)
  /\ (fst (SnapScenario.nearby 0) == - (19 # 2)
      /\ snd (SnapScenario.nearby 0) == 25 # 2)
  /\ Controller.getNearbyPosition Demo.scope [3] 10 [] false = (0, 0).
Proof.
  cbv zeta. unfold Controller.getNearbyPosition, Controller.nearby_scan. cbv zeta.
  split; [| split; [| split; [| split] ] ].
  - destruct (positions_loop_no_origin threshold scope
                (Controller.keyframeTargets scope includeKeyframes) ignore_ids
                includeKeyframes pixel_positions [] SnapSpec.untouched
                (or_introl eq_refl)) as [E | N].
    + right. unfold SnapSpec.untouched in E. rewrite E. reflexivity.
    + left. exact N.
  - intro H.
    rewrite (positions_loop_skips threshold scope
               (Controller.keyframeTargets scope includeKeyframes) ignore_ids
               includeKeyframes pixel_positions [] (Controller.Nearest.mk 900 900 0) H).
    reflexivity.
  - intros diffs st. apply select_loop_ignores_origin.
  - split; vm_compute; reflexivity.
  - vm_compute. reflexivity.
Qed.

(** ** The retime preview *)

(** The mapping that [getKeyframes] applies in retime mode. *)
Lemma mapSecondsToDisplay_retime (object : Item.t) (seconds : Q) :
  Controller.is_retime object = true ->
  (0 < Controller.projectedDuration object ->
   0 < Controller.displayDuration object ->
   Controller.mapSecondsToDisplay object seconds
   = Controller.previewDisplayStart object
     + ((seconds - Controller.previewProjectedStart object)
        / Controller.projectedDuration object)
       * Controller.displayDuration object)
  /\ (Controller.projectedDuration object == 0
      \/ Controller.displayDuration object == 0 ->
      Controller.mapSecondsToDisplay object seconds
      = Controller.previewDisplayStart object).
Proof.
  intro Hr. unfold Controller.mapSecondsToDisplay. rewrite Hr. cbn [negb].
  split.
  - intros Hp Hd. apply gtb_true in Hp. apply gtb_true in Hd.
    rewrite Hp, Hd. reflexivity.
  - intros [H | H].
    + assert (E : JS.gtb (Controller.projectedDuration object) 0 = false)
        by (apply gtb_false; lra).
      rewrite E. reflexivity.
    + assert (E : JS.gtb (Controller.displayDuration object) 0 = false)
        by (apply gtb_false; lra).
      rewrite E. now rewrite orb_true_r.
Qed.

(** The mapping that [renderKeyframePreview] applies when it has one. *)
Lemma render_mappedSeconds_retime (scope : Scope.t) (clip : Item.t)
    (preview : Preview.t) (frameValue : Q) :
  ClipDirective.hasRetimeMapping clip preview = true ->
  ClipDirective.render_mappedSeconds scope clip preview frameValue
  = ClipDirective.render_displayStart clip preview
    + (((frameValue - 1) / ClipDirective.render_fps scope
        - ClipDirective.render_originalStart clip preview)
       / ClipDirective.render_originalDuration clip preview)
      * ClipDirective.render_displayDuration clip preview.
Proof.
  intro H. unfold ClipDirective.render_mappedSeconds. now rewrite H.
Qed.

(** Without a mapping the renderer leaves every keyframe at its own seconds:
    in the cases in which [getKeyframes] returns [displayStart]. *)
Lemma render_mappedSeconds_unmapped (scope : Scope.t) (clip : Item.t)
    (preview : Preview.t) (frameValue : Q) :
  ClipDirective.render_originalDuration clip preview == 0
  \/ ClipDirective.render_displayDuration clip preview == 0 ->
  ClipDirective.render_mappedSeconds scope clip preview frameValue
  = (frameValue - 1) / ClipDirective.render_fps scope.
Proof.
  intro H. unfold ClipDirective.render_mappedSeconds, ClipDirective.hasRetimeMapping.
  destruct H as [H | H].
  - assert (E : JS.gtb (ClipDirective.render_originalDuration clip preview) 0 = false)
      by (apply gtb_false; lra).
    rewrite E. now rewrite andb_false_r.
  - assert (E : JS.gtb (ClipDirective.render_displayDuration clip preview) 0 = false)
      by (apply gtb_false; lra).
    rewrite E. now rewrite andb_false_r.
Qed.

(** C5 holds for the keyframe enumeration and fails in the renderer.  In a
    retime preview whose display window is empty ([displayStart =
    displayEnd = 0], original window [0, 4], 24 fps), [getKeyframes] maps
    the keyframe of frame 49 to [displayStart], but [renderKeyframePreview]
    leaves it at its own 2 seconds and puts the icon 13 pixels to the right
    instead of at pixel 0. *)
Theorem C5_renderer_does_not_collapse :
  let clip := RetimeScenario.clip 0 0 in
  let preview := RetimeScenario.preview 0 0 in
  Controller.is_retime clip = true
  /\ Controller.displayDuration clip == 0
  /\ ClipDirective.render_displayDuration clip preview == 0
  /\ Controller.mapSecondsToDisplay clip RetimeScenario.frameSeconds
     == Controller.previewDisplayStart clip
  /\ ClipDirective.render_mappedSeconds Demo.scope clip preview RetimeScenario.frame
     == 2
  /\ ~ ClipDirective.render_mappedSeconds Demo.scope clip preview RetimeScenario.frame
       == ClipDirective.render_displayStart clip preview
  /\ ClipDirective.renderKeyframePreview Demo.scope clip [RetimeScenario.frame]
     = Some [13%Z].
Proof.
  cbv zeta. repeat split; try (vm_compute; reflexivity).
  intro H. vm_compute in H. discriminate.
Qed.

(** ** Applying a JSON diff *)

(** A property name that the current object does not have leaves the walk
    where it is. *)
Lemma walk_step_unknown_name (project : JsonDiff.json) (w : JsonDiff.Walk.t)
    (name : string) (fields : list (string * JsonDiff.json)) :
  JsonDiff.get (JsonDiff.Walk.current_object w) project = Some (JsonDiff.JObj fields) ->
  JsonDiff.lookup_field name fields = None ->
  JsonDiff.walk_step project w (JsonDiff.KName name) = w.
Proof.
  intros Hget Hlook. unfold JsonDiff.walk_step. now rewrite Hget, Hlook.
Qed.

(** A selector that matches no child leaves the walk at the array. *)
Lemma walk_step_unknown_id (project : JsonDiff.json) (w : JsonDiff.Walk.t)
    (id : JsonDiff.json) (items : list JsonDiff.json) :
  JsonDiff.get (JsonDiff.Walk.current_object w) project = Some (JsonDiff.JArr items) ->
  JsonDiff.find_child id items = None ->
  JsonDiff.walk_step project w (JsonDiff.KSel (Some id))
  = JsonDiff.Walk.mk (JsonDiff.Walk.previous_object w)
      (JsonDiff.Walk.current_object w) (List.length items)
      (JsonDiff.Walk.current_key w).
Proof.
  intros Hget Hfind. unfold JsonDiff.walk_step. now rewrite Hget, Hfind.
Qed.

(** So an update under a property that the project does not have is an
    update of the project itself. *)
Lemma update_unknown_property_merges (fields updates : list (string * JsonDiff.json))
    (name : string) :
  JsonDiff.lookup_field name fields = None ->
  JsonDiff.apply_action (JsonDiff.JObj fields)
    (JsonDiff.Action.mk JsonDiff.update [JsonDiff.KName name] (JsonDiff.JObj updates))
  = Some (JsonDiff.JObj
            (fold_left (fun fs kv => JsonDiff.set_field (fst kv) (snd kv) fs)
               updates fields)).
Proof.
  intro H. unfold JsonDiff.apply_action, JsonDiff.walk.
  cbn [JsonDiff.Action.key fold_left].
  rewrite (walk_step_unknown_name (JsonDiff.JObj fields)
             (JsonDiff.Walk.mk None [] 0 "") name fields eq_refl H).
  reflexivity.
Qed.

(** C6 does not hold of the code.  A key level that finds nothing does not
    skip the action: the walk stays where it is and the action is applied
    there.  Deleting the clip with the unknown id "missing" deletes the
    whole [clips] array; updating it replaces the array by the value; and
    updating under an unknown property merges the value into the project
    root. *)
Theorem C6_unmatched_key_is_applied :
  JsonDiff.walk DiffScenario.project DiffScenario.missing_clip
  = JsonDiff.Walk.mk (Some []) [JsonDiff.SKey "clips"] 1 "clips"
  /\ JsonDiff.applyJsonDiff DiffScenario.project [DiffScenario.delete_missing]
     = JsonDiff.Returned
         (JsonDiff.JObj [("duration"%string, JsonDiff.JNum 300);
                         ("effects"%string, JsonDiff.JArr [])])
  /\ JsonDiff.applyJsonDiff DiffScenario.project [DiffScenario.update_missing]
     = JsonDiff.Returned
         (JsonDiff.JObj
            [("duration"%string, JsonDiff.JNum 300);
             ("clips"%string, JsonDiff.JObj [("position"%string, JsonDiff.JNum 3)]);
             ("effects"%string, JsonDiff.JArr [])])
  /\ JsonDiff.applyJsonDiff DiffScenario.project
       [DiffScenario.update_unknown_property]
     = JsonDiff.Returned
         (JsonDiff.JObj
            [("duration"%string, JsonDiff.JNum 10);
             ("clips"%string, JsonDiff.JArr [DiffScenario.clipA]);
             ("effects"%string, JsonDiff.JArr [])])
  /\ JsonDiff.applyJsonDiff DiffScenario.project [DiffScenario.delete_missing]
     <> JsonDiff.Returned DiffScenario.project.
Proof.
  repeat split; try (vm_compute; reflexivity).
  vm_compute. discriminate.
Qed.

(** ** Ripple selection *)

(** When the call gets as far as the ALT test, it is the ripple branch. *)
Lemma selectItem_ripple (scope : Scope.t) (dom : Controller.Dom.t)
    (item_id : string) (item_type : ItemType) (clear_selections : bool)
    (event : option Controller.Event.t) (force_ripple : bool) :
  let id := Str.remove_first item_id (String.append (type_name item_type) "_") in
  let is_ctrl := match event with
                 | Some e => Controller.Event.ctrlKey e | None => false end in
  let is_alt := match event with
                | Some e => Controller.Event.altKey e | None => false end in
  Scope.dragging scope = false ->
  id <> ""%string ->
  Scope.enable_razor scope = false ->
  is_alt || force_ripple = true ->
  Controller.selectItem scope dom item_id item_type clear_selections event
    force_ripple
  = Controller.select_ripple scope item_type id clear_selections is_ctrl.
Proof.
  cbv zeta. intros Hd Hid Hr Halt. unfold Controller.selectItem.
  rewrite Hd, Hr. cbn [andb].
  destruct (String.eqb_spec
              (Str.remove_first item_id (String.append (type_name item_type) "_"))
              "") as [E | _]; [contradiction |].
  now rewrite Halt.
Qed.

Lemma forEach_ripple_selected (scope : Scope.t) (kind : string) (layer : Z)
    (position : Q) (items : list Item.t) (item : Item.t) :
  In item (fst (Controller.forEach
                  (Controller.ripple_select scope kind layer position) items)) ->
  Item.layer item = layer -> position <= Item.position item ->
  Item.selected item = true.
Proof.
  cbn [Controller.forEach fst]. intros Hin HL HP.
  apply in_map_iff in Hin. destruct Hin as [c [<- _] ].
  unfold Controller.ripple_select in *.
  destruct (Z.eqb (Item.layer c) layer && JS.geb (Item.position c) position) eqn:E.
  - reflexivity.
  - cbn [fst] in *. apply Z.eqb_eq in HL. apply geb_true in HP.
    rewrite HL, HP in E. discriminate.
Qed.

(** The part of C7 that the code does: every clip and transition of the
    anchor's layer at or after the anchor ends up selected, and
    [lastSelectedItem] is left as it was. *)
Lemma select_ripple_selects (scope : Scope.t) (item_type : ItemType) (id : string)
    (clear_selections is_ctrl : bool) (anchor : Item.t) :
  (item_type = ty_clip
   /\ Controller.find_by_id id (Project.clips (Scope.project scope)) = Some anchor)
  \/ (item_type = ty_transition
      /\ Controller.find_by_id id (Project.effects (Scope.project scope))
         = Some anchor) ->
  let scope' :=
    fst (Controller.select_ripple scope item_type id clear_selections is_ctrl) in
  (forall item,
      In item (Project.clips (Scope.project scope'))
      \/ In item (Project.effects (Scope.project scope')) ->
      Item.layer item = Item.layer anchor ->
      Item.position anchor <= Item.position item ->
      Item.selected item = true)
  /\ Scope.lastSelectedItem scope' = Scope.lastSelectedItem scope.
Proof.
  intros H. cbv zeta. unfold Controller.select_ripple. cbv zeta.
  assert (E : match item_type with
              | ty_clip => Controller.find_by_id id (Project.clips (Scope.project scope))
              | ty_transition =>
                  Controller.find_by_id id (Project.effects (Scope.project scope))
              | ty_effect => None
              end = Some anchor).
  { destruct H as [ [-> H] | [-> H] ]; exact H. }
  rewrite E. cbn [fst snd]. split; [| reflexivity].
  intros item [Hin | Hin]; cbn in Hin;
    eapply forEach_ripple_selected; cbn; eassumption.
Qed.

(** And no item loses its selection in the ripple branch, whatever
    [clearSelections] and CTRL are. *)
Lemma select_ripple_keeps_selected (scope : Scope.t) (item_type : ItemType)
    (id : string) (clear_selections is_ctrl : bool) :
  let scope' :=
    fst (Controller.select_ripple scope item_type id clear_selections is_ctrl) in
  map Item.id (Project.clips (Scope.project scope'))
  = map Item.id (Project.clips (Scope.project scope))
  /\ Forall2 (fun before after => Item.selected before = true ->
                                  Item.selected after = true)
       (Project.clips (Scope.project scope))
       (Project.clips (Scope.project scope')).
Proof.
  cbv zeta. unfold Controller.select_ripple. cbv zeta.
  destruct (match item_type with
            | ty_clip => Controller.find_by_id id (Project.clips (Scope.project scope))
            | ty_transition =>
                Controller.find_by_id id (Project.effects (Scope.project scope))
            | ty_effect => None
            end) as [anchor |]; cbn [fst snd Controller.forEach Controller.with_items
                                      Scope.project Scope.set_project Project.clips
                                      Project.set_items].
  - induction (Project.clips (Scope.project scope)) as [| c cs [IH1 IH2] ]; cbn [map].
    + split; [reflexivity | constructor].
    + unfold Controller.ripple_select at 1 3.
      destruct (Z.eqb _ _ && JS.geb _ _); cbn [fst Item.set_selected Item.id Item.selected];
        (split; [f_equal; exact IH1 | constructor; [auto | exact IH2] ]).
  - split; [reflexivity |].
    induction (Project.clips (Scope.project scope)); constructor; auto.
Qed.

(** C7 does not hold of the code where it says that the other items become
    unselected.  After ALT-clicking B (no CTRL, [clearSelections] true), B
    and the transition T behind it are selected and [lastSelectedItem] is
    unchanged, but A and C, which were selected before, still are: the
    clearing loops of the ripple branch only notify the host about items
    that are not selected, and here they notify nothing. *)
Theorem C7_ripple_keeps_other_selections :
  let scope' := fst RippleScenario.result in
  RippleScenario.selection (Project.clips (Scope.project RippleScenario.scope))
  = [("A"%string, true); ("B"%string, false); ("C"%string, true)]
  /\ RippleScenario.selection (Project.clips (Scope.project scope'))
     = [("A"%string, true); ("B"%string, true); ("C"%string, true)]
  /\ RippleScenario.selection (Project.effects (Scope.project scope'))
     = [("T"%string, true)]
  /\ Scope.lastSelectedItem scope' = Scope.lastSelectedItem RippleScenario.scope
  /\ snd RippleScenario.result
     = [addSelection "B" "clip" false; addSelection "T" "transition" false].
Proof.
  cbv zeta. repeat split; vm_compute; reflexivity.
Qed.

(* ================================================================== *)
(** * Further properties *)
(* ================================================================== *)

(** ** Playhead and preview frames *)

Lemma fps_pos (n d : Q) : 0 < n -> 0 < d -> 0 < n / d.
Proof.
  intros Hn Hd. unfold Qdiv. apply Qmult_lt_0_compat; [exact Hn |].
  apply Qinv_lt_0_compat, Hd.
Qed.


(** X1.  Moving the playhead to the whole frame [k] stores the time
    [(k - 1) / fps], and asking for the preview of the stored time reports
    frame [k] again. *)
Theorem X1_frame_round_trip (scope : Scope.t) (k : Z) :
  0 < Project.fps_num (Scope.project scope) ->
  0 < Project.fps_den (Scope.project scope) ->
  Scope.Qt scope = true ->
  let scope' := Playback.movePlayheadToFrame scope false (inject_Z k) in
  let playhead := Project.playhead_position (Scope.project scope') in
  playhead
  == (inject_Z k - 1)
     / (Project.fps_num (Scope.project scope) / Project.fps_den (Scope.project scope))
  /\ Playback.previewFrame scope' playhead = Some k.
Proof.
  intros Hn Hd Hqt. cbv zeta.
  set (n := Project.fps_num (Scope.project scope)) in *.
  set (d := Project.fps_den (Scope.project scope)) in *.
  unfold Playback.movePlayheadToFrame, Playback.previewFrame.
  change (Project.playhead_position
            (Scope.project (Controller.movePlayhead scope
               ((inject_Z k - 1)
                / (Project.fps_num (Scope.project scope)
                   / Project.fps_den (Scope.project scope))))))
    with (TimeMath.snapToFPSGridTime n d ((inject_Z k - 1) / (n / d))).
  change (Scope.Qt (Controller.movePlayhead scope
            ((inject_Z k - 1)
             / (Project.fps_num (Scope.project scope)
                / Project.fps_den (Scope.project scope)))))
    with (Scope.Qt scope).
  change (Project.fps_num (Scope.project (Controller.movePlayhead scope
            ((inject_Z k - 1)
             / (Project.fps_num (Scope.project scope)
                / Project.fps_den (Scope.project scope))))))
    with n.
  change (Project.fps_den (Scope.project (Controller.movePlayhead scope
            ((inject_Z k - 1)
             / (Project.fps_num (Scope.project scope)
                / Project.fps_den (Scope.project scope))))))
    with d.
  cbv zeta. rewrite Hqt.
  assert (E : (inject_Z k - 1) / (n / d) == inject_Z (k - 1) * d / n).
  { rewrite inject_Z_minus. change (inject_Z 1) with 1. field. repeat split; lra. }
  assert (S : TimeMath.snapToFPSGridTime n d ((inject_Z k - 1) / (n / d))
              == inject_Z (k - 1) * d / n).
  { rewrite E. apply snap_integer_frame; assumption. }
  split.
  - rewrite S, E. reflexivity.
  - f_equal.
    assert (R : TimeMath.snapToFPSGridTime n d ((inject_Z k - 1) / (n / d)) * (n / d)
                == inject_Z (k - 1)).
    { rewrite S. field. split; lra. }
    rewrite (Math_round_proper _ _ R), round_integer. lia.
Qed.

Lemma X1_frame_round_trip_witness :
  Playback.previewFrame
    (Playback.movePlayheadToFrame Scenario5.scope false (inject_Z 49))
    (Project.playhead_position
       (Scope.project (Playback.movePlayheadToFrame Scenario5.scope false
                         (inject_Z 49))))
  = Some 49%Z.
Proof.
  apply (X1_frame_round_trip Scenario5.scope 49); reflexivity.
Defined.



(** X3.  The timeline time that [getJavaScriptPosition] computes for a
    screen position is never negative and always lies on the frame grid. *)
Theorem X3_cursor_position_on_grid (scope : Scope.t) (dom : Controller.Dom.t) (x : Q) :
  0 < Project.fps_num (Scope.project scope) ->
  0 < Project.fps_den (Scope.project scope) ->
  0 <= Controller.getJavaScriptPosition scope dom x
  /\ on_grid scope (Controller.getJavaScriptPosition scope dom x).
Proof.
  intros Hn Hd. unfold Controller.getJavaScriptPosition. cbv zeta.
  cases_on_comparisons.
  - split; [lra |]. unfold on_grid, Controller.snapToFPSGridTime.
    change 0 with (inject_Z 0) at 1.
    assert (Z0 : inject_Z 0 == inject_Z 0
                               * Project.fps_den (Scope.project scope)
                               / Project.fps_num (Scope.project scope))
      by (field; lra).
    rewrite Z0 at 1. rewrite snap_integer_frame by assumption. now rewrite <- Z0.
  - split; [lra |]. apply snap_idempotent; assumption.
Qed.

Lemma X3_cursor_position_on_grid_witness :
  0 <= Controller.getJavaScriptPosition Demo.scope (Controller.Dom.mk 0 50) 10
  /\ on_grid Demo.scope
       (Controller.getJavaScriptPosition Demo.scope (Controller.Dom.mk 0 50) 10).
Proof.
  apply (X3_cursor_position_on_grid Demo.scope (Controller.Dom.mk 0 50) 10);
    reflexivity.
Defined.

(** ** Growing the timeline *)

Lemma furthest_fold (clips : list Item.t) (acc : Q) :
  let furthest :=
    fold_left
      (fun furthest_right_edge clip =>
         let right_edge := Item.position clip + (Item.end_ clip - Item.start clip) in
         if JS.gtb right_edge furthest_right_edge then right_edge
         else furthest_right_edge)
      clips acc in
  acc <= furthest
  /\ forall clip, In clip clips -> OverlapSpec.right clip <= furthest.
Proof.
  revert acc. induction clips as [| c rest IH]; intros acc; cbn.
  - split; [lra | intros ? []].
  - cbv zeta in IH.
    match goal with
    | |- context [fold_left ?f rest ?a] => destruct (IH a) as [Hacc Hall]
    end.
    revert Hacc Hall. cases_on_comparisons; intros Hacc Hall.
    + split; [lra |]. intros clip [<- | Hin]; [exact Hacc | apply Hall, Hin].
    + split; [lra |]. intros clip [<- | Hin]; [| apply Hall, Hin].
      unfold OverlapSpec.right. lra.
Qed.

(** X4.  With the host connected, [resizeTimeline] never shortens the
    project and never touches the clips.  A length reported to the host is
    longer than the old duration, at least 300 seconds, and at least 10
    seconds past the end of every clip.  Outside a digest the call returns,
    the reported length is the stored duration, and afterwards no clip ends
    after the project's duration.  Inside a digest, as at the calls from the
    resize handler of a clip, the host is told the length all the same, but
    the scope stays as it was and the call ends with the error of the
    nested [$apply]. *)
Theorem X4_resizeTimeline_covers_clips (scope : Scope.t) (in_digest : bool) :
  Scope.Qt scope = true ->
  let r := Timeline.resizeTimeline scope in_digest in
  let scope' := fst (fst r) in
  let told := snd (fst r) in
  let project' := Scope.project scope' in
  Project.clips project' = Project.clips (Scope.project scope)
  /\ Project.duration (Scope.project scope) <= Project.duration project'
  /\ (snd r = Returned ->
      forall clip, In clip (Project.clips project') ->
                   OverlapSpec.right clip <= Project.duration project')
  /\ (told = None -> scope' = scope /\ snd r = Returned)
  /\ (forall length, told = Some length ->
        Project.duration (Scope.project scope) < length
        /\ 300 <= length
        /\ (forall clip, In clip (Project.clips (Scope.project scope)) ->
                         OverlapSpec.right clip + 10 <= length)
        /\ (in_digest = false ->
            Project.duration project' = length /\ snd r = Returned)
        /\ (in_digest = true -> scope' = scope /\ snd r = Threw)).
Proof.
  intros Hqt. cbv zeta. unfold Timeline.resizeTimeline. cbv zeta. rewrite Hqt.
  pose proof (proj2 (furthest_fold (Project.clips (Scope.project scope)) 0)) as Hall.
  change (forall clip, In clip (Project.clips (Scope.project scope)) ->
            OverlapSpec.right clip
            <= Timeline.furthest_right_edge (Project.clips (Scope.project scope)))
    in Hall.
  revert Hall.
  generalize (Timeline.furthest_right_edge (Project.clips (Scope.project scope))).
  intros furthest Hall.
  pose proof (Math_max_ge_r 300 (furthest + 10)) as Hr.
  assert (Hl : 300 <= JS.Math_max 300 (furthest + 10)).
  { unfold JS.Math_max. cases_on_comparisons; lra. }
  destruct (JS.gtb furthest (Project.duration (Scope.project scope))) eqn:G.
  - apply gtb_true in G. destruct in_digest; cbn [fst snd].
    + split; [reflexivity |]. split; [lra |].
      split; [discriminate |]. split; [discriminate |].
      intros length [= <-].
      split; [lra |]. split; [exact Hl |].
      split; [intros clip Hin; specialize (Hall clip Hin); lra |].
      split; [discriminate |]. intros _. split; reflexivity.
    + change (Project.clips (Scope.project (Scope.set_project
                (Timeline.set_duration (JS.Math_max 300 (furthest + 10))
                   (Scope.project scope)) scope)))
        with (Project.clips (Scope.project scope)).
      change (Project.duration (Scope.project (Scope.set_project
                (Timeline.set_duration (JS.Math_max 300 (furthest + 10))
                   (Scope.project scope)) scope)))
        with (JS.Math_max 300 (furthest + 10)).
      split; [reflexivity |]. split; [lra |].
      split; [intros _ clip Hin; specialize (Hall clip Hin); lra |].
      split; [discriminate |].
      intros length [= <-].
      split; [lra |]. split; [exact Hl |].
      split; [intros clip Hin; specialize (Hall clip Hin); lra |].
      split; [intros _; split; reflexivity | discriminate].
  - apply gtb_false in G. cbn [fst snd].
    split; [reflexivity |]. split; [lra |].
    split; [intros _ clip Hin; specialize (Hall clip Hin); lra |].
    split; [intros _; split; reflexivity | discriminate].
Qed.

Lemma X4_resizeTimeline_covers_clips_witness :
  let scope := Demo.scope_with true [Demo.clip_at "A" 1 295 0 20] [] in
  Timeline.resizeTimeline scope true = (scope, Some 325, Threw)
  /\ Project.duration (Scope.project scope)
     <= Project.duration
          (Scope.project (fst (fst (Timeline.resizeTimeline scope false)))).
Proof.
  split; [vm_compute; reflexivity |].
  exact (proj1 (proj2
           (X4_resizeTimeline_covers_clips
              (Demo.scope_with true [Demo.clip_at "A" 1 295 0 20] []) false
              eq_refl))).
Defined.

(** ** Selection *)

Lemma selectItem_empty_id (scope : Scope.t) (dom : Controller.Dom.t) (ty : ItemType) :
  Scope.dragging scope = false ->
  Controller.selectItem scope dom "" ty true None false
  = Controller.select_clear_all scope ty.
Proof.
  intros H. unfold Controller.selectItem. rewrite H. destruct ty; reflexivity.
Qed.

Lemma select_clear_all_keeps (scope : Scope.t) (ty : ItemType) :
  Scope.dragging (fst (Controller.select_clear_all scope ty)) = Scope.dragging scope
  /\ Scope.lastSelectedItem (fst (Controller.select_clear_all scope ty))
     = Scope.lastSelectedItem scope.
Proof.
  destruct ty; split; reflexivity.
Qed.

(** X5.  When no drag is going on, [clearAllSelections] leaves no clip, no
    transition and no effect of a clip selected; it keeps the items and
    their order, and the last selected item. *)
Theorem X5_clearAllSelections_clears (scope : Scope.t) (dom : Controller.Dom.t) :
  Scope.dragging scope = false ->
  let scope' := fst (Selection.clearAllSelections scope dom) in
  nothing_selected (Scope.project scope')
  /\ map Item.id (Project.clips (Scope.project scope'))
     = map Item.id (Project.clips (Scope.project scope))
  /\ map Item.id (Project.effects (Scope.project scope'))
     = map Item.id (Project.effects (Scope.project scope))
  /\ Scope.lastSelectedItem scope' = Scope.lastSelectedItem scope.
Proof.
  intros Hd. cbv zeta.
  unfold Selection.clearAllSelections, Selection.selectClip,
    Selection.selectTransition, Selection.selectEffect. cbv zeta. cbn [fst snd].
  rewrite (selectItem_empty_id scope dom ty_clip Hd).
  pose proof (select_clear_all_keeps scope ty_clip) as [Hd1 Hl1].
  set (s1 := fst (Controller.select_clear_all scope ty_clip)) in *.
  rewrite Hd in Hd1.
  rewrite (selectItem_empty_id s1 dom ty_transition Hd1).
  pose proof (select_clear_all_keeps s1 ty_transition) as [Hd2 Hl2].
  set (s2 := fst (Controller.select_clear_all s1 ty_transition)) in *.
  rewrite Hd1 in Hd2.
  rewrite (selectItem_empty_id s2 dom ty_effect Hd2).
  pose proof (select_clear_all_keeps s2 ty_effect) as [_ Hl3].
  split; [| split; [| split]].
  - split.
    + intros clip Hin. cbn in Hin.
      apply in_map_iff in Hin as [c1 [<- Hin]].
      apply in_map_iff in Hin as [c0 [<- Hin]].
      destruct c0 as [i f l p s e d sel h m r ps efs kp ad]. cbn.
      destruct efs as [effs |]; cbn.
      * split; [reflexivity |]. intros effs' eff [= <-] He.
        apply in_map_iff in He as [e0 [<- _]]. reflexivity.
      * split; [reflexivity |]. intros effs' eff [=].
    + intros tran Hin. cbn in Hin.
      apply in_map_iff in Hin as [t1 [<- _]]. reflexivity.
  - cbn. rewrite !map_map. apply map_ext. intros c.
    destruct (Item.effects (Item.set_selected false c)); reflexivity.
  - cbn. rewrite !map_map. reflexivity.
  - rewrite Hl3, Hl2, Hl1. reflexivity.
Qed.

Lemma X5_clearAllSelections_clears_witness :
  nothing_selected
    (Scope.project (fst (Selection.clearAllSelections RippleScenario.scope
                           (Controller.Dom.mk 0 0)))).
Proof.
  apply (X5_clearAllSelections_clears RippleScenario.scope (Controller.Dom.mk 0 0)).
  reflexivity.
Defined.

(** X6.  [selectAll] selects every clip and every transition and changes
    nothing else of them (in particular no effect of a clip); the host is
    told once about each item, the clips first, whether or not [Qt] is set. *)
Theorem X6_selectAll_selects_everything (scope : Scope.t) :
  let r := Selection.selectAll scope in
  let project' := Scope.project (fst r) in
  (forall item, In item (Project.clips project' ++ Project.effects project') ->
     Item.selected item = true)
  /\ map (Item.set_selected false) (Project.clips project')
     = map (Item.set_selected false) (Project.clips (Scope.project scope))
  /\ map (Item.set_selected false) (Project.effects project')
     = map (Item.set_selected false) (Project.effects (Scope.project scope))
  /\ snd r
     = map (fun id => addSelection id "clip" false)
         (map Item.id (Project.clips (Scope.project scope)))
       ++ map (fun id => addSelection id "transition" false)
            (map Item.id (Project.effects (Scope.project scope))).
Proof.
  cbv zeta. unfold Selection.selectAll. cbv zeta. cbn [fst snd].
  change (Project.clips (Scope.project (Controller.with_items scope
            (map (Item.set_selected true) (Project.clips (Scope.project scope)))
            (map (Item.set_selected true) (Project.effects (Scope.project scope))))))
    with (map (Item.set_selected true) (Project.clips (Scope.project scope))).
  change (Project.effects (Scope.project (Controller.with_items scope
            (map (Item.set_selected true) (Project.clips (Scope.project scope)))
            (map (Item.set_selected true) (Project.effects (Scope.project scope))))))
    with (map (Item.set_selected true) (Project.effects (Scope.project scope))).
  split; [| split; [| split]].
  - intros item Hin. apply in_app_or in Hin.
    destruct Hin as [Hin | Hin]; apply in_map_iff in Hin as [i0 [<- _]]; reflexivity.
  - rewrite map_map. apply map_ext. intros []; reflexivity.
  - rewrite map_map. apply map_ext. intros []; reflexivity.
  - rewrite !map_map. reflexivity.
Qed.

Lemma find_by_id_map (f : Item.t -> Item.t) (id : string) (l : list Item.t) :
  (forall x, Item.id (f x) = Item.id x) ->
  Controller.find_by_id id (map f l) = option_map f (Controller.find_by_id id l).
Proof.
  intros Hf. unfold Controller.find_by_id.
  induction l as [| x rest IH]; cbn; [reflexivity |].
  rewrite Hf. destruct (String.eqb (Item.id x) id); [reflexivity | exact IH].
Qed.

Lemma find_by_id_some (id : string) (l : list Item.t) (x : Item.t) :
  Controller.find_by_id id l = Some x -> In x l /\ Item.id x = id.
Proof.
  intros H. apply find_some in H as [Hin He].
  split; [exact Hin | now apply String.eqb_eq].
Qed.

Lemma find_by_id_in (id : string) (l : list Item.t) (x : Item.t) :
  In x l -> Item.id x = id -> exists y, Controller.find_by_id id l = Some y.
Proof.
  intros Hin He.
  destruct (Controller.find_by_id id l) as [y |] eqn:F; [now exists y |].
  pose proof (find_none _ _ F x Hin) as Hn. cbn in Hn.
  apply String.eqb_neq in Hn. contradiction.
Qed.

Lemma find_update_first (f : Item.t -> Item.t) (id : string) (l : list Item.t)
    (x : Item.t) :
  (forall y, Item.id (f y) = Item.id y) ->
  Controller.find_by_id id l = Some x ->
  Controller.find_by_id id
    (Controller.update_first (fun item => String.eqb (Item.id item) id) f l)
  = Some (f x).
Proof.
  intros Hf. unfold Controller.find_by_id.
  induction l as [| y rest IH]; cbn; [discriminate |].
  destruct (String.eqb (Item.id y) id) eqn:E; cbn.
  - intros [= <-]. now rewrite Hf, E.
  - rewrite E. exact IH.
Qed.

Lemma update_first_ids (f : Item.t -> Item.t) (test : Item.t -> bool)
    (l : list Item.t) :
  (forall y, Item.id (f y) = Item.id y) ->
  map Item.id (Controller.update_first test f l) = map Item.id l.
Proof.
  intros Hf. induction l as [| y rest IH]; cbn; [reflexivity |].
  destruct (test y); cbn; [now rewrite Hf | now rewrite IH].
Qed.

(** With distinct ids, [update_first] changes the item with the id and
    nothing else. *)
Lemma update_first_in (f : Item.t -> Item.t) (id : string) (l : list Item.t)
    (y : Item.t) :
  NoDup (map Item.id l) ->
  In y (Controller.update_first (fun item => String.eqb (Item.id item) id) f l) ->
  (In y l /\ Item.id y <> id) \/ (exists x, In x l /\ Item.id x = id /\ y = f x).
Proof.
  induction l as [| x rest IH]; cbn; [intros _ [] |].
  intros Hnd Hin. inversion Hnd as [| ? ? Hnotin Hnd']; subst.
  destruct (String.eqb (Item.id x) id) eqn:E.
  - apply String.eqb_eq in E. destruct Hin as [<- | Hin].
    + right. exists x. auto.
    + left. split; [now right |]. intros Hy. apply Hnotin.
      rewrite E, <- Hy. now apply in_map.
  - apply String.eqb_neq in E. destruct Hin as [<- | Hin].
    + left. split; [now left | exact E].
    + destruct (IH Hnd' Hin) as [[Hin' Hne] | [x0 [Hin' [He Hy]]]].
      * left. split; [now right | exact Hne].
      * right. exists x0. split; [now right | split; assumption].
Qed.

Lemma clear_clip_id (scope : Scope.t) (clip : Item.t) :
  Item.id (fst (Controller.clear_clip scope clip)) = Item.id clip.
Proof. reflexivity. Qed.

Lemma clear_clip_cleared (scope : Scope.t) (clip : Item.t) :
  Item.selected (fst (Controller.clear_clip scope clip)) = false
  /\ forall effs eff,
       Item.effects (fst (Controller.clear_clip scope clip)) = Some effs ->
       In eff effs -> Effect.selected eff = false.
Proof.
  split; [reflexivity |]. cbn. intros effs eff H Hin.
  destruct (Item.effects clip) as [l |]; cbn in H; [| discriminate].
  injection H as <-. apply in_map_iff in Hin as [e0 [<- _]]. reflexivity.
Qed.

(** X7.  A plain click on a clip (no modifier key, [clear_selections] set,
    no drag, razor off) leaves that clip as the only selected clip, and no
    transition and no effect of a clip selected; the clip becomes the last
    selected item, and with a host the last call is [addSelection] for it. *)
Theorem X7_plain_click_selects_one (scope : Scope.t) (dom : Controller.Dom.t)
    (item_id : string) (event : Controller.Event.t) (clip : Item.t) :
  Scope.dragging scope = false ->
  Scope.enable_razor scope = false ->
  Controller.Event.ctrlKey event = false ->
  Controller.Event.shiftKey event = false ->
  Controller.Event.altKey event = false ->
  Str.remove_first item_id "clip_" <> ""%string ->
  NoDup (map Item.id (Project.clips (Scope.project scope))) ->
  In clip (Project.clips (Scope.project scope)) ->
  Item.id clip = Str.remove_first item_id "clip_" ->
  let r := Controller.selectItem scope dom item_id ty_clip true (Some event) false in
  let project' := Scope.project (fst r) in
  (forall c, In c (Project.clips project') ->
     Item.selected c = String.eqb (Item.id c) (Item.id clip)
     /\ forall effs eff, Item.effects c = Some effs -> In eff effs ->
          Effect.selected eff = false)
  /\ (forall t, In t (Project.effects project') -> Item.selected t = false)
  /\ map Item.id (Project.clips project')
     = map Item.id (Project.clips (Scope.project scope))
  /\ Scope.lastSelectedItem (fst r) = Some (ty_clip, Item.id clip)
  /\ (Scope.Qt scope = true ->
      exists calls, snd r = calls ++ [addSelection (Item.id clip) "clip" false]).
Proof.
  intros Hdrag Hrazor Hctrl Hshift Halt Hne Hnd Hin Hid. cbv zeta.
  unfold Controller.selectItem.
  change (String.append (type_name ty_clip) "_") with "clip_"%string.
  rewrite Hdrag, Hrazor, Hctrl, Hshift, Halt, <- Hid.
  rewrite <- Hid in Hne. apply String.eqb_neq in Hne. rewrite Hne.
  cbn [andb orb].
  unfold Controller.select_plain. cbn [andb negb].
  unfold Controller.forEach. cbn [fst snd].
  change (type_name ty_clip) with "clip"%string.
  set (clips1 := map (fun x => fst (Controller.clear_clip scope x))
                   (Project.clips (Scope.project scope))).
  set (effects1 :=
         map (fun x => fst (Controller.clear_transition scope "effect" x))
           (map (fun x => fst (Controller.clear_transition scope "transition" x))
              (Project.effects (Scope.project scope)))).
  destruct (find_by_id_in _ _ _ Hin eq_refl) as [c0 F0].
  assert (F1 : Controller.find_by_id (Item.id clip) clips1
               = Some (fst (Controller.clear_clip scope c0))).
  { unfold clips1.
    rewrite (find_by_id_map (fun x => fst (Controller.clear_clip scope x)))
      by (intro; reflexivity).
    now rewrite F0. }
  rewrite F1. cbn [fst snd].
  set (clips2 := Controller.update_first
                   (fun item0 => String.eqb (Item.id item0) (Item.id clip))
                   (fun item0 => Item.set_selected true item0) clips1).
  assert (F2 : Controller.find_by_id (Item.id clip) clips2
               = Some (Item.set_selected true (fst (Controller.clear_clip scope c0)))).
  { unfold clips2.
    apply (find_update_first (fun item0 => Item.set_selected true item0));
      [intro; reflexivity | exact F1]. }
  assert (Hfound : Controller.found
                     (Scope.project (Controller.with_items scope clips2 effects1))
                     ty_clip (Item.id clip) = true).
  { unfold Controller.found, Controller.lookup_last. cbn [fst snd].
    change (Project.clips (Scope.project (Controller.with_items scope clips2 effects1)))
      with clips2.
    now rewrite F2. }
  rewrite Hfound.
  change (Project.clips (Scope.project (Scope.set_lastSelectedItem
            (Some (ty_clip, Item.id clip))
            (Controller.with_items scope clips2 effects1))))
    with clips2.
  change (Project.effects (Scope.project (Scope.set_lastSelectedItem
            (Some (ty_clip, Item.id clip))
            (Controller.with_items scope clips2 effects1))))
    with effects1.
  assert (Hids1 : map Item.id clips1 = map Item.id (Project.clips (Scope.project scope))).
  { unfold clips1. rewrite map_map. reflexivity. }
  split; [| split; [| split; [| split]]].
  - intros c Hc. unfold clips2 in Hc.
    apply update_first_in in Hc; [| rewrite Hids1; exact Hnd].
    destruct Hc as [[Hc Hcid] | [x [Hx [Hxid ->]]]].
    + apply String.eqb_neq in Hcid. rewrite Hcid.
      apply in_map_iff in Hc as [x [<- _]]. apply clear_clip_cleared.
    + apply in_map_iff in Hx as [x0 [<- _]].
      split.
      * cbn. cbn in Hxid. rewrite Hxid. symmetry. apply String.eqb_refl.
      * apply (proj2 (clear_clip_cleared scope x0)).
  - intros t Ht. unfold effects1 in Ht.
    apply in_map_iff in Ht as [t0 [<- _]]. reflexivity.
  - unfold clips2. rewrite update_first_ids by (intro; reflexivity). exact Hids1.
  - reflexivity.
  - intros Hqt. apply find_by_id_some in F0 as [_ F0].
    change (Item.id (fst (Controller.clear_clip scope c0))) with (Item.id c0).
    rewrite F0.
    change (Controller.when_Qt scope (addSelection (Item.id clip) "clip" false))
      with (if Scope.Qt scope then [addSelection (Item.id clip) "clip" false]
            else []).
    rewrite Hqt. eexists. reflexivity.
Qed.

Lemma X7_plain_click_selects_one_witness :
  Scope.lastSelectedItem
    (fst (Controller.selectItem RippleScenario.scope RippleScenario.dom
            "clip_B" ty_clip true
            (Some (Controller.Event.mk false false false 40)) false))
  = Some (ty_clip, "B"%string).
Proof.
  apply (X7_plain_click_selects_one RippleScenario.scope RippleScenario.dom
           "clip_B" (Controller.Event.mk false false false 40)
           RippleScenario.clipB); try reflexivity.
  - discriminate.
  - repeat constructor; cbn; intuition discriminate.
  - cbn. auto.
Defined.

Lemma update_first_involutive {A : Type} (test : A -> bool) (f : A -> A)
    (l : list A) :
  (forall x, f (f x) = x) -> (forall x, test (f x) = test x) ->
  Controller.update_first test f (Controller.update_first test f l) = l.
Proof.
  intros Hf Ht. induction l as [| x rest IH]; cbn; [reflexivity |].
  destruct (test x) eqn:E; cbn.
  - now rewrite Ht, E, Hf.
  - now rewrite E, IH.
Qed.

Lemma update_first_none (f : Item.t -> Item.t) (id : string) (l : list Item.t) :
  Controller.find_by_id id l = None ->
  Controller.update_first (fun item => String.eqb (Item.id item) id) f l = l.
Proof.
  unfold Controller.find_by_id.
  induction l as [| x rest IH]; cbn; [reflexivity |].
  destruct (String.eqb (Item.id x) id); [discriminate |].
  intros H. now rewrite IH.
Qed.

Lemma find_effect_update_first (f : Effect.t -> Effect.t) (id : string)
    (l : list Effect.t) (x : Effect.t) :
  (forall y, Effect.id (f y) = Effect.id y) ->
  Controller.find_effect id l = Some x ->
  Controller.find_effect id
    (Controller.update_first (fun e => String.eqb (Effect.id e) id) f l)
  = Some (f x).
Proof.
  intros Hf. unfold Controller.find_effect.
  induction l as [| y rest IH]; cbn; [discriminate |].
  destruct (String.eqb (Effect.id y) id) eqn:E; cbn.
  - intros [= <-]. now rewrite Hf, E.
  - rewrite E. exact IH.
Qed.

Lemma find_nested_update (f : Effect.t -> Effect.t) (id : string)
    (clips : list Item.t) :
  (forall y, Effect.id (f y) = Effect.id y) ->
  Controller.find_nested id (Controller.update_nested id f clips)
  = option_map f (Controller.find_nested id clips).
Proof.
  intros Hf. induction clips as [| c rest IH]; cbn; [reflexivity |].
  destruct (Item.effects c) as [effs |] eqn:Ec.
  - destruct (Controller.find_effect id effs) as [e |] eqn:Fe; cbn.
    + now rewrite (find_effect_update_first f id effs e Hf Fe).
    + now rewrite Ec, Fe.
  - cbn. now rewrite Ec.
Qed.

Lemma update_nested_involutive (f : Effect.t -> Effect.t) (id : string)
    (clips : list Item.t) :
  (forall e, f (f e) = e) -> (forall y, Effect.id (f y) = Effect.id y) ->
  Controller.update_nested id f (Controller.update_nested id f clips) = clips.
Proof.
  intros Hff Hf. induction clips as [| c rest IH]; cbn; [reflexivity |].
  destruct (Item.effects c) as [effs |] eqn:Ec.
  - destruct (Controller.find_effect id effs) as [e |] eqn:Fe; cbn.
    + rewrite (find_effect_update_first f id effs e Hf Fe).
      rewrite update_first_involutive;
        [| exact Hff | intro x; now rewrite Hf].
      destruct c; cbn in *. now subst.
    + now rewrite Ec, Fe, IH.
  - cbn. now rewrite Ec, IH.
Qed.

Lemma toggle_involutive (item : Item.t) :
  Item.set_selected (negb (Item.selected (Item.set_selected
                                            (negb (Item.selected item)) item)))
    (Item.set_selected (negb (Item.selected item)) item)
  = item.
Proof.
  destruct item as [i f l p s e d sel h m r ps efs kp ad]. cbn.
  now rewrite Bool.negb_involutive.
Qed.

Lemma toggle_effect_involutive (eff : Effect.t) :
  Effect.set_selected (negb (Effect.selected (Effect.set_selected
                                                (negb (Effect.selected eff)) eff)))
    (Effect.set_selected (negb (Effect.selected eff)) eff)
  = eff.
Proof.
  destruct eff as [i t sel ps]. cbn. now rewrite Bool.negb_involutive.
Qed.

Ltac simpl_selection :=
  cbn -[Controller.find_by_id Controller.find_nested Controller.update_first
        Controller.update_nested Controller.find_effect].

(** A CTRL click toggles; a second one on the same project undoes it. *)
Lemma select_plain_ctrl_twice (scope : Scope.t) (ty : ItemType) (id : string)
    (last : option (ItemType * string)) :
  Scope.project
    (fst (Controller.select_plain
            (Scope.set_lastSelectedItem last
               (fst (Controller.select_plain scope ty id true true)))
            ty id true true))
  = Scope.project scope.
Proof.
  pose proof (fun l => update_first_involutive
                (fun item => String.eqb (Item.id item) id)
                (fun item => Item.set_selected (negb (Item.selected item)) item) l
                toggle_involutive (fun x => eq_refl)) as Hinv.
  pose proof (find_update_first
                (fun item => Item.set_selected (negb (Item.selected item)) item) id)
    as Hfind.
  destruct scope as [p pps qt dr rz tm flt lst].
  destruct p as [n d dur sc tp ph cs es ls ms].
  unfold Controller.select_plain, Controller.with_items. simpl_selection.
  destruct ty.
  - destruct (Controller.find_by_id id cs) as [c |] eqn:F; simpl_selection.
    + rewrite (Hfind cs c (fun y => eq_refl) F). simpl_selection. now rewrite Hinv.
    + now rewrite F.
  - destruct (Controller.find_by_id id es) as [c |] eqn:F; simpl_selection.
    + rewrite (Hfind es c (fun y => eq_refl) F). simpl_selection. now rewrite Hinv.
    + now rewrite F.
  - destruct (Controller.find_by_id id es) as [c |] eqn:F; simpl_selection.
    + rewrite (Hfind es c (fun y => eq_refl) F). simpl_selection. now rewrite Hinv.
    + destruct (Controller.find_nested id cs) as [e |] eqn:Fn; simpl_selection.
      * rewrite F. rewrite find_nested_update by (intro; reflexivity).
        rewrite Fn. simpl_selection.
        rewrite update_nested_involutive;
          [reflexivity | apply toggle_effect_involutive | intro; reflexivity].
      * now rewrite F, Fn.
Qed.

Lemma select_plain_keeps (scope : Scope.t) (ty : ItemType) (id : string)
    (clear_selections is_ctrl : bool) :
  let scope' := fst (Controller.select_plain scope ty id clear_selections is_ctrl) in
  Scope.dragging scope' = Scope.dragging scope
  /\ Scope.enable_razor scope' = Scope.enable_razor scope
  /\ Scope.Qt scope' = Scope.Qt scope.
Proof.
  unfold Controller.select_plain. cbv zeta.
  destruct ty;
    repeat match goal with
      | |- context [Controller.find_by_id ?i ?l] =>
          destruct (Controller.find_by_id i l)
      | |- context [Controller.find_nested ?i ?l] =>
          destruct (Controller.find_nested i l)
      end; repeat split; reflexivity.
Qed.

(** X8.  A CTRL click on an item toggles it and a second CTRL click undoes
    the first: after the two clicks the project is what it was.  A single
    CTRL click inverts the selection of the clicked clip. *)
Theorem X8_ctrl_click_twice (scope : Scope.t) (dom : Controller.Dom.t)
    (item_id : string) (ty : ItemType) (event : Controller.Event.t) :
  Scope.dragging scope = false ->
  Scope.enable_razor scope = false ->
  Controller.Event.ctrlKey event = true ->
  Controller.Event.shiftKey event = false ->
  Controller.Event.altKey event = false ->
  let id := Str.remove_first item_id (String.append (type_name ty) "_") in
  id <> ""%string ->
  let click s := fst (Controller.selectItem s dom item_id ty true (Some event) false) in
  Scope.project (click (click scope)) = Scope.project scope
  /\ (forall clip,
        ty = ty_clip ->
        Controller.find_by_id id (Project.clips (Scope.project scope)) = Some clip ->
        Controller.find_by_id id (Project.clips (Scope.project (click scope)))
        = Some (Item.set_selected (negb (Item.selected clip)) clip)).
Proof.
  intros Hdrag Hrazor Hctrl Hshift Halt id Hne click.
  assert (Hclick : forall s,
             Scope.dragging s = false -> Scope.enable_razor s = false ->
             exists last,
               click s = Scope.set_lastSelectedItem last
                           (fst (Controller.select_plain s ty id true true))).
  { intros s Hd Hr. unfold click, Controller.selectItem. fold id.
    rewrite Hd, Hr, Hctrl, Hshift, Halt.
    apply String.eqb_neq in Hne. rewrite Hne. cbn [andb orb fst snd].
    destruct ty; eexists; reflexivity. }
  destruct (Hclick scope Hdrag Hrazor) as [last1 E1].
  destruct (select_plain_keeps scope ty id true true) as [Kd [Kr _]].
  cbv zeta in Kd, Kr.
  destruct (Hclick (click scope)) as [last2 E2].
  { rewrite E1. cbn. now rewrite Kd. }
  { rewrite E1. cbn. now rewrite Kr. }
  split.
  - rewrite E2. rewrite E1 at 1.
    change (Scope.project (Scope.set_lastSelectedItem last2 ?s))
      with (Scope.project s).
    apply select_plain_ctrl_twice.
  - intros clip -> F. rewrite E1.
    change (Scope.project (Scope.set_lastSelectedItem last1 ?s))
      with (Scope.project s).
    unfold Controller.select_plain. simpl_selection. rewrite F.
    change (Project.clips (Scope.project (fst (Controller.with_items scope ?c ?e, ?x))))
      with c.
    apply (find_update_first
             (fun item => Item.set_selected (negb (Item.selected item)) item));
      [intro; reflexivity | exact F].
Qed.

Lemma X8_ctrl_click_twice_witness :
  let click s :=
    fst (Controller.selectItem s RippleScenario.dom "clip_B" ty_clip true
           (Some (Controller.Event.mk true false false 40)) false) in
  Scope.project (click (click RippleScenario.scope))
  = Scope.project RippleScenario.scope.
Proof.
  apply (X8_ctrl_click_twice RippleScenario.scope RippleScenario.dom "clip_B"
           ty_clip (Controller.Event.mk true false false 40));
    try reflexivity.
  discriminate.
Defined.







(** ** The keyframes of an item *)

Lemma storeKeyframe_above (l : list (Q * KeyframeEntry.t)) (frame f0 : Q)
    (data : KeyframeEntry.t) :
  f0 < frame ->
  Forall (fun b => f0 < fst b) l ->
  Forall (fun b => f0 < fst b) (Controller.storeKeyframe l frame data).
Proof.
  intros Hlt. induction l as [| [f e] rest IH]; cbn; intros Hall.
  - constructor; [exact Hlt | constructor].
  - inversion Hall as [| ? ? Hf Hrest]; subst.
    destruct (JS.eqb f frame).
    + destruct (KeyframeEntry.selected data && negb (KeyframeEntry.selected e)).
      * constructor; assumption.
      * exact Hall.
    + destruct (JS.ltb frame f).
      * constructor; [exact Hlt | exact Hall].
      * constructor; [exact Hf | apply IH, Hrest].
Qed.

Lemma storeKeyframe_sorted (l : list (Q * KeyframeEntry.t)) (frame : Q)
    (data : KeyframeEntry.t) :
  StronglySorted (fun a b => fst a < fst b) l ->
  StronglySorted (fun a b => fst a < fst b) (Controller.storeKeyframe l frame data).
Proof.
  induction l as [| [f e] rest IH]; cbn; intros Hs.
  - repeat constructor.
  - inversion Hs as [| ? ? Hrest Hall]; subst.
    destruct (JS.eqb f frame) eqn:Ee.
    + destruct (KeyframeEntry.selected data && negb (KeyframeEntry.selected e)).
      * constructor; assumption.
      * exact Hs.
    + apply eqb_false in Ee. destruct (JS.ltb frame f) eqn:El.
      * apply ltb_true in El. constructor; [exact Hs |].
        constructor; [exact El |].
        eapply Forall_impl; [| exact Hall]. cbn. intros b Hb. lra.
      * apply ltb_false in El. constructor; [apply IH, Hrest |].
        apply storeKeyframe_above; [| exact Hall]. cbn.
        destruct (Qlt_le_dec f frame) as [L | G]; [exact L |].
        exfalso. apply Ee. lra.
Qed.

Lemma storeKeyframe_inv (K : Q -> Prop) (E : KeyframeEntry.t -> Prop)
    (l : list (Q * KeyframeEntry.t)) (frame : Q) (data : KeyframeEntry.t) :
  K frame -> E data ->
  Forall (fun fe => K (fst fe) /\ E (snd fe)) l ->
  Forall (fun fe => K (fst fe) /\ E (snd fe)) (Controller.storeKeyframe l frame data).
Proof.
  intros HK HE. induction l as [| [f e] rest IH]; cbn; intros Hall.
  - constructor; [split; assumption | constructor].
  - inversion Hall as [| ? ? [Hf He] Hrest]; subst.
    destruct (JS.eqb f frame).
    + destruct (KeyframeEntry.selected data && negb (KeyframeEntry.selected e)).
      * constructor; [split; assumption | exact Hrest].
      * exact Hall.
    + destruct (JS.ltb frame f).
      * constructor; [split; assumption | exact Hall].
      * constructor; [split; assumption | apply IH, Hrest].
Qed.

Section KeyframeInvariant.

Variable scope : Scope.t.
Variable object : Item.t.

Let keyframes_ok := KeyframeSpec.keyframes_ok scope object.

Lemma own_point_ok (keyframes : list (Q * KeyframeEntry.t)) (p : Point.t) :
  keyframes_ok keyframes ->
  keyframes_ok (Controller.own_point scope object keyframes p).
Proof.
  intros [Hs Ha]. unfold Controller.own_point. cbv zeta.
  destruct (Controller.preview object) as [pv |] eqn:Ep; cbn [orb].
  - split; [apply storeKeyframe_sorted, Hs |].
    apply storeKeyframe_inv; [| | exact Ha].
    + intros H. rewrite Ep in H. discriminate.
    + split; [reflexivity |]. intros H. rewrite Ep in H. discriminate.
  - destruct (Controller.isInsideClip scope object
                ((Point.X p - 1) / Controller.frames_per_second scope)) eqn:W;
      [| split; assumption].
    split; [apply storeKeyframe_sorted, Hs |].
    apply storeKeyframe_inv; [| | exact Ha].
    + intros _. exact W.
    + split; [reflexivity |]. intros _. cbn.
      unfold Controller.isInsidePreview. rewrite Ep. exact W.
Qed.

Lemma effect_point_ok (eff : Effect.t) (keyframes : list (Q * KeyframeEntry.t))
    (p : Point.t) :
  keyframes_ok keyframes ->
  keyframes_ok (Controller.effect_point scope object eff keyframes p).
Proof.
  intros [Hs Ha]. unfold Controller.effect_point. cbv zeta.
  destruct (Controller.preview object) as [pv |] eqn:Ep; cbn [orb].
  - split; [apply storeKeyframe_sorted, Hs |].
    apply storeKeyframe_inv; [| | exact Ha].
    + intros H. rewrite Ep in H. discriminate.
    + split; [reflexivity |]. intros H. rewrite Ep in H. discriminate.
  - destruct (Controller.isInsideClip scope object
                ((Point.X p - 1) / Controller.frames_per_second scope)) eqn:W;
      [| split; assumption].
    split; [apply storeKeyframe_sorted, Hs |].
    apply storeKeyframe_inv; [| | exact Ha].
    + intros _. exact W.
    + split; [reflexivity |]. intros _. cbn.
      unfold Controller.isInsidePreview. rewrite Ep. exact W.
Qed.

Lemma fold_ok {A : Type} (step : list (Q * KeyframeEntry.t) -> A ->
                                 list (Q * KeyframeEntry.t)) (l : list A) :
  (forall keyframes a, keyframes_ok keyframes -> keyframes_ok (step keyframes a)) ->
  forall keyframes, keyframes_ok keyframes -> keyframes_ok (fold_left step l keyframes).
Proof.
  intros Hstep. induction l as [| a rest IH]; cbn; intros keyframes Hk;
    [exact Hk | apply IH, Hstep, Hk].
Qed.

Lemma prop_step_ok (point : list (Q * KeyframeEntry.t) -> Point.t ->
                            list (Q * KeyframeEntry.t))
    (keyframes : list (Q * KeyframeEntry.t)) (child : string * Keyframed.t) :
  (forall keyframes p, keyframes_ok keyframes -> keyframes_ok (point keyframes p)) ->
  keyframes_ok keyframes ->
  keyframes_ok (Controller.prop_step scope point keyframes child).
Proof.
  intros Hp Hk. unfold Controller.prop_step.
  destruct (negb (Controller.passes_filter scope (fst child))); [exact Hk |].
  cbv zeta. apply fold_ok; [exact Hp |]. apply fold_ok; [exact Hp | exact Hk].
Qed.

Lemma getKeyframes_ok : keyframes_ok (Controller.getKeyframes scope object).
Proof.
  assert (Hnil : keyframes_ok []) by (split; constructor).
  unfold Controller.getKeyframes. cbv zeta.
  match goal with |- context [if ?b then [] else _] => destruct b end;
    [exact Hnil |].
  assert (Hown : keyframes_ok
                   (fold_left (Controller.prop_step scope
                                 (Controller.own_point scope object))
                      (Item.props object) [])).
  { apply fold_ok; [| exact Hnil].
    intros k a Hk. apply prop_step_ok; [apply own_point_ok | exact Hk]. }
  destruct (Item.effects object) as [effects |]; [| exact Hown].
  apply fold_ok; [| exact Hown].
  intros k eff Hk. apply fold_ok; [| exact Hk].
  intros k' a Hk'. apply prop_step_ok; [apply effect_point_ok | exact Hk'].
Qed.

End KeyframeInvariant.

(** X10.  In the mapping that [getKeyframes] returns no two entries share a
    frame (the frames ascend strictly), every entry is selected exactly
    when its owner is selected and the keyframe lies inside the preview
    window, and, when no preview is active, every stored keyframe lies
    inside the clip's [start, end] window widened by the frame tolerance
    and is marked as inside the preview. *)
Theorem X10_getKeyframes_entries (scope : Scope.t) (object : Item.t) :
  let keyframes := Controller.getKeyframes scope object in
  StronglySorted (fun a b => fst a < fst b) keyframes
  /\ forall frame entry, In (frame, entry) keyframes ->
       KeyframeEntry.selected entry
       = KeyframeEntry.baseSelected entry && KeyframeEntry.insidePreview entry
       /\ (Controller.preview object = None ->
           KeyframeEntry.insidePreview entry = true
           /\ let seconds := (frame - 1) / Controller.frames_per_second scope in
              Controller.clip_start_sec object - Controller.frameTolerance scope
              <= seconds
              <= Controller.clip_end_sec object + Controller.frameTolerance scope).
Proof.
  cbv zeta. destruct (getKeyframes_ok scope object) as [Hs Ha].
  split; [exact Hs |]. intros frame entry Hin.
  rewrite Forall_forall in Ha. destruct (Ha _ Hin) as [Hf [He1 He2]].
  cbn [fst snd] in *. split; [exact He1 |]. intros Hp.
  split; [apply He2, Hp |].
  specialize (Hf Hp). unfold Controller.isInsideClip, Controller.isInside in Hf.
  apply andb_true_iff in Hf as [H1 H2].
  apply geb_true in H1. apply leb_true in H2. split; assumption.
Qed.

Lemma Math_max_zero_pos (x : Q) : 0 < JS.Math_max x 0 -> JS.Math_max x 0 = x.
Proof.
  unfold JS.Math_max. destruct (JS.ltb x 0) eqn:E; [| reflexivity].
  intros H. lra.
Qed.

Lemma frameTolerance_pos (scope : Scope.t) : 0 < Controller.frameTolerance scope.
Proof.
  unfold Controller.frameTolerance, JS.Math_max, Controller.EPSILON.
  cases_on_comparisons; lra.
Qed.

(** X11.  In a retime preview with a projected and a display window of
    positive length, [mapSecondsToDisplay] is the increasing linear map
    that carries the projected window onto the display window; a keyframe
    inside the projected window is therefore inside the preview. *)
Theorem X11_retime_maps_window_onto_window (scope : Scope.t) (object : Item.t) :
  Controller.is_retime object = true ->
  0 < Controller.projectedDuration object ->
  0 < Controller.displayDuration object ->
  let f := Controller.mapSecondsToDisplay object in
  f (Controller.previewProjectedStart object) == Controller.previewDisplayStart object
  /\ f (Controller.previewProjectedEnd object) == Controller.previewDisplayEnd object
  /\ (forall s t, s <= t -> f s <= f t)
  /\ (forall s,
        Controller.previewProjectedStart object <= s
        <= Controller.previewProjectedEnd object ->
        Controller.previewDisplayStart object <= f s
        <= Controller.previewDisplayEnd object
        /\ Controller.isInsidePreview scope object s = true).
Proof.
  intros Hr Hp Hd. cbv zeta.
  pose proof (fun s => proj1 (mapSecondsToDisplay_retime object s Hr) Hp Hd) as Hmap.
  assert (Ep : Controller.previewProjectedEnd object
               - Controller.previewProjectedStart object
               == Controller.projectedDuration object).
  { unfold Controller.projectedDuration at 1.
    now rewrite (Math_max_zero_pos _ Hp). }
  assert (Ed : Controller.previewDisplayEnd object
               - Controller.previewDisplayStart object
               == Controller.displayDuration object).
  { unfold Controller.displayDuration at 1.
    now rewrite (Math_max_zero_pos _ Hd). }
  pose proof (frameTolerance_pos scope) as Htol.
  assert (Hk : 0 < / Controller.projectedDuration object)
    by (apply Qinv_lt_0_compat, Hp).
  assert (Hmono : forall s t, s <= t ->
             Controller.mapSecondsToDisplay object s
             <= Controller.mapSecondsToDisplay object t).
  { intros s t Hst. rewrite !Hmap. unfold Qdiv.
    apply Qplus_le_r. apply Qmult_le_compat_r; [| lra].
    apply Qmult_le_compat_r; lra. }
  assert (Hstart : Controller.mapSecondsToDisplay object
                     (Controller.previewProjectedStart object)
                   == Controller.previewDisplayStart object).
  { rewrite Hmap. field. lra. }
  assert (Hend : Controller.mapSecondsToDisplay object
                   (Controller.previewProjectedEnd object)
                 == Controller.previewDisplayEnd object).
  { rewrite Hmap. rewrite Ep.
    setoid_replace (Controller.projectedDuration object
                    / Controller.projectedDuration object) with 1 by (field; lra).
    lra. }
  split; [exact Hstart | split; [exact Hend | split; [exact Hmono |]]].
  intros s [Hlo Hhi].
  pose proof (Hmono _ _ Hlo) as H1. pose proof (Hmono _ _ Hhi) as H2.
  rewrite Hstart in H1. rewrite Hend in H2.
  split; [split; assumption |].
  unfold Controller.isInsidePreview.
  unfold Controller.is_retime in Hr.
  destruct (Controller.preview object) as [pv |]; [| discriminate].
  rewrite Hr. unfold Controller.isInside.
  apply andb_true_iff. split; [apply geb_true | apply leb_true]; lra.
Qed.

Lemma X11_retime_maps_window_onto_window_witness :
  let clip := RetimeScenario.clip 0 2 in
  Controller.mapSecondsToDisplay clip (Controller.previewProjectedEnd clip)
  == Controller.previewDisplayEnd clip.
Proof.
  apply (X11_retime_maps_window_onto_window Demo.scope (RetimeScenario.clip 0 2));
    reflexivity.
Defined.

(** ** The nearest snap target *)

Section NearestTarget.

Variable threshold : Q.

(** An entry that the winner selection may choose. *)
Let eligible (d : Controller.Diff.t) : Prop :=
  Qabs (Controller.Diff.diff d) <= threshold
  /\ ~ Controller.Diff.position d == 0.

(** The state is the start state or was taken from an entry of [seen]. *)
Let chosen_from (seen : list Controller.Diff.t) (st : Controller.Nearest.t) : Prop :=
  st = SnapSpec.untouched
  \/ exists d, In d seen /\ eligible d /\ Qabs (Controller.Diff.diff d) < 900
               /\ st = Controller.Nearest.mk (Controller.Diff.diff d)
                         (Qabs (Controller.Diff.diff d)) (Controller.Diff.position d).

Let at_most (seen : list Controller.Diff.t) (st : Controller.Nearest.t) : Prop :=
  forall d, In d seen -> eligible d ->
            Controller.Nearest.smallest_abs_diff st <= Qabs (Controller.Diff.diff d).

Lemma chosen_bound (seen : list Controller.Diff.t) (st : Controller.Nearest.t) :
  chosen_from seen st -> Controller.Nearest.smallest_abs_diff st <= 900.
Proof.
  intros [-> | (d & _ & _ & Hd & ->)]; cbn; lra.
Qed.

Lemma select_step_cases (st : Controller.Nearest.t) (d : Controller.Diff.t) :
  (Controller.select_step threshold st d = st
   /\ (eligible d ->
       Controller.Nearest.smallest_abs_diff st <= Qabs (Controller.Diff.diff d)))
  \/ (Controller.select_step threshold st d
      = Controller.Nearest.mk (Controller.Diff.diff d)
          (Qabs (Controller.Diff.diff d)) (Controller.Diff.position d)
      /\ eligible d
      /\ Qabs (Controller.Diff.diff d) < Controller.Nearest.smallest_abs_diff st).
Proof.
  unfold Controller.select_step, JS.Math_abs. cbv zeta.
  destruct (JS.ltb (Qabs (Controller.Diff.diff d))
              (Controller.Nearest.smallest_abs_diff st)) eqn:E1; cbn [andb].
  - destruct (JS.leb (Qabs (Controller.Diff.diff d)) threshold) eqn:E2; cbn [andb].
    + destruct (Controller.truthy (Controller.Diff.position d)) eqn:E3.
      * right. apply ltb_true in E1. apply leb_true in E2.
        unfold Controller.truthy in E3. apply negb_true_iff, eqb_false in E3.
        repeat split; assumption.
      * left. split; [reflexivity |]. intros [_ H].
        unfold Controller.truthy in E3. apply negb_false_iff, eqb_true in E3.
        contradiction.
    + left. split; [reflexivity |]. intros [H _]. apply leb_false in E2. lra.
  - left. split; [reflexivity |]. intros _. apply ltb_false in E1. exact E1.
Qed.

Lemma select_loop_chosen (seen diffs : list Controller.Diff.t)
    (st : Controller.Nearest.t) :
  incl diffs seen -> chosen_from seen st ->
  chosen_from seen (fold_left (Controller.select_step threshold) diffs st).
Proof.
  revert st. induction diffs as [| d diffs IH]; intros st Hincl Hst; cbn [fold_left];
    [exact Hst |].
  apply IH; [intros x Hx; apply Hincl; now right |].
  destruct (select_step_cases st d) as [[-> _] | (-> & He & Hlt)]; [exact Hst |].
  right. exists d. pose proof (chosen_bound seen st Hst) as Hb.
  repeat split; try apply He; [apply Hincl; now left | lra].
Qed.

Lemma select_loop_decreases (diffs : list Controller.Diff.t)
    (st : Controller.Nearest.t) :
  Controller.Nearest.smallest_abs_diff
    (fold_left (Controller.select_step threshold) diffs st)
  <= Controller.Nearest.smallest_abs_diff st.
Proof.
  revert st. induction diffs as [| d diffs IH]; intros st; cbn [fold_left]; [lra |].
  specialize (IH (Controller.select_step threshold st d)).
  destruct (select_step_cases st d) as [[E _] | (E & _ & Hlt)];
    rewrite E in IH |- *; cbn in IH; lra.
Qed.

Lemma select_loop_at_most (diffs : list Controller.Diff.t)
    (st : Controller.Nearest.t) :
  at_most diffs (fold_left (Controller.select_step threshold) diffs st).
Proof.
  revert st. induction diffs as [| d diffs IH]; intros st x Hx He; [destruct Hx |].
  cbn [fold_left]. destruct Hx as [<- | Hx]; [| now apply IH].
  pose proof (select_loop_decreases diffs (Controller.select_step threshold st d))
    as Hdec.
  destruct (select_step_cases st d) as [[E H] | (E & _ & _)];
    rewrite E in Hdec |- *.
  - specialize (H He). lra.
  - cbn in Hdec. exact Hdec.
Qed.

Variable scope : Scope.t.
Variable targets : list Q.
Variable ignore_ids : list string.
Variable includeKeyframeSnaps : bool.

Let pushed := Controller.new_diffs scope targets threshold ignore_ids
                includeKeyframeSnaps.

Lemma positions_loop_nearest (pixel_positions : list Q)
    (diffs : list Controller.Diff.t) (st : Controller.Nearest.t) :
  let seen := diffs ++ flat_map pushed pixel_positions in
  let final := Controller.positions_loop scope targets threshold ignore_ids
                 includeKeyframeSnaps pixel_positions diffs st in
  (chosen_from seen st -> chosen_from seen final)
  /\ (at_most diffs st -> at_most seen final)
  /\ Controller.Nearest.smallest_abs_diff final
     <= Controller.Nearest.smallest_abs_diff st.
Proof.
  revert diffs st.
  induction pixel_positions as [| p rest IH]; intros diffs st;
    cbn [Controller.positions_loop flat_map].
  - rewrite app_nil_r. repeat split; try tauto. lra.
  - cbv zeta. fold (pushed p).
    specialize (IH (diffs ++ pushed p)
                  (fold_left (Controller.select_step threshold) (diffs ++ pushed p) st)).
    cbv zeta in IH. rewrite <- app_assoc in IH. destruct IH as (IH1 & IH2 & IH3).
    split; [| split].
    + intros Hst. apply IH1. apply select_loop_chosen; [| exact Hst].
      intros x Hx. rewrite app_assoc. apply in_or_app. now left.
    + intros _. apply IH2. apply select_loop_at_most.
    + pose proof (select_loop_decreases (diffs ++ pushed p) st). lra.
Qed.

(** Every entry records the distance of its pixel position to its target. *)
Lemma pushed_shape (p : Q) (d : Controller.Diff.t) :
  In d (pushed p) -> Controller.Diff.diff d = p - Controller.Diff.position d.
Proof.
  assert (Hw : forall target, In d (Controller.within threshold (p - target) target) ->
                 Controller.Diff.diff d = p - Controller.Diff.position d).
  { intros target. unfold Controller.within.
    destruct (JS.leb _ _); [intros [<- | []]; reflexivity | intros []]. }
  assert (He : forall items, In d (flat_map
                 (Controller.edge_diffs scope threshold ignore_ids p) items) ->
                 Controller.Diff.diff d = p - Controller.Diff.position d).
  { intros items Hin. apply in_flat_map in Hin as [item [_ Hin]].
    unfold Controller.edge_diffs in Hin. cbv zeta in Hin.
    destruct (Controller.hasOwnProperty ignore_ids (Item.id item)); [destruct Hin |].
    apply in_app_or in Hin. destruct Hin as [Hin | Hin]; exact (Hw _ Hin). }
  unfold pushed, Controller.new_diffs. cbv zeta. intros Hin.
  repeat (apply in_app_or in Hin; destruct Hin as [Hin | Hin]).
  - exact (He _ Hin).
  - exact (He _ Hin).
  - apply in_flat_map in Hin as [m [_ Hin]]. exact (Hw _ Hin).
  - destruct (_ && _); [exact (Hw _ Hin) | destruct Hin].
  - destruct Hin as [<- | []]. reflexivity.
  - destruct includeKeyframeSnaps; [| destruct Hin].
    apply in_flat_map in Hin as [k [_ Hin]]. exact (Hw _ Hin).
Qed.

Lemma nearby_scan_nearest (pixel_positions : list Q) :
  let r := Controller.nearby_scan scope targets pixel_positions threshold ignore_ids
             includeKeyframeSnaps in
  (r = (0, 0)
   \/ exists p, In p pixel_positions /\ snd r == p - fst r
                /\ Qabs (fst r) <= threshold /\ ~ snd r == 0)
  /\ forall d,
       In d (Controller.all_diffs scope targets threshold ignore_ids
               includeKeyframeSnaps pixel_positions) ->
       Qabs (Controller.Diff.diff d) <= threshold ->
       ~ Controller.Diff.position d == 0 ->
       Qabs (Controller.Diff.diff d) < 900 ->
       Qabs (fst r) <= Qabs (Controller.Diff.diff d) /\ ~ snd r == 0.
Proof.
  cbv zeta. unfold Controller.nearby_scan. cbv zeta.
  destruct (positions_loop_nearest pixel_positions [] (Controller.Nearest.mk 900 900 0))
    as (H1 & H2 & _).
  cbv zeta in H1, H2. cbn [app] in H1, H2.
  specialize (H1 (or_introl eq_refl)).
  specialize (H2 (fun d (H : In d []) _ => match H with end)).
  set (final := Controller.positions_loop scope targets threshold ignore_ids
                  includeKeyframeSnaps pixel_positions []
                  (Controller.Nearest.mk 900 900 0)) in *.
  assert (Hwin : forall d,
             final = Controller.Nearest.mk (Controller.Diff.diff d)
                       (Qabs (Controller.Diff.diff d)) (Controller.Diff.position d) ->
             Qabs (Controller.Diff.diff d) < 900 ->
             JS.eqb (Controller.Nearest.smallest_diff final) 900 = false).
  { intros d -> Hd. apply eqb_false. cbn. intros E. rewrite E in Hd.
    revert Hd. apply Qle_not_lt. apply Qle_Qabs. }
  split.
  - destruct H1 as [E | (d & Hin & [He1 He2] & Hd & E)].
    + left. rewrite E. reflexivity.
    + right. rewrite (Hwin d E Hd). rewrite E. cbn [fst snd Controller.Nearest.smallest_diff
                                                     Controller.Nearest.snapping_position].
      apply in_flat_map in Hin as [p [Hp Hin]]. exists p.
      pose proof (pushed_shape p d Hin) as Hs.
      split; [exact Hp |]. split; [| split; assumption].
      rewrite Hs. ring.
  - intros d Hin Ht Hpos Hd.
    specialize (H2 d Hin (conj Ht Hpos)).
    destruct H1 as [E | (w & Hw & [Hw1 Hw2] & Hwd & E)].
    + rewrite E in H2. cbn in H2. lra.
    + rewrite (Hwin w E Hwd). rewrite E in *. cbn in H2. cbn. split; assumption.
Qed.

End NearestTarget.

Lemma edge_pushed (scope : Scope.t) (targets : list Q) (threshold : Q)
    (ignore_ids : list string) (includeKeyframeSnaps : bool)
    (pixel_positions : list Q) (item : Item.t) (p edge : Q) :
  In item (Project.clips (Scope.project scope)
           ++ Project.effects (Scope.project scope)) ->
  In p pixel_positions ->
  Controller.hasOwnProperty ignore_ids (Item.id item) = false ->
  edge = Item.position item * Scope.pixelsPerSecond scope
  \/ edge = (Item.position item + (Item.end_ item - Item.start item))
            * Scope.pixelsPerSecond scope ->
  Qabs (p - edge) <= threshold ->
  In (Controller.Diff.mk (p - edge) edge)
    (Controller.all_diffs scope targets threshold ignore_ids includeKeyframeSnaps
       pixel_positions).
Proof.
  intros Hitem Hp Hign Hedge Hthr.
  unfold Controller.all_diffs. apply in_flat_map. exists p. split; [exact Hp |].
  assert (He : In (Controller.Diff.mk (p - edge) edge)
                 (Controller.edge_diffs scope threshold ignore_ids p item)).
  { unfold Controller.edge_diffs. cbv zeta. rewrite Hign.
    apply in_or_app. unfold Controller.within, JS.Math_abs.
    destruct Hedge as [-> | ->]; [left | right];
      (apply leb_true in Hthr; rewrite Hthr; now left). }
  unfold Controller.new_diffs. cbv zeta.
  apply in_app_or in Hitem. destruct Hitem as [Hin | Hin].
  - apply in_or_app. left. apply in_flat_map. now exists item.
  - apply in_or_app. right. apply in_or_app. left. apply in_flat_map. now exists item.
Qed.

(** X12.  [getNearbyPosition] returns either the nothing-found pair (0, 0)
    or a target within the threshold of one of the given pixel positions,
    together with the signed distance from the target to that position; and
    the target it returns is a nearest one: no edge of a clip or transition
    that is not ignored, lies within the threshold (and less than 900
    pixels away) and is not at pixel 0, is closer to its pixel position
    than the returned distance. *)
Theorem X12_getNearbyPosition_nearest (scope : Scope.t) (pixel_positions : list Q)
    (threshold : Q) (ignore_ids : list string) (includeKeyframes : bool) :
  let r := Controller.getNearbyPosition scope pixel_positions threshold ignore_ids
             includeKeyframes in
  (r = (0, 0)
   \/ exists p, In p pixel_positions /\ snd r == p - fst r
                /\ Qabs (fst r) <= threshold /\ ~ snd r == 0)
  /\ forall item p edge,
       In item (Project.clips (Scope.project scope)
                ++ Project.effects (Scope.project scope)) ->
       In p pixel_positions ->
       Controller.hasOwnProperty ignore_ids (Item.id item) = false ->
       edge = Item.position item * Scope.pixelsPerSecond scope
       \/ edge = (Item.position item + (Item.end_ item - Item.start item))
                 * Scope.pixelsPerSecond scope ->
       Qabs (p - edge) <= threshold -> Qabs (p - edge) < 900 -> ~ edge == 0 ->
       Qabs (fst r) <= Qabs (p - edge) /\ ~ snd r == 0.
Proof.
  cbv zeta. unfold Controller.getNearbyPosition.
  destruct (nearby_scan_nearest threshold scope
              (Controller.keyframeTargets scope includeKeyframes) ignore_ids
              includeKeyframes pixel_positions) as [H1 H2].
  split; [exact H1 |].
  intros item p edge Hitem Hp Hign Hedge Hthr Hfar Hnz.
  apply (H2 (Controller.Diff.mk (p - edge) edge)); try assumption.
  now apply edge_pushed with (item := item).
Qed.

Lemma flat_map_filter_nil {A B : Type} (f : A -> list B) (keep : A -> bool)
    (l : list A) :
  (forall x, keep x = false -> f x = []) ->
  flat_map f (filter keep l) = flat_map f l.
Proof.
  intros H. induction l as [| x rest IH]; cbn; [reflexivity |].
  destruct (keep x) eqn:E; cbn; [now rewrite IH | now rewrite IH, (H x E)].
Qed.

Lemma positions_loop_ext (s1 s2 : Scope.t) (targets : list Q) (threshold : Q)
    (ignore_ids : list string) (includeKeyframeSnaps : bool)
    (pixel_positions : list Q) (diffs : list Controller.Diff.t)
    (st : Controller.Nearest.t) :
  (forall p, Controller.new_diffs s1 targets threshold ignore_ids
               includeKeyframeSnaps p
             = Controller.new_diffs s2 targets threshold ignore_ids
                 includeKeyframeSnaps p) ->
  Controller.positions_loop s1 targets threshold ignore_ids includeKeyframeSnaps
    pixel_positions diffs st
  = Controller.positions_loop s2 targets threshold ignore_ids includeKeyframeSnaps
      pixel_positions diffs st.
Proof.
  intros H. revert diffs st.
  induction pixel_positions as [| p rest IH]; intros diffs st;
    cbn [Controller.positions_loop]; [reflexivity |].
  cbv zeta. rewrite H. apply IH.
Qed.

(** X13.  Without keyframe snapping, the clips and transitions whose id is
    in [ignore_ids] have no influence on the result of [getNearbyPosition]:
    the result is the same as for the project without them. *)
Theorem X13_ignored_items_do_not_snap (scope : Scope.t) (pixel_positions : list Q)
    (threshold : Q) (ignore_ids : list string) :
  let keep item := negb (Controller.hasOwnProperty ignore_ids (Item.id item)) in
  Controller.getNearbyPosition
    (Controller.with_items scope
       (filter keep (Project.clips (Scope.project scope)))
       (filter keep (Project.effects (Scope.project scope))))
    pixel_positions threshold ignore_ids false
  = Controller.getNearbyPosition scope pixel_positions threshold ignore_ids false.
Proof.
  cbv zeta. unfold Controller.getNearbyPosition, Controller.keyframeTargets.
  cbn [andb]. unfold Controller.nearby_scan. cbv zeta.
  rewrite (positions_loop_ext _ scope); [reflexivity |].
  intros p. unfold Controller.new_diffs. cbv zeta.
  change (Project.clips (Scope.project (Controller.with_items scope ?c ?e))) with c.
  change (Project.effects (Scope.project (Controller.with_items scope ?c ?e))) with e.
  assert (Hedge : forall item,
             Controller.edge_diffs
               (Controller.with_items scope
                  (filter (fun item => negb (Controller.hasOwnProperty ignore_ids
                                               (Item.id item)))
                     (Project.clips (Scope.project scope)))
                  (filter (fun item => negb (Controller.hasOwnProperty ignore_ids
                                               (Item.id item)))
                     (Project.effects (Scope.project scope))))
               threshold ignore_ids p item
             = Controller.edge_diffs scope threshold ignore_ids p item)
    by reflexivity.
  assert (Hnil : forall item,
             negb (Controller.hasOwnProperty ignore_ids (Item.id item)) = false ->
             Controller.edge_diffs scope threshold ignore_ids p item = []).
  { intros item H. apply negb_false_iff in H. unfold Controller.edge_diffs.
    cbv zeta. now rewrite H. }
  f_equal; [| f_equal].
  - rewrite (flat_map_ext _ _ Hedge). apply flat_map_filter_nil, Hnil.
  - rewrite (flat_map_ext _ _ Hedge). apply flat_map_filter_nil, Hnil.
Qed.

(** ** Resampling a waveform *)

(** X14.  [resampleWaveform] returns [null] exactly when there is no
    sample or one of the two durations is not a finite positive number; and
    retiming to the same duration returns the samples unchanged. *)
Theorem X14_resampleWaveform_null_and_copy (data : list JS.jsnum)
    (originalDuration newDuration : JS.jsnum) :
  (ClipDirective.resampleWaveform data originalDuration newDuration = None
   <-> data = []
       \/ ~ (exists o n, originalDuration = JS.Finite o /\ newDuration = JS.Finite n
                         /\ 0 < o /\ 0 < n))
  /\ (forall d, data <> [] -> 0 < d ->
        ClipDirective.resampleWaveform data (JS.Finite d) (JS.Finite d) = Some data).
Proof.
  split.
  - unfold ClipDirective.resampleWaveform.
    destruct data as [| first rest].
    { split; [now left | reflexivity]. }
    destruct originalDuration as [o |], newDuration as [n |];
      try (split; [intros _; right; intros (o' & n' & Ho & Hn & _); discriminate
                  | reflexivity]).
    destruct (JS.leb o 0) eqn:Eo; cbn [orb].
    + apply leb_true in Eo. split; [| reflexivity].
      intros _. right. intros (o' & n' & [= <-] & [= <-] & Ho & Hn). lra.
    + destruct (JS.leb n 0) eqn:En.
      * apply leb_true in En. split; [| reflexivity].
        intros _. right. intros (o' & n' & [= <-] & [= <-] & Ho & Hn). lra.
      * apply leb_false in Eo. apply leb_false in En.
        split.
        -- destruct (Nat.eqb _ 1); [discriminate |]. cbv zeta.
           destruct (Nat.eqb _ _); discriminate.
        -- intros [H | H]; [discriminate |]. exfalso. apply H.
           exists o, n. repeat split; assumption.
  - intros d Hne Hd. unfold ClipDirective.resampleWaveform.
    destruct data as [| first rest]; [congruence |].
    assert (E : JS.leb d 0 = false) by (apply leb_false; exact Hd).
    rewrite E. cbn [orb].
    destruct (Nat.eqb_spec (List.length (first :: rest)) 1) as [L1 | L1].
    + destruct rest; [reflexivity | cbn in L1; lia].
    + cbv zeta.
      assert (R : inject_Z (Z.of_nat (List.length (first :: rest))) * (d / d)
                  == inject_Z (Z.of_nat (List.length (first :: rest))))
        by (field; lra).
      rewrite (Math_round_proper _ _ R), round_integer.
      assert (L : Z.to_nat (Z.max 1 (Z.of_nat (List.length (first :: rest))))
                  = List.length (first :: rest)) by (cbn [List.length]; lia).
      rewrite L, Nat.eqb_refl. reflexivity.
Qed.

(** X15.  When samples that are doubles are resampled (positive
    durations, fewer than [2^53] samples) and the result has two or more
    samples, the first sample of the result is the first original sample
    and the last one is the last original sample. *)
Theorem X15_resample_keeps_endpoints (samples : list Q)
    (originalDuration newDuration : Q) (result : list JS.jsnum) :
  0 < originalDuration -> 0 < newDuration ->
  (forall v, In v samples -> Double.fl v = v) ->
  (Z.of_nat (List.length samples) < 2 ^ 53)%Z ->
  Waveform.resampleWaveform (map JS.Finite samples)
    (JS.Finite originalDuration) (JS.Finite newDuration) = Some result ->
  (2 <= List.length result)%nat ->
  nth 0 result JS.NonFinite = JS.Finite (nth 0 samples 0)
  /\ nth (List.length result - 1) result JS.NonFinite
     = JS.Finite (nth (List.length samples - 1) samples 0).
Proof.
  intros Ho Hn Hdbl Hlen Hres Hmany.
  assert (Hne : samples <> []) by (intros ->; discriminate).
  destruct (resample_result samples originalDuration newDuration Hne Ho Hn)
    as [r [Hr [Hl [H1 [Hcopy Hval] ] ] ] ].
  cbv zeta in Hl, H1, Hcopy, Hval.
  rewrite Hr in Hres. injection Hres as <-.
  rewrite length_map in *.
  set (newLength := ResampleSpec.resampled_length (List.length samples)
                      originalDuration newDuration) in *.
  assert (Hpos : (0 < List.length samples)%nat)
    by (destruct samples; [congruence | cbn; lia]).
  destruct (Nat.eq_dec newLength (List.length samples)) as [E | E].
  - rewrite (Hcopy E). split; apply nth_finite; lia.
  - rewrite !nth_finite by lia. rewrite (Hval E), length_map, length_seq.
    rewrite !nth_map_seq by lia.
    assert (H2 : (2 <= newLength)%nat) by (rewrite <- Hl; exact Hmany).
    rewrite source_pos_first, (source_pos_last _ _ H2 Hlen).
    split; f_equal; apply lerp_at_sample; apply Hdbl; apply nth_In; lia.
Qed.

Lemma X15_resample_keeps_endpoints_witness :
  Waveform.resampleWaveform (map JS.Finite [1; 2; 3; 4]) (JS.Finite 2) (JS.Finite 1)
  = Some [JS.Finite 1; JS.Finite 4]
  /\ nth 0 [JS.Finite 1; JS.Finite 4] JS.NonFinite = JS.Finite 1
  /\ nth 1 [JS.Finite 1; JS.Finite 4] JS.NonFinite = JS.Finite 4.
Proof.
  split; [vm_compute; reflexivity |].
  apply (X15_resample_keeps_endpoints [1; 2; 3; 4] 2 1 [JS.Finite 1; JS.Finite 4]).
  - reflexivity.
  - reflexivity.
  - intros v [<- | [<- | [<- | [<- | [] ] ] ] ]; reflexivity.
  - reflexivity.
  - vm_compute. reflexivity.
  - cbn. lia.
Defined.

(** ** Trimming keeps a clip well formed *)

Lemma resize_edges_ordered (scope : Scope.t) (clip : Item.t)
    (dragLoc : ClipDirective.DragLoc) (delta_time : Q) :
  0 <= Item.start clip -> Item.start clip <= Item.end_ clip ->
  match Reader.video_length (Item.reader clip) with
  | Some v => 0 <= v
  | None => True
  end ->
  let edges := ClipDirective.resize_edges scope clip dragLoc delta_time in
  0 <= snd (fst edges) /\ snd (fst edges) <= snd edges.
Proof.
  intros Hs Hse Hv. cbv zeta. unfold ClipDirective.resize_edges. cbv zeta.
  destruct dragLoc.
  - cases_on_comparisons; cbn [fst snd];
      destruct (_ && _); cbn [fst snd]; split; lra.
  - cbn [fst snd]. unfold ClipDirective.getMaxClipEndSeconds.
    destruct (ClipDirective.getMaxDurationSeconds scope clip) as [m |] eqn:Hm.
    + pose proof (max_duration_nonneg scope clip m Hv Hm) as Hpos.
      cbn [JS.toNumber]. cases_on_comparisons; split; lra.
    + cases_on_comparisons; split; lra.
Qed.

Lemma on_grid_snapped (scope : Scope.t) (x t : Q) :
  0 < Project.fps_num (Scope.project scope) ->
  0 < Project.fps_den (Scope.project scope) ->
  x == Controller.snapToFPSGridTime scope t -> on_grid scope x.
Proof.
  intros Hn Hd E. unfold on_grid, Controller.snapToFPSGridTime in *.
  rewrite E. apply snap_idempotent; assumption.
Qed.

(** X16.  When a resize handle is released in trim mode on a clip with
    [0 <= start <= end] whose end lies on the frame grid, the stored clip
    again has [0 <= start <= end], and its position, start and end lie on
    the frame grid, wherever the handle was dragged to. *)
Theorem X16_trim_keeps_clip_well_formed (scope : Scope.t) (clip : Item.t)
    (timing : ClipDirective.Timing.t) (dragLoc : ClipDirective.DragLoc)
    (new_position_px : Q) :
  0 < Project.fps_num (Scope.project scope) ->
  0 < Project.fps_den (Scope.project scope) ->
  Scope.enable_timing scope = false ->
  0 <= Item.start clip -> Item.start clip <= Item.end_ clip ->
  on_grid scope (Item.end_ clip) ->
  match Reader.video_length (Item.reader clip) with
  | Some v => 0 <= v
  | None => True
  end ->
  let clip' := fst (ClipDirective.resize_stop scope clip false timing dragLoc
                      new_position_px) in
  0 <= Item.start clip' /\ Item.start clip' <= Item.end_ clip'
  /\ on_grid scope (Item.position clip') /\ on_grid scope (Item.start clip')
  /\ on_grid scope (Item.end_ clip').
Proof.
  intros Hn Hd Ht Hs Hse Hgrid Hv. cbv zeta.
  unfold ClipDirective.resize_stop. rewrite Ht.
  pose proof (resize_edges_ordered scope clip dragLoc
                (ClipDirective.delta_time_of scope clip dragLoc new_position_px)
                Hs Hse Hv) as Hord.
  cbv zeta in Hord.
  destruct (ClipDirective.resize_edges scope clip dragLoc
              (ClipDirective.delta_time_of scope clip dragLoc new_position_px))
    as [[np nl] nr].
  cbn [fst snd] in Hord. destruct Hord as [Hnl Hlr].
  destruct (commit_trim_stores scope clip np nl nr) as (Hp' & Hs' & He').
  cbv zeta in Hp', Hs', He'.
  assert (He : Item.end_ (fst (ClipDirective.commit_trim scope clip np nl nr))
               == Controller.snapToFPSGridTime scope nr).
  { rewrite He'. unfold JS.neqb.
    destruct (Qeq_bool (Item.end_ clip) nr) eqn:E; cbn [negb]; [| reflexivity].
    apply Qeq_bool_iff in E. unfold on_grid in Hgrid. rewrite <- Hgrid.
    unfold Controller.snapToFPSGridTime. now rewrite E. }
  pose proof (snap_nonneg _ _ nl Hn Hd Hnl) as H0.
  pose proof (snap_monotone _ _ nl nr Hn Hd Hlr) as H1.
  fold (Controller.snapToFPSGridTime scope nl) in H0, H1.
  fold (Controller.snapToFPSGridTime scope nr) in H1.
  split; [lra | split; [lra |]].
  split; [| split]; eapply on_grid_snapped; eassumption.
Qed.

Lemma X16_trim_keeps_clip_well_formed_witness :
  let clip' :=
    fst (ClipDirective.resize_stop Scenario4.scope Scenario4.clipB_before_trim false
           (ClipDirective.Timing.mk 0 0 None 0) ClipDirective.drag_left 0) in
  0 <= Item.start clip' /\ Item.start clip' <= Item.end_ clip'
  /\ on_grid Scenario4.scope (Item.position clip')
  /\ on_grid Scenario4.scope (Item.start clip')
  /\ on_grid Scenario4.scope (Item.end_ clip').
Proof.
  apply (X16_trim_keeps_clip_well_formed Scenario4.scope Scenario4.clipB_before_trim
           (ClipDirective.Timing.mk 0 0 None 0) ClipDirective.drag_left 0);
    try reflexivity; vm_compute; try discriminate; exact I.
Defined.

(** X17.  The width limit that [getMaxResizeWidthPx] computes is never
    below the clip's current width nor below the width of the longest
    allowed duration; there is a limit exactly when
    [getMaxDurationSeconds] gives one. *)
Theorem X17_max_width_covers_current_width (scope : Scope.t) (clip : Item.t) :
  0 <= Scope.pixelsPerSecond scope ->
  match ClipWidth.getMaxResizeWidthPx scope clip,
        ClipDirective.getMaxDurationSeconds scope clip with
  | Some width, Some maxDuration =>
      (Item.end_ clip - Item.start clip) * Scope.pixelsPerSecond scope <= width
      /\ maxDuration * Scope.pixelsPerSecond scope <= width
      /\ 0 <= width
  | None, None => True
  | _, _ => False
  end.
Proof.
  intros Hp. unfold ClipWidth.getMaxResizeWidthPx.
  destruct (ClipDirective.getMaxDurationSeconds scope clip) as [m |]; [| exact I].
  cbv zeta. cbn [JS.toNumber].
  revert Hp. generalize (Scope.pixelsPerSecond scope). intros pps Hp.
  assert (H1 : Item.end_ clip - Item.start clip
               <= JS.Math_max m (JS.Math_max 0 (Item.end_ clip - Item.start clip))
               /\ m <= JS.Math_max m (JS.Math_max 0 (Item.end_ clip - Item.start clip))
               /\ 0 <= JS.Math_max m (JS.Math_max 0 (Item.end_ clip - Item.start clip))).
  { unfold JS.Math_max.
    destruct (JS.ltb 0 (Item.end_ clip - Item.start clip)) eqn:E0;
      [apply ltb_true in E0 | apply ltb_false in E0];
      cases_on_comparisons; (split; [| split]); lra. }
  destruct H1 as (H1 & H2 & H3).
  split; [| split].
  - apply Qmult_le_compat_r; assumption.
  - apply Qmult_le_compat_r; assumption.
  - apply Qmult_le_0_compat; assumption.
Qed.

Lemma X17_max_width_covers_current_width_witness :
  match ClipWidth.getMaxResizeWidthPx Demo.scope (ResizeScenario.video 0 1 4 (Some 6)),
        ClipDirective.getMaxDurationSeconds Demo.scope
          (ResizeScenario.video 0 1 4 (Some 6)) with
  | Some width, Some maxDuration =>
      (4 - 1) * Scope.pixelsPerSecond Demo.scope <= width
      /\ maxDuration * Scope.pixelsPerSecond Demo.scope <= width
      /\ 0 <= width
  | None, None => True
  | _, _ => False
  end.
Proof.
  apply (X17_max_width_covers_current_width Demo.scope
           (ResizeScenario.video 0 1 4 (Some 6))).
  vm_compute. discriminate.
Defined.

(** ** Moving keyframes *)

Lemma map_flat_map {A B C : Type} (g : B -> C) (f : A -> list B) (l : list A) :
  map g (flat_map f l) = flat_map (fun x => map g (f x)) l.
Proof.
  induction l as [| x rest IH]; cbn; [reflexivity |]. now rewrite map_app, IH.
Qed.

Lemma flat_map_of_map {A B C : Type} (f : B -> list C) (g : A -> B) (l : list A) :
  flat_map f (map g l) = flat_map (fun x => f (g x)) l.
Proof.
  induction l as [| x rest IH]; cbn; [reflexivity |]. now rewrite IH.
Qed.

Section MoveKeyframes.

Variables old_frame new_frame : Q.

Let mv := KeyframeDirective.move_point old_frame new_frame.

Lemma move_keyframed_none (k : Keyframed.t) :
  KeyframeDirective.move_keyframed old_frame new_frame k = None
  <-> ~ KeyframePoints.channels_complete k.
Proof.
  unfold KeyframeDirective.move_keyframed, KeyframePoints.channels_complete.
  destruct k as [ps [r |] [g |] [b |] ]; cbn; split; intro H;
    try discriminate; try (exfalso; apply H; intros; split; discriminate);
    try (exfalso; apply H; intro N; exfalso; apply N; reflexivity);
    try reflexivity;
    try (intro C; destruct (C ltac:(discriminate)) as [C1 C2]; congruence).
Qed.

Lemma of_keyframed_move (k k' : Keyframed.t) :
  KeyframeDirective.move_keyframed old_frame new_frame k = Some k' ->
  KeyframePoints.of_keyframed k' = map mv (KeyframePoints.of_keyframed k).
Proof.
  unfold KeyframeDirective.move_keyframed.
  destruct k as [ [ps |] [r |] [g |] [b |] ]; cbn; intros [= <-]; cbn;
    rewrite ?map_app; reflexivity.
Qed.

(** A property that was moved can be moved again. *)
Lemma move_keyframed_again (a b : Q) (k k' : Keyframed.t) :
  KeyframeDirective.move_keyframed old_frame new_frame k = Some k' ->
  KeyframeDirective.move_keyframed a b k' <> None.
Proof.
  unfold KeyframeDirective.move_keyframed.
  destruct k as [ [ps |] [r |] [g |] [bl |] ]; cbn; intros [= <-]; cbn; discriminate.
Qed.

Lemma move_props_none (props : list (string * Keyframed.t)) :
  KeyframeDirective.move_props old_frame new_frame props = None
  <-> exists k, In k (map snd props) /\ ~ KeyframePoints.channels_complete k.
Proof.
  induction props as [| [name k] rest IH]; cbn [KeyframeDirective.move_props map snd].
  - split; [discriminate | intros [k [ [] _] ] ].
  - destruct (KeyframeDirective.move_keyframed old_frame new_frame k) as [k' |] eqn:E.
    + assert (C : KeyframePoints.channels_complete k).
      { destruct k as [ps [r |] [g |] [b |] ]; cbn in E; try discriminate;
          intro; split; discriminate || (exfalso; auto). }
      destruct (KeyframeDirective.move_props old_frame new_frame rest) as [rest' |].
      * split; [discriminate |].
        intros [k0 [ [<- | Hin] N] ]; [contradiction |].
        assert (X : @None (list (string * Keyframed.t)) = None) by reflexivity.
        destruct IH as [_ IH]. discriminate IH. eauto.
      * split; [| reflexivity]. intros _.
        destruct IH as [IH _]. destruct (IH eq_refl) as [k0 [Hin N] ].
        exists k0. split; [now right | exact N].
    + split; [| reflexivity]. intros _. exists k. split; [now left |].
      now apply move_keyframed_none.
Qed.

Lemma of_props_move (props props' : list (string * Keyframed.t)) :
  KeyframeDirective.move_props old_frame new_frame props = Some props' ->
  KeyframePoints.of_props props' = map mv (KeyframePoints.of_props props).
Proof.
  revert props'.
  induction props as [| [name k] rest IH]; cbn [KeyframeDirective.move_props];
    intros props'.
  - intros [= <-]. reflexivity.
  - destruct (KeyframeDirective.move_keyframed old_frame new_frame k) as [k' |] eqn:E;
      [| discriminate].
    destruct (KeyframeDirective.move_props old_frame new_frame rest) as [rest' |];
      [| discriminate].
    intros [= <-]. unfold KeyframePoints.of_props in *. cbn [flat_map snd].
    rewrite map_app, (of_keyframed_move k k' E), (IH rest' eq_refl). reflexivity.
Qed.

Lemma move_props_again (a b : Q) (props props' : list (string * Keyframed.t)) :
  KeyframeDirective.move_props old_frame new_frame props = Some props' ->
  KeyframeDirective.move_props a b props' <> None.
Proof.
  revert props'.
  induction props as [| [name k] rest IH]; cbn [KeyframeDirective.move_props];
    intros props'.
  - intros [= <-]. discriminate.
  - destruct (KeyframeDirective.move_keyframed old_frame new_frame k) as [k' |] eqn:E;
      [| discriminate].
    destruct (KeyframeDirective.move_props old_frame new_frame rest) as [rest' |];
      [| discriminate].
    intros [= <-]. cbn [KeyframeDirective.move_props].
    pose proof (move_keyframed_again a b k k' E) as H1.
    pose proof (IH rest' eq_refl) as H2.
    destruct (KeyframeDirective.move_keyframed a b k'); [| contradiction].
    destruct (KeyframeDirective.move_props a b rest'); [discriminate | contradiction].
Qed.

Lemma move_effects_none (effects : list Effect.t) :
  KeyframeDirective.move_effects old_frame new_frame effects = None
  <-> exists k, In k (flat_map (fun e => map snd (Effect.props e)) effects)
                /\ ~ KeyframePoints.channels_complete k.
Proof.
  induction effects as [| e rest IH]; cbn [KeyframeDirective.move_effects flat_map].
  - split; [discriminate | intros [k [ [] _] ] ].
  - destruct (KeyframeDirective.move_props old_frame new_frame (Effect.props e))
      as [ps |] eqn:E.
    + assert (C : forall k, In k (map snd (Effect.props e)) ->
                            ~ ~ KeyframePoints.channels_complete k).
      { intros k Hin N.
        assert (X : KeyframeDirective.move_props old_frame new_frame (Effect.props e)
                    = None) by (apply move_props_none; eauto).
        congruence. }
      destruct (KeyframeDirective.move_effects old_frame new_frame rest) as [rest' |].
      * split; [discriminate |].
        intros [k [Hin N] ]. apply in_app_or in Hin. destruct Hin as [Hin | Hin].
        -- exfalso. exact (C k Hin N).
        -- destruct IH as [_ IH]. discriminate IH. eauto.
      * split; [| reflexivity]. intros _.
        destruct IH as [IH _]. destruct (IH eq_refl) as [k [Hin N] ].
        exists k. split; [apply in_or_app; now right | exact N].
    + split; [| reflexivity]. intros _.
      apply move_props_none in E. destruct E as [k [Hin N] ].
      exists k. split; [apply in_or_app; now left | exact N].
Qed.

Lemma of_effects_move (effects effects' : list Effect.t) :
  KeyframeDirective.move_effects old_frame new_frame effects = Some effects' ->
  flat_map (fun e => KeyframePoints.of_props (Effect.props e)) effects'
  = map mv (flat_map (fun e => KeyframePoints.of_props (Effect.props e)) effects).
Proof.
  revert effects'.
  induction effects as [| e rest IH]; cbn [KeyframeDirective.move_effects];
    intros effects'.
  - intros [= <-]. reflexivity.
  - destruct (KeyframeDirective.move_props old_frame new_frame (Effect.props e))
      as [ps |] eqn:E; [| discriminate].
    destruct (KeyframeDirective.move_effects old_frame new_frame rest) as [rest' |];
      [| discriminate].
    intros [= <-]. cbn [flat_map Effect.props Effect.set_props].
    rewrite map_app, (of_props_move _ ps E), (IH rest' eq_refl). reflexivity.
Qed.

Lemma move_effects_again (a b : Q) (effects effects' : list Effect.t) :
  KeyframeDirective.move_effects old_frame new_frame effects = Some effects' ->
  KeyframeDirective.move_effects a b effects' <> None.
Proof.
  revert effects'.
  induction effects as [| e rest IH]; cbn [KeyframeDirective.move_effects];
    intros effects'.
  - intros [= <-]. discriminate.
  - destruct (KeyframeDirective.move_props old_frame new_frame (Effect.props e))
      as [ps |] eqn:E; [| discriminate].
    destruct (KeyframeDirective.move_effects old_frame new_frame rest) as [rest' |];
      [| discriminate].
    intros [= <-]. cbn [KeyframeDirective.move_effects Effect.props Effect.set_props].
    pose proof (move_props_again a b _ ps E) as H1.
    pose proof (IH rest' eq_refl) as H2.
    destruct (KeyframeDirective.move_props a b ps); [| contradiction].
    destruct (KeyframeDirective.move_effects a b rest'); [discriminate | contradiction].
Qed.

Lemma moveKeyframes_none (object : Item.t) :
  KeyframeDirective.moveKeyframes object old_frame new_frame = None
  <-> exists k, In k (KeyframePoints.properties object)
                /\ ~ KeyframePoints.channels_complete k.
Proof.
  unfold KeyframeDirective.moveKeyframes, KeyframePoints.properties.
  pose proof (move_props_none (Item.props object)) as P.
  destruct (KeyframeDirective.move_props old_frame new_frame (Item.props object))
    as [ps |].
  - destruct (Item.effects object) as [effects |].
    + pose proof (move_effects_none effects) as F.
      destruct (KeyframeDirective.move_effects old_frame new_frame effects).
      * split; [discriminate |].
        intros [k [Hin N] ]. apply in_app_or in Hin. destruct Hin as [Hin | Hin].
        -- destruct P as [_ P]. discriminate P. eauto.
        -- destruct F as [_ F]. discriminate F. eauto.
      * split; [| reflexivity]. intros _.
        destruct F as [F _]. destruct (F eq_refl) as [k [Hin N] ].
        exists k. split; [apply in_or_app; now right | exact N].
    + split; [discriminate |].
      intros [k [Hin N] ]. rewrite app_nil_r in Hin.
      destruct P as [_ P]. discriminate P. eauto.
  - split; [| reflexivity]. intros _.
    destruct P as [P _]. destruct (P eq_refl) as [k [Hin N] ].
    exists k. split; [apply in_or_app; now left | exact N].
Qed.

Lemma of_item_move (object object' : Item.t) :
  KeyframeDirective.moveKeyframes object old_frame new_frame = Some object' ->
  KeyframePoints.of_item object' = map mv (KeyframePoints.of_item object).
Proof.
  unfold KeyframePoints.of_item, KeyframeDirective.moveKeyframes.
  destruct (KeyframeDirective.move_props old_frame new_frame (Item.props object))
    as [ps |] eqn:P; [| discriminate].
  destruct (Item.effects object) as [effects |].
  - destruct (KeyframeDirective.move_effects old_frame new_frame effects)
      as [effects' |] eqn:F; [| discriminate].
    intros [= <-]. cbn [Item.props Item.effects Item.set_effects Item.set_props].
    rewrite map_app, (of_props_move _ ps P), (of_effects_move _ effects' F).
    reflexivity.
  - intros [= <-]. cbn [Item.props Item.effects Item.set_effects Item.set_props].
    rewrite map_app, (of_props_move _ ps P). reflexivity.
Qed.

Lemma moveKeyframes_again (a b : Q) (object object' : Item.t) :
  KeyframeDirective.moveKeyframes object old_frame new_frame = Some object' ->
  KeyframeDirective.moveKeyframes object' a b <> None.
Proof.
  unfold KeyframeDirective.moveKeyframes.
  destruct (KeyframeDirective.move_props old_frame new_frame (Item.props object))
    as [ps |] eqn:P; [| discriminate].
  pose proof (move_props_again a b _ ps P) as P'.
  destruct (Item.effects object) as [effects |].
  - destruct (KeyframeDirective.move_effects old_frame new_frame effects)
      as [effects' |] eqn:F; [| discriminate].
    pose proof (move_effects_again a b _ effects' F) as F'.
    intros [= <-]. cbn [Item.props Item.effects Item.set_effects Item.set_props].
    destruct (KeyframeDirective.move_props a b ps); [| contradiction].
    destruct (KeyframeDirective.move_effects a b effects'); [discriminate | contradiction].
  - intros [= <-]. cbn [Item.props Item.effects Item.set_effects Item.set_props].
    destruct (KeyframeDirective.move_props a b ps); [discriminate | contradiction].
Qed.

End MoveKeyframes.

(** X18.  [moveKeyframes] raises a TypeError exactly when some property of
    the item or of its effects has points in [red] but none in [green] or
    in [blue].  Otherwise it keeps the number and the order of the keyframe
    points of the item and changes nothing but frame numbers; when the two
    frames differ, no point is left at the old frame and the points that
    were elsewhere are untouched; and moving the keyframes of a frame to a
    frame that holds none and back again succeeds and restores every
    point. *)
Theorem X18_moveKeyframes_moves_the_frame (object : Item.t) (old_frame new_frame : Q) :
  (KeyframeDirective.moveKeyframes object old_frame new_frame = None
   <-> exists k, In k (KeyframePoints.properties object)
                 /\ ~ KeyframePoints.channels_complete k)
  /\ forall object',
       KeyframeDirective.moveKeyframes object old_frame new_frame = Some object' ->
       let before := KeyframePoints.of_item object in
       let after := KeyframePoints.of_item object' in
       Forall2 (fun p q =>
                  Point.Y q = Point.Y p
                  /\ Point.interpolation q = Point.interpolation p
                  /\ (Point.X p == old_frame -> Point.X q = new_frame)
                  /\ (~ Point.X p == old_frame -> q = p))
         before after
       /\ (~ old_frame == new_frame ->
           forall q, In q after -> ~ Point.X q == old_frame)
       /\ ((forall p, In p before -> ~ Point.X p == new_frame) ->
           exists object'',
             KeyframeDirective.moveKeyframes object' new_frame old_frame
             = Some object''
             /\ Forall2 KeyframePoints.same_point before
                  (KeyframePoints.of_item object'')).
Proof.
  split; [apply moveKeyframes_none |].
  intros object' Hmove. cbv zeta.
  rewrite (of_item_move old_frame new_frame object object' Hmove).
  assert (Hback : exists object'',
             KeyframeDirective.moveKeyframes object' new_frame old_frame
             = Some object'').
  { pose proof (moveKeyframes_again old_frame new_frame new_frame old_frame
                  object object' Hmove) as N.
    destruct (KeyframeDirective.moveKeyframes object' new_frame old_frame) as [o |];
      [eauto | contradiction]. }
  destruct Hback as [object'' Hback].
  pose proof (of_item_move new_frame old_frame object' object'' Hback) as Eback.
  rewrite (of_item_move old_frame new_frame object object' Hmove) in Eback.
  split; [| split].
  - generalize (KeyframePoints.of_item object). intros pts.
    induction pts as [| p rest IH]; cbn [map]; constructor; [| exact IH].
    unfold KeyframeDirective.move_point.
    destruct (JS.eqb (Point.X p) old_frame) eqn:E.
    + apply eqb_true in E. repeat split; try reflexivity. contradiction.
    + apply eqb_false in E. repeat split; try reflexivity. contradiction.
  - intros Hne q Hq. apply in_map_iff in Hq as [p [<- _]].
    unfold KeyframeDirective.move_point.
    destruct (JS.eqb (Point.X p) old_frame) eqn:E.
    + cbn. intros H. apply Hne. now symmetry.
    + now apply eqb_false in E.
  - intros Hfree. exists object''. split; [exact Hback |].
    rewrite Eback, map_map. clear Eback Hback Hmove. revert Hfree.
    generalize (KeyframePoints.of_item object). intros pts Hfree.
    induction pts as [| p rest IH]; cbn [map]; constructor.
    + assert (Hp : ~ Point.X p == new_frame) by (apply Hfree; now left).
      unfold KeyframeDirective.move_point at 2.
      destruct (JS.eqb (Point.X p) old_frame) eqn:E.
      * apply eqb_true in E. unfold KeyframeDirective.move_point. cbn [Point.X Point.set_X].
        assert (R : JS.eqb new_frame new_frame = true) by (apply eqb_true; reflexivity).
        rewrite R. split; [exact E | split; reflexivity].
      * unfold KeyframeDirective.move_point.
        assert (R : JS.eqb (Point.X p) new_frame = false) by (now apply eqb_false).
        rewrite R. split; [reflexivity | split; reflexivity].
    + apply IH. intros q Hq. apply Hfree. now right.
Qed.

(** ** Diffs on the entities of a project *)

Section EntityDiff.

Import JsonDiff.

Lemma lookup_map_field (k name : string) (f : json -> json)
    (fields : list (string * json)) :
  lookup_field k (map_field name f fields)
  = if String.eqb name k then option_map f (lookup_field k fields)
    else lookup_field k fields.
Proof.
  induction fields as [| [k' v] rest IH]; cbn.
  - now destruct (String.eqb name k).
  - destruct (String.eqb_spec k' name) as [-> | Hne]; cbn.
    + destruct (String.eqb_spec name k) as [-> | Hk]; [reflexivity |].
      reflexivity.
    + destruct (String.eqb_spec k' k) as [-> | Hk].
      * destruct (String.eqb_spec name k) as [-> | _]; [congruence | reflexivity].
      * exact IH.
Qed.

Lemma map_field_keys (name : string) (f : json -> json)
    (fields : list (string * json)) :
  map fst (map_field name f fields) = map fst fields.
Proof.
  induction fields as [| [k' v] rest IH]; cbn; [reflexivity |].
  destruct (String.eqb k' name); cbn; [reflexivity | now rewrite IH].
Qed.

Lemma map_field_twice (name : string) (f g : json -> json)
    (fields : list (string * json)) :
  map_field name g (map_field name f fields)
  = map_field name (fun v => g (f v)) fields.
Proof.
  induction fields as [| [k' v] rest IH]; cbn; [reflexivity |].
  destruct (String.eqb k' name) eqn:E; cbn; rewrite E; [reflexivity | now rewrite IH].
Qed.

Lemma map_field_same (name : string) (f : json -> json)
    (fields : list (string * json)) (v : json) :
  lookup_field name fields = Some v -> f v = v -> map_field name f fields = fields.
Proof.
  intros Hl Hf. induction fields as [| [k' v'] rest IH]; cbn in *; [reflexivity |].
  destruct (String.eqb k' name).
  - injection Hl as ->. now rewrite Hf.
  - now rewrite IH.
Qed.

Lemma lookup_set_field (k k' : string) (v : json) (fields : list (string * json)) :
  lookup_field k (set_field k' v fields)
  = if String.eqb k' k then Some v else lookup_field k fields.
Proof.
  induction fields as [| [k0 v0] rest IH]; cbn.
  - reflexivity.
  - destruct (String.eqb_spec k0 k') as [-> | Hne]; cbn.
    + destruct (String.eqb k' k); reflexivity.
    + destruct (String.eqb_spec k0 k) as [-> | Hk].
      * destruct (String.eqb_spec k' k) as [-> | _]; [congruence | reflexivity].
      * exact IH.
Qed.

(** Merging [updates] into an object, as the update loop does. *)
Lemma lookup_merged (k : string) (updates fields : list (string * json)) :
  (~ In k (map fst updates) ->
   lookup_field k (fold_left (fun fs kv => set_field (fst kv) (snd kv) fs)
                     updates fields)
   = lookup_field k fields)
  /\ (forall v, In (k, v) updates ->
        (forall v', In (k, v') updates -> v' = v) ->
        lookup_field k (fold_left (fun fs kv => set_field (fst kv) (snd kv) fs)
                          updates fields)
        = Some v).
Proof.
  revert fields. induction updates as [| [k1 v1] rest IH]; intros fields; cbn.
  - split; [reflexivity | intros v []].
  - destruct (IH (set_field k1 v1 fields)) as [IH1 IH2]. split.
    + intros Hn. rewrite IH1 by tauto. rewrite lookup_set_field.
      destruct (String.eqb_spec k1 k) as [-> | _]; [tauto | reflexivity].
    + intros v Hin Hfun.
      destruct (in_dec string_dec k (map fst rest)) as [Hk | Hk].
      * apply in_map_iff in Hk as [[k' v'] [Ek Hin']]. cbn in Ek. subst k'.
        assert (v' = v) by (apply Hfun; now right). subst v'.
        apply IH2; [exact Hin' |]. intros v'' H''. apply Hfun. now right.
      * rewrite IH1 by exact Hk. rewrite lookup_set_field.
        destruct Hin as [[= -> ->] | Hin].
        -- now rewrite String.eqb_refl.
        -- exfalso. apply Hk. apply in_map_iff. now exists (k, v).
Qed.

Lemma find_child_found (id : json) (items : list json) (i : nat) :
  find_child id items = Some i ->
  exists child, nth_error items i = Some (JObj child)
                /\ exists v, lookup_field "id" child = Some v /\ strict_eq v id = true.
Proof.
  revert i. induction items as [| c rest IH]; cbn; [discriminate |].
  intros i.
  destruct c as [| b | q | s | l | child];
    try (destruct (find_child id rest) as [j |]; [| discriminate];
         intros [= <-]; cbn; now apply IH).
  destruct (lookup_field "id" child) as [v |] eqn:El.
  - destruct (strict_eq v id) eqn:Es.
    + intros [= <-]. cbn. exists child. split; [reflexivity |]. now exists v.
    + destruct (find_child id rest) as [j |]; [| discriminate].
      intros [= <-]. cbn. now apply IH.
  - destruct (find_child id rest) as [j |]; [| discriminate].
    intros [= <-]. cbn. now apply IH.
Qed.

Lemma find_child_appended (id : json) (items : list json) (child : list (string * json))
    (v : json) :
  find_child id items = None ->
  lookup_field "id" child = Some v -> strict_eq v id = true ->
  find_child id (items ++ [JObj child]) = Some (List.length items).
Proof.
  intros Hn Hl Hs. induction items as [| c rest IH]; cbn in *.
  - now rewrite Hl, Hs.
  - destruct (match c with
              | JObj fields =>
                  match lookup_field "id" fields with
                  | Some v0 => strict_eq v0 id
                  | None => false
                  end
              | _ => false
              end); [discriminate |].
    destruct (find_child id rest); [discriminate |].
    now rewrite IH.
Qed.

Lemma splice1_firstn_skipn (i : nat) (items : list json) :
  splice1 i items = firstn i items ++ skipn (S i) items.
Proof.
  revert i. induction items as [| c rest IH]; intros [| i]; cbn; try reflexivity.
  now rewrite IH.
Qed.

Lemma splice1_appended (items : list json) (c : json) :
  splice1 (List.length items) (items ++ [c]) = items.
Proof.
  induction items as [| x rest IH]; cbn; [reflexivity | now rewrite IH].
Qed.

Lemma map_index_nth (i : nat) (f : json -> json) (items : list json) :
  List.length (map_index i f items) = List.length items
  /\ nth_error (map_index i f items) i = option_map f (nth_error items i)
  /\ forall j, j <> i -> nth_error (map_index i f items) j = nth_error items j.
Proof.
  revert i. induction items as [| c rest IH]; intros i.
  - destruct i; cbn; repeat split; intros; reflexivity.
  - destruct i as [| i]; cbn.
    + repeat split. intros [| j] Hj; [congruence | reflexivity].
    + destruct (IH i) as (H1 & H2 & H3). repeat split.
      * now rewrite H1.
      * exact H2.
      * intros [| j] Hj; [reflexivity |]. cbn. apply H3. congruence.
Qed.

Variable fields : list (string * json).
Variable name : string.
Variable items : list json.
Hypothesis Hitems : lookup_field name fields = Some (JArr items).

(** The walk along [[name, {id}]] ends on the first entity with the id. *)
Lemma walk_to_entity (id : json) (i : nat) :
  find_child id items = Some i ->
  walk (JObj fields) [KName name; KSel (Some id)]
  = Walk.mk (Some [SKey name]) [SKey name; SIdx i] i name.
Proof.
  intros Hf. unfold walk. cbn [fold_left]. unfold walk_step at 2.
  cbn [get Walk.current_object]. rewrite Hitems.
  cbn [Walk.current_position app].
  unfold walk_step. cbn [get Walk.current_object]. rewrite Hitems. cbn [get].
  rewrite Hf. reflexivity.
Qed.

Lemma walk_to_array :
  walk (JObj fields) [KName name] = Walk.mk (Some []) [SKey name] 0 name.
Proof.
  unfold walk. cbn [fold_left]. unfold walk_step.
  cbn [get Walk.current_object]. now rewrite Hitems.
Qed.

Lemma delete_entity (id value : json) (i : nat) :
  find_child id items = Some i ->
  apply_action (JObj fields) (Action.mk delete [KName name; KSel (Some id)] value)
  = Some (JObj (map_field name
                  (fun p => match p with
                            | JArr items => JArr (splice1 i items)
                            | _ => p
                            end)
                  fields)).
Proof.
  intros Hf. unfold apply_action. cbn [Action.key Action.type Action.value].
  rewrite (walk_to_entity id i Hf). cbv zeta. cbn [Walk.current_object].
  destruct (find_child_found id items i Hf) as (child & Hn & _).
  cbn [get]. rewrite Hitems, Hn. cbn [truthy].
  unfold delete_from_parent. cbn [Walk.previous_object Walk.current_position get].
  rewrite Hitems. reflexivity.
Qed.

Lemma insert_entity (value : json) :
  apply_action (JObj fields) (Action.mk insert [KName name] value)
  = Some (JObj (map_field name
                  (fun c => match c with
                            | JArr items => JArr (items ++ [value])
                            | _ => c
                            end)
                  fields)).
Proof.
  unfold apply_action. cbn [Action.key Action.type Action.value].
  rewrite walk_to_array. cbv zeta. cbn [Walk.current_object get].
  rewrite Hitems. reflexivity.
Qed.

Lemma update_entity (id : json) (updates : list (string * json)) (i : nat)
    (child : list (string * json)) :
  find_child id items = Some i ->
  nth_error items i = Some (JObj child) ->
  apply_action (JObj fields)
    (Action.mk update [KName name; KSel (Some id)] (JObj updates))
  = Some (JObj (map_field name
                  (fun p =>
                     match p with
                     | JArr items =>
                         JArr (map_index i
                                 (fun c =>
                                    match c with
                                    | JObj fields =>
                                        JObj (fold_left
                                                (fun fs kv =>
                                                   set_field (fst kv) (snd kv) fs)
                                                updates fields)
                                    | _ => c
                                    end)
                                 items)
                     | _ => p
                     end)
                  fields)).
Proof.
  intros Hf Hn. unfold apply_action. cbn [Action.key Action.type Action.value].
  rewrite (walk_to_entity id i Hf). cbv zeta. cbn [Walk.current_object].
  cbn [get]. rewrite Hitems, Hn. cbn [truthy].
  reflexivity.
Qed.

End EntityDiff.

(** X20.  A delete whose key [[name, {id}]] names an entity of the array
    [project[name]] removes the first entity with that id and nothing else:
    the other entities keep their order, and every other property of the
    project is untouched. *)
Theorem X20_delete_removes_the_entity (fields : list (string * JsonDiff.json))
    (name : string) (items : list JsonDiff.json) (id value : JsonDiff.json) (i : nat) :
  JsonDiff.lookup_field name fields = Some (JsonDiff.JArr items) ->
  JsonDiff.find_child id items = Some i ->
  exists fields',
    JsonDiff.apply_action (JsonDiff.JObj fields)
      (JsonDiff.Action.mk JsonDiff.delete
         [JsonDiff.KName name; JsonDiff.KSel (Some id)] value)
    = Some (JsonDiff.JObj fields')
    /\ JsonDiff.lookup_field name fields'
       = Some (JsonDiff.JArr (firstn i items ++ skipn (S i) items))
    /\ (forall other, other <> name ->
          JsonDiff.lookup_field other fields' = JsonDiff.lookup_field other fields)
    /\ map fst fields' = map fst fields.
Proof.
  intros Hitems Hf. eexists. split; [apply (delete_entity _ _ _ Hitems _ _ _ Hf) |].
  split; [| split].
  - rewrite lookup_map_field, String.eqb_refl, Hitems. cbn [option_map].
    now rewrite splice1_firstn_skipn.
  - intros other Hne. rewrite lookup_map_field.
    destruct (String.eqb_spec name other) as [-> | _]; [congruence | reflexivity].
  - apply map_field_keys.
Qed.

Lemma X20_delete_removes_the_entity_witness :
  exists fields',
    JsonDiff.apply_action DiffScenario.project
      (JsonDiff.Action.mk JsonDiff.delete
         [JsonDiff.KName "clips"; JsonDiff.KSel (Some (JsonDiff.JStr "A"))]
         JsonDiff.JNull)
    = Some (JsonDiff.JObj fields')
    /\ JsonDiff.lookup_field "clips" fields' = Some (JsonDiff.JArr [])
    /\ (forall other, other <> "clips"%string ->
          JsonDiff.lookup_field other fields'
          = JsonDiff.lookup_field other
              [("duration"%string, JsonDiff.JNum 300);
               ("clips"%string, JsonDiff.JArr [DiffScenario.clipA]);
               ("effects"%string, JsonDiff.JArr [])])
    /\ map fst fields' = ["duration"; "clips"; "effects"]%string.
Proof.
  apply (X20_delete_removes_the_entity
           [("duration"%string, JsonDiff.JNum 300);
            ("clips"%string, JsonDiff.JArr [DiffScenario.clipA]);
            ("effects"%string, JsonDiff.JArr [])]
           "clips" [DiffScenario.clipA] (JsonDiff.JStr "A") JsonDiff.JNull 0);
    reflexivity.
Defined.

(** X21.  An update whose key [[name, {id}]] names an entity and whose
    value is an object merges the value into that entity: every property of
    the value is stored, the other properties of the entity stay, and no
    other entity and no other property of the project changes. *)
Theorem X21_update_merges_into_the_entity (fields : list (string * JsonDiff.json))
    (name : string) (items : list JsonDiff.json) (id : JsonDiff.json)
    (updates : list (string * JsonDiff.json)) (i : nat) :
  JsonDiff.lookup_field name fields = Some (JsonDiff.JArr items) ->
  JsonDiff.find_child id items = Some i ->
  exists fields' items' entity entity',
    JsonDiff.apply_action (JsonDiff.JObj fields)
      (JsonDiff.Action.mk JsonDiff.update
         [JsonDiff.KName name; JsonDiff.KSel (Some id)] (JsonDiff.JObj updates))
    = Some (JsonDiff.JObj fields')
    /\ JsonDiff.lookup_field name fields' = Some (JsonDiff.JArr items')
    /\ (forall other, other <> name ->
          JsonDiff.lookup_field other fields' = JsonDiff.lookup_field other fields)
    /\ List.length items' = List.length items
    /\ (forall j, j <> i -> nth_error items' j = nth_error items j)
    /\ nth_error items i = Some (JsonDiff.JObj entity)
    /\ nth_error items' i = Some (JsonDiff.JObj entity')
    /\ (forall k, ~ In k (map fst updates) ->
          JsonDiff.lookup_field k entity' = JsonDiff.lookup_field k entity)
    /\ (forall k v, In (k, v) updates ->
          (forall v', In (k, v') updates -> v' = v) ->
          JsonDiff.lookup_field k entity' = Some v).
Proof.
  intros Hitems Hf.
  destruct (find_child_found id items i Hf) as (entity & Hn & _).
  pose proof (update_entity _ _ _ Hitems id updates i entity Hf Hn) as Happly.
  set (merge := fun c => match c with
                         | JsonDiff.JObj fields =>
                             JsonDiff.JObj
                               (fold_left
                                  (fun fs kv => JsonDiff.set_field (fst kv) (snd kv) fs)
                                  updates fields)
                         | _ => c
                         end) in *.
  destruct (map_index_nth i merge items) as (Hlen & Hi & Hj).
  eexists. exists (JsonDiff.map_index i merge items). exists entity.
  exists (fold_left (fun fs kv => JsonDiff.set_field (fst kv) (snd kv) fs)
            updates entity).
  split; [exact Happly |].
  split; [| split; [| split; [| split; [| split; [| split; [| split]]]]]].
  - now rewrite lookup_map_field, String.eqb_refl, Hitems.
  - intros other Hne. rewrite lookup_map_field.
    destruct (String.eqb_spec name other) as [-> | _]; [congruence | reflexivity].
  - exact Hlen.
  - exact Hj.
  - exact Hn.
  - rewrite Hi, Hn. reflexivity.
  - intros k Hk. now apply lookup_merged.
  - intros k v Hin Hfun. now apply lookup_merged.
Qed.

Lemma X21_update_merges_into_the_entity_witness :
  exists fields' items' entity entity',
    JsonDiff.apply_action DiffScenario.project
      (JsonDiff.Action.mk JsonDiff.update
         [JsonDiff.KName "clips"; JsonDiff.KSel (Some (JsonDiff.JStr "A"))]
         (JsonDiff.JObj [("position"%string, JsonDiff.JNum 7)]))
    = Some (JsonDiff.JObj fields')
    /\ JsonDiff.lookup_field "clips" fields' = Some (JsonDiff.JArr items')
    /\ nth_error items' 0 = Some (JsonDiff.JObj entity')
    /\ nth_error [DiffScenario.clipA] 0 = Some (JsonDiff.JObj entity)
    /\ JsonDiff.lookup_field "position" entity' = Some (JsonDiff.JNum 7)
    /\ JsonDiff.lookup_field "layer" entity' = JsonDiff.lookup_field "layer" entity.
Proof.
  destruct (X21_update_merges_into_the_entity
              [("duration"%string, JsonDiff.JNum 300);
               ("clips"%string, JsonDiff.JArr [DiffScenario.clipA]);
               ("effects"%string, JsonDiff.JArr [])]
              "clips" [DiffScenario.clipA] (JsonDiff.JStr "A")
              [("position"%string, JsonDiff.JNum 7)] 0 eq_refl eq_refl)
    as (fields' & items' & entity & entity' & H1 & H2 & _ & _ & _ & H3 & H4 & H5 & H6).
  exists fields', items', entity, entity'.
  split; [exact H1 | split; [exact H2 | split; [exact H4 | split; [exact H3 |]]]].
  split.
  - apply H6; [now left |]. intros v' [[= <-] | []]. reflexivity.
  - apply H5. cbn. intros [H | []]. discriminate.
Defined.

(** X22.  Inserting an entity whose id no entity of [project[name]] has and
    then deleting it by that id gives back the project as it was. *)
Theorem X22_insert_then_delete (fields : list (string * JsonDiff.json))
    (name : string) (items : list JsonDiff.json) (id : string)
    (entity : list (string * JsonDiff.json)) (value : JsonDiff.json) :
  JsonDiff.lookup_field name fields = Some (JsonDiff.JArr items) ->
  JsonDiff.find_child (JsonDiff.JStr id) items = None ->
  JsonDiff.lookup_field "id" entity = Some (JsonDiff.JStr id) ->
  JsonDiff.applyJsonDiff (JsonDiff.JObj fields)
    [JsonDiff.Action.mk JsonDiff.insert [JsonDiff.KName name] (JsonDiff.JObj entity);
     JsonDiff.Action.mk JsonDiff.delete
       [JsonDiff.KName name; JsonDiff.KSel (Some (JsonDiff.JStr id))] value]
  = JsonDiff.Returned (JsonDiff.JObj fields).
Proof.
  intros Hitems Hnone Hid. cbn [JsonDiff.applyJsonDiff].
  rewrite (insert_entity _ _ _ Hitems).
  set (push := fun c => match c with
                        | JsonDiff.JArr items =>
                            JsonDiff.JArr (items ++ [JsonDiff.JObj entity])
                        | _ => c
                        end).
  assert (Hitems' : JsonDiff.lookup_field name (JsonDiff.map_field name push fields)
                    = Some (JsonDiff.JArr (items ++ [JsonDiff.JObj entity]))).
  { now rewrite lookup_map_field, String.eqb_refl, Hitems. }
  assert (Hf : JsonDiff.find_child (JsonDiff.JStr id) (items ++ [JsonDiff.JObj entity])
               = Some (List.length items)).
  { apply (find_child_appended _ _ _ _ Hnone Hid). cbn. apply String.eqb_refl. }
  rewrite (delete_entity _ _ _ Hitems' _ value _ Hf).
  rewrite map_field_twice.
  rewrite (map_field_same _ _ _ _ Hitems); [reflexivity |].
  cbn. now rewrite splice1_appended.
Qed.

Lemma X22_insert_then_delete_witness :
  JsonDiff.applyJsonDiff DiffScenario.project
    [JsonDiff.Action.mk JsonDiff.insert [JsonDiff.KName "clips"]
       (JsonDiff.JObj [("id"%string, JsonDiff.JStr "B")]);
     JsonDiff.Action.mk JsonDiff.delete
       [JsonDiff.KName "clips"; JsonDiff.KSel (Some (JsonDiff.JStr "B"))]
       JsonDiff.JNull]
  = JsonDiff.Returned DiffScenario.project.
Proof.
  apply (X22_insert_then_delete
           [("duration"%string, JsonDiff.JNum 300);
            ("clips"%string, JsonDiff.JArr [DiffScenario.clipA]);
            ("effects"%string, JsonDiff.JArr [])]
           "clips" [DiffScenario.clipA] "B" [("id"%string, JsonDiff.JStr "B")]
           JsonDiff.JNull); reflexivity.
Defined.

Lemma applyJsonDiff_app (project : JsonDiff.json) (first rest : list JsonDiff.Action.t) :
  JsonDiff.applyJsonDiff project (first ++ rest)
  = match JsonDiff.applyJsonDiff project first with
    | JsonDiff.Returned project' => JsonDiff.applyJsonDiff project' rest
    | JsonDiff.Thrown project' => JsonDiff.Thrown project'
    end.
Proof.
  revert project. induction first as [| a first IH]; intros project; cbn;
    [reflexivity |].
  destruct (JsonDiff.apply_action project a); [apply IH | reflexivity].
Qed.

(** X23.  A diff is applied action by action: applying two diffs one after
    the other is applying their concatenation.  Nothing is rolled back: a
    delete with an empty key raises a TypeError on every project that is an
    object, the actions before it stay applied and the actions after it are
    never applied. *)
Theorem X23_diff_is_not_atomic (project : JsonDiff.json)
    (before after : list JsonDiff.Action.t) (fields : list (string * JsonDiff.json))
    (value : JsonDiff.json) :
  JsonDiff.applyJsonDiff project before = JsonDiff.Returned (JsonDiff.JObj fields) ->
  JsonDiff.applyJsonDiff project
    (before ++ JsonDiff.Action.mk JsonDiff.delete [] value :: after)
  = JsonDiff.Thrown (JsonDiff.JObj fields)
  /\ forall more,
       JsonDiff.applyJsonDiff project (before ++ more)
       = JsonDiff.applyJsonDiff (JsonDiff.JObj fields) more.
Proof.
  intros Hb. split.
  - rewrite applyJsonDiff_app, Hb. reflexivity.
  - intros more. now rewrite applyJsonDiff_app, Hb.
Qed.

Lemma X23_diff_is_not_atomic_witness :
  JsonDiff.applyJsonDiff DiffScenario.project
    ([JsonDiff.Action.mk JsonDiff.insert [JsonDiff.KName "clips"]
        (JsonDiff.JObj [("id"%string, JsonDiff.JStr "B")])]
     ++ JsonDiff.Action.mk JsonDiff.delete [] JsonDiff.JNull
        :: [JsonDiff.Action.mk JsonDiff.delete
              [JsonDiff.KName "clips"; JsonDiff.KSel (Some (JsonDiff.JStr "B"))]
              JsonDiff.JNull])
  = JsonDiff.Thrown
      (JsonDiff.JObj
         [("duration"%string, JsonDiff.JNum 300);
          ("clips"%string,
           JsonDiff.JArr [DiffScenario.clipA;
                          JsonDiff.JObj [("id"%string, JsonDiff.JStr "B")]]);
          ("effects"%string, JsonDiff.JArr [])]).
Proof.
  apply (X23_diff_is_not_atomic DiffScenario.project). reflexivity.
Defined.

(** ** The transition directive *)

(** X25.  While a transition is resized, the offset written to a keyframe
    icon is never negative and never beyond the transition's width; for
    an icon that was inside the original width it is the original offset
    scaled by the ratio of the widths; the icons keep their order from left
    to right; and nothing is written exactly when the preview is not active
    or the original width is not positive. *)
Theorem X25_preview_icons_stay_inside (active : bool) (originalWidth : Q)
    (widthPx : option Q) (element_width : Q) :
  let width :=
    JS.Math_max 0 (match widthPx with Some w => w | None => element_width end) in
  let left := TransitionDirective.scaled_left active originalWidth widthPx
                element_width in
  (forall originalLeft,
      left originalLeft = None <-> active = false \/ originalWidth <= 0)
  /\ (forall originalLeft scaledLeft,
        left originalLeft = Some scaledLeft ->
        0 <= scaledLeft <= width
        /\ (0 <= originalLeft <= originalWidth ->
            scaledLeft == originalLeft * (width / originalWidth)))
  /\ (forall l1 l2 s1 s2,
        l1 <= l2 -> left l1 = Some s1 -> left l2 = Some s2 -> s1 <= s2).
Proof.
  cbv zeta. unfold TransitionDirective.scaled_left.
  set (w0 := match widthPx with Some w => w | None => element_width end).
  assert (Hw : (if JS.eqb w0 0 || JS.ltb w0 0 then 0 else w0) == JS.Math_max 0 w0
               /\ 0 <= (if JS.eqb w0 0 || JS.ltb w0 0 then 0 else w0)).
  { unfold JS.Math_max. destruct (JS.eqb w0 0) eqn:E0; cbn [orb].
    - apply eqb_true in E0. cases_on_comparisons; split; lra.
    - apply eqb_false in E0. cases_on_comparisons; split; lra. }
  revert Hw. generalize (if JS.eqb w0 0 || JS.ltb w0 0 then 0 else w0).
  generalize (JS.Math_max 0 w0). clear w0. intros width' width [Hw Hw0].
  destruct active; cbn [negb].
  2: { split; [| split]; try discriminate.
       intros; split; [intros _; now left | reflexivity]. }
  destruct (JS.eqb originalWidth 0) eqn:E0; cbn [orb].
  { apply eqb_true in E0. split; [| split]; try discriminate.
    intros; split; [intros _; right; lra | reflexivity]. }
  apply eqb_false in E0.
  destruct (JS.leb originalWidth 0) eqn:E1.
  { apply leb_true in E1. split; [| split]; try discriminate.
    intros; split; [intros _; now right | reflexivity]. }
  apply leb_false in E1.
  assert (Hscale : 0 <= width / originalWidth).
  { apply div_nonneg; assumption. }
  assert (Hclamp : forall l,
             let s := (if JS.gtb (if JS.ltb (l * (width / originalWidth)) 0 then 0
                                  else l * (width / originalWidth)) width
                       then width
                       else if JS.ltb (l * (width / originalWidth)) 0 then 0
                            else l * (width / originalWidth)) in
             0 <= s <= width
             /\ (0 <= l * (width / originalWidth) <= width ->
                 s == l * (width / originalWidth))
             /\ (width < l * (width / originalWidth) -> s == width)
             /\ (l * (width / originalWidth) < 0 -> s == 0)).
  { intros l. cbv zeta.
    generalize (l * (width / originalWidth)). intros x.
    destruct (JS.ltb x 0) eqn:Ex;
      [apply ltb_true in Ex | apply ltb_false in Ex];
      cases_on_comparisons; repeat split; intros; lra. }
  split; [| split].
  - intros l. split; [discriminate |]. intros [H | H]; [discriminate | lra].
  - intros l s [= <-]. destruct (Hclamp l) as (H1 & H2 & _). cbv zeta in *.
    split; [rewrite <- Hw; exact H1 |].
    intros [Hl0 Hl1]. rewrite <- Hw. apply H2. split.
    + apply Qmult_le_0_compat; assumption.
    + assert (E : l * (width / originalWidth) == l / originalWidth * width)
        by (field; lra).
      assert (H1' : l / originalWidth <= 1) by (apply Qle_shift_div_r; lra).
      pose proof (Qmult_le_compat_r _ _ width H1' Hw0) as H3. lra.
  - intros l1 l2 s1 s2 Hl [= <-] [= <-].
    assert (Hx : l1 * (width / originalWidth) <= l2 * (width / originalWidth))
      by (apply Qmult_le_compat_r; assumption).
    destruct (Hclamp l1) as (A1 & A2 & A3 & A4).
    destruct (Hclamp l2) as (B1 & B2 & B3 & B4).
    cbv zeta in *.
    revert Hx A1 A2 A3 A4 B1 B2 B3 B4.
    generalize (l1 * (width / originalWidth)) (l2 * (width / originalWidth)).
    intros x1 x2.
    match goal with
    | |- _ -> _ -> _ -> _ -> _ -> _ -> _ -> _ -> _ -> ?a <= ?b =>
        generalize a b
    end.
    intros s1 s2 Hx A1 A2 A3 A4 B1 B2 B3 B4.
    destruct (Qlt_le_dec x1 0) as [L1 | G1];
      destruct (Qlt_le_dec width x2) as [L2 | G2].
    + rewrite (A4 L1), (B3 L2). lra.
    + rewrite (A4 L1). lra.
    + rewrite (B3 L2). lra.
    + destruct (Qlt_le_dec width x1) as [L3 | G3]; [lra |].
      destruct (Qlt_le_dec x2 0) as [L4 | G4]; [lra |].
      rewrite (A2 (conj G1 G3)), (B2 (conj G4 G2)). exact Hx.
Qed.

(** ** The preview window and the two places that read it *)

(** The container after [startKeyframePreview(mode)] and one
    [updateKeyframePreview]: the display window is ordered, and so is the
    projected window. *)
Lemma preview_window_shape (scope : Scope.t) (clip : Item.t)
    (timing_original_start timing_original_end displayStart displayEnd : option Q)
    (mode : string) :
  exists originalStart originalEnd displayStart' displayEnd',
    displayStart' <= displayEnd'
    /\ PreviewWindow.updateKeyframePreview scope
         (PreviewWindow.startKeyframePreview scope clip timing_original_start
            timing_original_end mode)
         displayStart displayEnd
       = Preview.mk true mode (Some originalStart) (Some originalEnd)
           (Some displayStart') (Some displayEnd')
           (Some (if String.eqb mode "trim" then displayStart' else originalStart))
           (Some (if String.eqb mode "trim" then displayEnd'
                  else if JS.ltb originalEnd originalStart then originalStart
                       else originalEnd))
           (Some (Scope.pixelsPerSecond scope)).
Proof.
  unfold PreviewWindow.updateKeyframePreview, PreviewWindow.startKeyframePreview.
  cbv zeta.
  destruct displayStart as [ds |], displayEnd as [de |];
    cbn [Preview.active negb Preview.mode Preview.displayStart Preview.originalStart
         Preview.originalEnd PreviewWindow.toNumber_or option_map];
    match goal with
    | |- context [Preview.mk true mode (Some ?os) (Some ?oe)] => exists os, oe
    end;
    match goal with
    | |- context [JS.ltb ?e ?s] =>
        destruct (JS.ltb e s) eqn:L;
        [apply ltb_true in L; exists e, s | apply ltb_false in L; exists s, e]
    end;
    (split; [lra |]);
    destruct (String.eqb mode "trim"); cbn [fst snd]; try reflexivity;
    destruct (JS.ltb _ _); reflexivity.
Qed.

(** X26.  For the preview window that [startKeyframePreview] and
    [updateKeyframePreview] build, the keyframe enumeration of the
    controller and the renderer of the clip directive place a keyframe at
    the same time: in trim mode both leave it at its own time, and in
    retime mode, when the original and the display window have positive
    length, both map it linearly from the original onto the display
    window. *)
Theorem X26_preview_paths_agree (scope : Scope.t) (clip : Item.t)
    (timing_original_start timing_original_end displayStart displayEnd : option Q)
    (mode : string) (frame : Q) :
  0 < Project.fps_num (Scope.project scope) ->
  0 < Project.fps_den (Scope.project scope) ->
  let preview :=
    PreviewWindow.updateKeyframePreview scope
      (PreviewWindow.startKeyframePreview scope clip timing_original_start
         timing_original_end mode)
      displayStart displayEnd in
  let clip' := PreviewWindow.set_keyframe_preview (Some preview) clip in
  let frameSeconds := (frame - 1) / Controller.frames_per_second scope in
  (mode = "trim"%string ->
   ClipDirective.render_mappedSeconds scope clip' preview frame == frameSeconds
   /\ Controller.mapSecondsToDisplay clip' frameSeconds = frameSeconds)
  /\ (mode = "retime"%string ->
      ClipDirective.render_originalDuration clip' preview
      = Controller.projectedDuration clip'
      /\ ClipDirective.render_displayDuration clip' preview
         = Controller.displayDuration clip'
      /\ (0 < Controller.projectedDuration clip' ->
          0 < Controller.displayDuration clip' ->
          ClipDirective.render_mappedSeconds scope clip' preview frame
          == Controller.mapSecondsToDisplay clip' frameSeconds)).
Proof.
  intros Hn Hd. cbv zeta.
  destruct (preview_window_shape scope clip timing_original_start timing_original_end
              displayStart displayEnd mode)
    as (os & oe & ds & de & Hord & ->).
  assert (Hfps : ClipDirective.render_fps scope = Controller.frames_per_second scope).
  { unfold ClipDirective.render_fps, Controller.frames_per_second. cbv zeta.
    cbn [JS.toNumber].
    assert (E1 : JS.eqb (Project.fps_den (Scope.project scope)) 0 = false)
      by (apply eqb_false; lra).
    rewrite E1. cbn [negb].
    assert (E2 : JS.leb (Project.fps_num (Scope.project scope)
                         / Project.fps_den (Scope.project scope)) 0 = false).
    { apply leb_false. apply fps_pos; assumption. }
    now rewrite E2. }
  split.
  - intros ->. cbn [String.eqb Ascii.eqb Bool.eqb].
    split.
    + unfold ClipDirective.render_mappedSeconds, ClipDirective.hasRetimeMapping.
      cbn [Preview.mode String.eqb Ascii.eqb Bool.eqb andb]. cbv zeta.
      rewrite Hfps. reflexivity.
    + reflexivity.
  - intros ->. cbn [String.eqb Ascii.eqb Bool.eqb].
    set (preview := Preview.mk true "retime" (Some os) (Some oe) (Some ds) (Some de)
                      (Some os) (Some (if JS.ltb oe os then os else oe))
                      (Some (Scope.pixelsPerSecond scope))).
    set (clip' := PreviewWindow.set_keyframe_preview (Some preview) clip).
    assert (Hr : Controller.is_retime clip' = true) by reflexivity.
    assert (Ho : ClipDirective.render_originalDuration clip' preview
                 = Controller.projectedDuration clip').
    { unfold ClipDirective.render_originalDuration, ClipDirective.render_originalEnd,
        ClipDirective.render_originalStart, Controller.projectedDuration,
        Controller.previewProjectedEnd, Controller.previewProjectedStart,
        Controller.preview.
      cbn. destruct (JS.ltb oe os) eqn:L; [| now rewrite L].
      assert (R : JS.ltb os os = false) by (apply ltb_false; lra).
      now rewrite R. }
    assert (Hdisp : ClipDirective.render_displayDuration clip' preview
                    = Controller.displayDuration clip').
    { unfold ClipDirective.render_displayDuration, ClipDirective.render_displayEnd,
        ClipDirective.render_displayStart, Controller.displayDuration,
        Controller.previewDisplayEnd, Controller.previewDisplayStart,
        Controller.rawDisplayEnd, Controller.rawDisplayStart, Controller.preview.
      cbn. assert (R : JS.ltb de ds = false) by (apply ltb_false; lra).
      now rewrite R. }
    split; [exact Ho | split; [exact Hdisp |]].
    intros Hp Hdd.
    rewrite (proj1 (mapSecondsToDisplay_retime clip' _ Hr) Hp Hdd).
    rewrite render_mappedSeconds_retime.
    + rewrite Ho, Hdisp, Hfps.
      assert (E1 : ClipDirective.render_displayStart clip' preview
                   = Controller.previewDisplayStart clip').
      { unfold ClipDirective.render_displayStart, Controller.previewDisplayStart,
          Controller.rawDisplayEnd, Controller.rawDisplayStart, Controller.preview.
        cbn. assert (R : JS.ltb de ds = false) by (apply ltb_false; lra).
        now rewrite R. }
      rewrite E1. reflexivity.
    + unfold ClipDirective.hasRetimeMapping. rewrite Ho, Hdisp.
      apply gtb_true in Hp. apply gtb_true in Hdd. rewrite Hp, Hdd. reflexivity.
Qed.

Lemma X26_preview_paths_agree_witness :
  let preview :=
    PreviewWindow.updateKeyframePreview Demo.scope
      (PreviewWindow.startKeyframePreview Demo.scope (Scenario5.clip_with 49)
         (Some 0) (Some 4) "retime")
      (Some 0) (Some 2) in
  let clip' :=
    PreviewWindow.set_keyframe_preview (Some preview) (Scenario5.clip_with 49) in
  ClipDirective.render_mappedSeconds Demo.scope clip' preview 49
  == Controller.mapSecondsToDisplay clip'
       ((49 - 1) / Controller.frames_per_second Demo.scope).
Proof.
  apply (proj2 (proj2 (proj2 (X26_preview_paths_agree Demo.scope
                                (Scenario5.clip_with 49) (Some 0) (Some 4) (Some 0)
                                (Some 2) "retime" 49 eq_refl eq_refl) eq_refl)));
    reflexivity.
Defined.

(** ** Storing a keyframe *)

Lemma entry_at_above (frame : Q) (keyframes : list (Q * KeyframeEntry.t)) :
  Forall (fun b => frame < fst b) keyframes -> entry_at frame keyframes = None.
Proof.
  unfold entry_at. induction 1 as [| [f e] rest Hf _ IH]; cbn; [reflexivity |].
  cbn in Hf. assert (E : JS.eqb f frame = false) by (apply eqb_false; lra).
  rewrite E. exact IH.
Qed.

(** X27.  Looking up a frame after [storeKeyframe]: a frame that had no
    entry holds the new entry; a frame that had one keeps it, unless the new
    entry is selected and the old one is not, so that the stored entry is
    selected as soon as one of the two is; the entries of all other frames
    are what they were. *)
Theorem X27_storeKeyframe_lookup (keyframes : list (Q * KeyframeEntry.t))
    (frame : Q) (data : KeyframeEntry.t) :
  StronglySorted (fun a b => fst a < fst b) keyframes ->
  let stored := Controller.storeKeyframe keyframes frame data in
  entry_at frame stored
  = Some (match entry_at frame keyframes with
          | Some existing =>
              if KeyframeEntry.selected data && negb (KeyframeEntry.selected existing)
              then data else existing
          | None => data
          end)
  /\ (forall entry, entry_at frame stored = Some entry ->
        KeyframeEntry.selected entry
        = KeyframeEntry.selected data
          || match entry_at frame keyframes with
             | Some existing => KeyframeEntry.selected existing
             | None => false
             end)
  /\ (forall other, ~ other == frame ->
        entry_at other stored = entry_at other keyframes).
Proof.
  intros Hs. cbv zeta.
  assert (H1 : entry_at frame (Controller.storeKeyframe keyframes frame data)
               = Some (match entry_at frame keyframes with
                       | Some existing =>
                           if KeyframeEntry.selected data
                              && negb (KeyframeEntry.selected existing)
                           then data else existing
                       | None => data
                       end)).
  { induction Hs as [| [f e] rest Hrest IH Hall]; cbn.
    - unfold entry_at. cbn.
      assert (E : JS.eqb frame frame = true) by (apply eqb_true; reflexivity).
      now rewrite E.
    - unfold entry_at at 2. cbn [find fst].
      destruct (JS.eqb f frame) eqn:Ee; cbn [option_map snd].
      + destruct (KeyframeEntry.selected data && negb (KeyframeEntry.selected e));
          unfold entry_at; cbn [find fst]; rewrite Ee; reflexivity.
      + destruct (JS.ltb frame f) eqn:El.
        * apply ltb_true in El.
          assert (Hnone : find (fun fe => JS.eqb (fst fe) frame) rest = None).
          { assert (Ha : Forall (fun b => frame < fst b) rest).
            { eapply Forall_impl; [| exact Hall]. cbn. intros b Hb. lra. }
            pose proof (entry_at_above frame rest Ha) as Hn. unfold entry_at in Hn.
            destruct (find _ rest); [discriminate | reflexivity]. }
          rewrite Hnone. cbn [option_map]. unfold entry_at. cbn [find fst].
          assert (E : JS.eqb frame frame = true) by (apply eqb_true; reflexivity).
          now rewrite E.
        * unfold entry_at at 1. cbn [find fst]. rewrite Ee. exact IH. }
  split; [exact H1 | split].
  - intros entry He. rewrite H1 in He. injection He as <-.
    destruct (entry_at frame keyframes) as [existing |].
    + destruct (KeyframeEntry.selected data) eqn:Sd,
        (KeyframeEntry.selected existing) eqn:Se; cbn; rewrite ?Sd, ?Se; reflexivity.
    + now rewrite orb_false_r.
  - intros other Hne. clear H1 Hs.
    induction keyframes as [| [f e] rest IH]; cbn.
    + unfold entry_at. cbn.
      assert (E : JS.eqb frame other = false)
        by (apply eqb_false; intros H; apply Hne; now symmetry).
      now rewrite E.
    + destruct (JS.eqb f frame) eqn:Ee.
      * apply eqb_true in Ee.
        assert (E : JS.eqb f other = false)
          by (apply eqb_false; intros H; apply Hne; rewrite <- H; exact Ee).
        destruct (KeyframeEntry.selected data && negb (KeyframeEntry.selected e));
          unfold entry_at; cbn [find fst]; rewrite E; reflexivity.
      * destruct (JS.ltb frame f).
        -- unfold entry_at. cbn [find fst].
           assert (E : JS.eqb frame other = false)
             by (apply eqb_false; intros H; apply Hne; now symmetry).
           now rewrite E.
        -- unfold entry_at in *. cbn [find fst].
           destruct (JS.eqb f other); [reflexivity | exact IH].
Qed.

Lemma X27_storeKeyframe_lookup_witness :
  entry_at 49
    (Controller.storeKeyframe
       [(1, KeyframeEntry.mk "linear" false "clip" "C" true false);
        (49, KeyframeEntry.mk "linear" false "clip" "C" true false)]
       49 (KeyframeEntry.mk "bezier" true "effect" "E" true true))
  = Some (KeyframeEntry.mk "bezier" true "effect" "E" true true).
Proof.
  apply (X27_storeKeyframe_lookup
           [(1, KeyframeEntry.mk "linear" false "clip" "C" true false);
            (49, KeyframeEntry.mk "linear" false "clip" "C" true false)]
           49 (KeyframeEntry.mk "bezier" true "effect" "E" true true)).
  repeat constructor.
Defined.

(** ** Releasing a handle in timing mode *)



